(** * IronTelemetry JavaScript SDK: a shallow embedding and its properties

    The development follows the sources file by file:
    [types.ts], [config.ts], [breadcrumbs.ts], [journey.ts], [transport.ts],
    [queue.ts] and [client.ts].  Mutable objects are modelled by explicit
    state passing; objects that are shared by reference (journeys, their
    steps and their metadata object) live in a store and are named by their
    index in it.  The ambient inputs of the JavaScript runtime ([new Date()],
    [Math.random()], [generateEventId()], [fetch]) are explicit arguments. *)

From stdpp Require Import base list strings pretty.
From Stdlib Require Import ZArith QArith Qminmax Qround Lia Ascii.

#[local] Set Warnings "-register-all".
Close Scope Q_scope.

(** ** JavaScript values *)

(** What a [catch] clause can observe of a thrown value: whether it is an
    [Error] (and then its [message]) or anything else. *)
Inductive Thrown : Type :=
  | ThrownError (message : string)
  | ThrownOther.

(** The result of evaluating an expression that may throw, or of awaiting a
    promise that may reject. *)
Inductive Outcome (A : Type) : Type :=
  | Returned (a : A)
  | Threw (t : Thrown).
Arguments Returned {A} a.
Arguments Threw {A} t.

Definition bindO {A B : Type} (o : Outcome A) (k : A -> Outcome B) : Outcome B :=
  match o with
  | Returned a => k a
  | Threw t => Threw t
  end.

(** A [Date] object: a time value in milliseconds since the epoch, or the
    invalid date (time value NaN). *)
Inductive JsDate : Type :=
  | ValidDate (ms : Z)
  | InvalidDate.

(** A [number]: a finite number, NaN or an infinity.  Every finite double
    is a rational, and the model takes any rational for a finite number. *)
Inductive JsNumber : Type :=
  | Num (q : Q)
  | NaN
  | PosInfinity
  | NegInfinity.

(** [a < b] and [a <= b]: false as soon as an operand is NaN. *)
Definition num_lt (a b : JsNumber) : bool :=
  match a, b with
  | Num x, Num y => negb (Qle_bool y x)
  | Num _, PosInfinity | NegInfinity, Num _ | NegInfinity, PosInfinity => true
  | _, _ => false
  end.

Definition num_le (a b : JsNumber) : bool :=
  match a, b with
  | Num x, Num y => Qle_bool x y
  | Num _, PosInfinity | NegInfinity, Num _ | NegInfinity, PosInfinity => true
  | PosInfinity, PosInfinity | NegInfinity, NegInfinity => true
  | _, _ => false
  end.

(** [-a] *)
Definition num_neg (a : JsNumber) : JsNumber :=
  match a with
  | Num x => Num (- x)
  | NaN => NaN
  | PosInfinity => NegInfinity
  | NegInfinity => PosInfinity
  end.

(** [Math.min(a, b)] and [Math.max(a, b)]: NaN as soon as an argument is. *)
Definition Math_min (a b : JsNumber) : JsNumber :=
  match a, b with
  | NaN, _ | _, NaN => NaN
  | NegInfinity, _ | _, NegInfinity => NegInfinity
  | PosInfinity, x | x, PosInfinity => x
  | Num x, Num y => Num (Qmin x y)
  end.

Definition Math_max (a b : JsNumber) : JsNumber :=
  match a, b with
  | NaN, _ | _, NaN => NaN
  | PosInfinity, _ | _, PosInfinity => PosInfinity
  | NegInfinity, x | x, NegInfinity => x
  | Num x, Num y => Num (Qmax x y)
  end.

(** The length of an array, as a number. *)
Definition num_of_nat (n : nat) : JsNumber := Num (inject_Z (Z.of_nat n)).

(** The integer part of a rational: the rounding toward zero that
    ToIntegerOrInfinity applies to a finite number. *)
Definition Qtruncate (q : Q) : Z := Z.quot (Qnum q) (Zpos (Qden q)).

(** The values that can sit behind the type [unknown].  Arrays and objects
    are trees; an object that reaches itself is the one value [VCircular],
    of which the model keeps what the library can observe: [JSON.stringify]
    throws a [TypeError] on it, with a message that describes the cycle.
    A function or a symbol, which [JSON.stringify] treats as it treats
    [undefined], is not told apart from [undefined]. *)
Inductive JsValue : Type :=
  | VUndefined
  | VNull
  | VBool (b : bool)
  | VNum (n : JsNumber)
  | VStr (s : string)
  | VDate (d : JsDate)
  | VBigInt (n : Z)
  | VCircular (message : string)
  | VArr (items : list JsValue)
  | VObj (fields : list (string * JsValue)).

(** A plain object used as a record of named values
    ([Record<string, unknown>]), in property order. *)
Abbreviation JsObject := (list (string * JsValue)).

(** [obj[key]] for the own properties of a plain object: [undefined] when
    the object has no own property of that name. *)
Fixpoint obj_get (key : string) (o : JsObject) : JsValue :=
  match o with
  | [] => VUndefined
  | (k, v) :: rest => if String.eqb k key then v else obj_get key rest
  end.

(** The own property [key] is given the value [value]: overwritten in
    place, or appended as a new property.  This is what an object literal
    and a spread do for each property they copy. *)
Fixpoint obj_define (key : string) (value : JsValue) (o : JsObject) : JsObject :=
  match o with
  | [] => [(key, value)]
  | (k, v) :: rest =>
      if String.eqb k key then (k, value) :: rest
      else (k, v) :: obj_define key value rest
  end.

(** [obj[key] = value] on a plain object.  The name ["__proto__"] is the
    accessor that plain objects inherit: assigning to it changes the
    prototype of the object, or does nothing, and creates no own property.
    (The objects that the library assigns to start empty and are written by
    assignment only, so that none has an own property of that name.
    Prototypes are not part of the model: the spread and [JSON.stringify]
    read own properties only.) *)
Definition obj_set (key : string) (value : JsValue) (o : JsObject) : JsObject :=
  if String.eqb key "__proto__" then o else obj_define key value o.

(** [arr.slice(start)]: a negative [start] counts from the end, and the
    resulting index is clamped to the array (ECMAScript
    Array.prototype.slice).  Note that [-0] is [0]. *)
Definition js_slice {A : Type} (start : Z) (arr : list A) : list A :=
  let len := Z.of_nat (length arr) in
  let k := if (start <? 0)%Z then Z.max (len + start) 0 else Z.min start len in
  drop (Z.to_nat k) arr.

(** [arr.slice(start)] for any number [start]: it is first converted by
    ToIntegerOrInfinity, which takes NaN to 0, drops the fractional part of
    a finite number and keeps the infinities. *)
Definition js_slice_number {A : Type} (start : JsNumber) (arr : list A) : list A :=
  match start with
  | Num q => js_slice (Qtruncate q) arr
  | NaN => js_slice 0 arr
  | NegInfinity => arr
  | PosInfinity => []
  end.

(** [arr.shift()], the array that is left (nothing happens on an empty array). *)
Definition js_shift {A : Type} (arr : list A) : list A := tail arr.

(** [arr.push(x)] *)
Definition js_push {A : Type} (arr : list A) (x : A) : list A := arr ++ [x].

(** ** types.ts *)

Module Severity.
Inductive t : Type := debug | info | warning | error | fatal.
End Severity.
Abbreviation SeverityLevel := Severity.t.

Inductive BreadcrumbCategory : Type :=
  | ui | http | navigation | console | auth | business | notification | custom.

(** [Breadcrumb], over the representation [D] of its timestamp: a [JsDate]
    in memory, an optional one for the argument of [addBreadcrumb], the
    stored text in the persisted queue. *)
Record Breadcrumb_ (D : Type) : Type := mkBreadcrumb {
  b_timestamp : D;
  b_category : BreadcrumbCategory;
  b_message : string;
  b_level : option SeverityLevel;
  b_data : option JsObject;
}.
Arguments mkBreadcrumb {D}.
Arguments b_timestamp {D}.
Arguments b_category {D}.
Arguments b_message {D}.
Arguments b_level {D}.
Arguments b_data {D}.

Abbreviation Breadcrumb := (Breadcrumb_ JsDate).

Record User : Type := mkUser {
  u_id : string;
  u_email : option string;
  u_name : option string;
  u_data : option JsObject;
}.

Record StackFrame : Type := mkStackFrame {
  f_function : option string;
  f_filename : option string;
  f_lineno : option Z;
  f_colno : option Z;
  f_context : option (list string);
}.

Record ExceptionInfo : Type := mkExceptionInfo {
  x_type : string;
  x_message : string;
  x_stacktrace : option (list StackFrame);
}.

Record PlatformInfo : Type := mkPlatformInfo {
  p_name : string;
  p_version : option string;
  p_os : option string;
  p_userAgent : option string;
}.

(** The [metadata] object of a [JourneyContext] is either the very object
    that a live journey holds in its [metadata] field (named by the index of
    the journey in the store of journeys), or an object of its own. *)
Inductive MetadataRef : Type :=
  | MetadataOf (journey : nat)
  | MetadataValue (o : JsObject).

(** [JourneyContext], over the representation [D] of dates and [M] of the
    metadata object. *)
Record JourneyContext_ (D M : Type) : Type := mkJourneyContext {
  jc_journeyId : string;
  jc_name : string;
  jc_currentStep : option string;
  jc_startedAt : D;
  jc_metadata : M;
}.
Arguments mkJourneyContext {D M}.
Arguments jc_journeyId {D M}.
Arguments jc_name {D M}.
Arguments jc_currentStep {D M}.
Arguments jc_startedAt {D M}.
Arguments jc_metadata {D M}.

Abbreviation JourneyContext := (JourneyContext_ JsDate MetadataRef).

(** [TelemetryEvent], over the same two representations. *)
Record TelemetryEvent_ (D M : Type) : Type := mkTelemetryEvent {
  eventId : string;
  e_timestamp : D;
  e_level : SeverityLevel;
  e_message : option string;
  e_exception : option ExceptionInfo;
  e_user : option User;
  e_tags : list (string * string);
  e_extra : JsObject;
  e_breadcrumbs : list (Breadcrumb_ D);
  e_journey : option (JourneyContext_ D M);
  e_environment : option string;
  e_appVersion : option string;
  e_platform : PlatformInfo;
}.
Arguments mkTelemetryEvent {D M}.
Arguments eventId {D M}.
Arguments e_timestamp {D M}.
Arguments e_level {D M}.
Arguments e_message {D M}.
Arguments e_exception {D M}.
Arguments e_user {D M}.
Arguments e_tags {D M}.
Arguments e_extra {D M}.
Arguments e_breadcrumbs {D M}.
Arguments e_journey {D M}.
Arguments e_environment {D M}.
Arguments e_appVersion {D M}.
Arguments e_platform {D M}.

(** An event in memory. *)
Abbreviation TelemetryEvent := (TelemetryEvent_ JsDate MetadataRef).

Record ParsedDsn : Type := mkParsedDsn {
  d_publicKey : string;
  d_host : string;
  d_protocol : string;
  d_apiBaseUrl : string;
}.

(** [SendResult]; the event id is whatever value the response carried, or
    the string generated by the client. *)
Record SendResult : Type := mkSendResult {
  success : bool;
  r_eventId : option JsValue;
  r_error : option string;
  queued : option bool;
}.

(** What the [beforeSend] hook returns: a boolean or an event. *)
Inductive BeforeSendResult : Type :=
  | HookBool (b : bool)
  | HookEvent (e : TelemetryEvent).

Record TelemetryOptions : Type := mkTelemetryOptions {
  o_dsn : string;
  o_environment : option string;
  o_appVersion : option string;
  o_sampleRate : option JsNumber;
  o_maxBreadcrumbs : option JsNumber;
  o_debug : option bool;
  o_beforeSend : option (TelemetryEvent -> Outcome BeforeSendResult);
  o_enableOfflineQueue : option bool;
  o_maxOfflineQueueSize : option JsNumber;
  o_apiBaseUrl : option string;
}.

(** ** config.ts *)

(** [Required<TelemetryOptions> & { parsedDsn }] *)
Record ResolvedOptions : Type := mkResolvedOptions {
  dsn : string;
  environment : string;
  appVersion : string;
  sampleRate : JsNumber;
  maxBreadcrumbs : JsNumber;
  debug : bool;
  beforeSend : TelemetryEvent -> Outcome BeforeSendResult;
  enableOfflineQueue : bool;
  maxOfflineQueueSize : JsNumber;
  apiBaseUrl : string;
  parsedDsn : ParsedDsn;
}.

Module DEFAULT_OPTIONS.
Definition sampleRate : JsNumber := Num 1.
Definition maxBreadcrumbs : JsNumber := Num 100.
Definition debug : bool := false.
Definition enableOfflineQueue : bool := true.
Definition maxOfflineQueueSize : JsNumber := Num 500.
End DEFAULT_OPTIONS.

(** [resolveOptions(options)]; [parseDsn], which rests on the host's [URL]
    class, is taken as an argument. *)
Definition resolveOptions (parseDsn : string -> Outcome ParsedDsn)
    (options : TelemetryOptions) : Outcome ResolvedOptions :=
  bindO (parseDsn (o_dsn options)) (fun parsedDsn =>
    Returned
      {| dsn := o_dsn options;
         environment := default "production" (o_environment options);
         appVersion := default "0.0.0" (o_appVersion options);
         sampleRate :=
           Math_max (Num 0)
             (Math_min (Num 1)
                (default DEFAULT_OPTIONS.sampleRate (o_sampleRate options)));
         maxBreadcrumbs :=
           default DEFAULT_OPTIONS.maxBreadcrumbs (o_maxBreadcrumbs options);
         debug := default DEFAULT_OPTIONS.debug (o_debug options);
         beforeSend :=
           default (fun _ => Returned (HookBool true)) (o_beforeSend options);
         enableOfflineQueue :=
           default DEFAULT_OPTIONS.enableOfflineQueue (o_enableOfflineQueue options);
         maxOfflineQueueSize :=
           default DEFAULT_OPTIONS.maxOfflineQueueSize (o_maxOfflineQueueSize options);
         apiBaseUrl := default (d_apiBaseUrl parsedDsn) (o_apiBaseUrl options);
         parsedDsn := parsedDsn |}).

(** ** breadcrumbs.ts *)

Module BreadcrumbManager.

Record t : Type := mk {
  maxBreadcrumbs : JsNumber;
  breadcrumbs : list Breadcrumb;
}.

Definition new (maxBreadcrumbs : JsNumber) : t :=
  {| maxBreadcrumbs := maxBreadcrumbs; breadcrumbs := [] |}.

(** The "trim to max size" step shared by [add] and [addBreadcrumb]:
    [if (this.breadcrumbs.length > this.maxBreadcrumbs)
       this.breadcrumbs = this.breadcrumbs.slice(-this.maxBreadcrumbs)] *)
Definition trim (max : JsNumber) (l : list Breadcrumb) : list Breadcrumb :=
  if num_lt max (num_of_nat (length l)) then js_slice_number (num_neg max) l else l.

(** [add(message, category = 'custom', level = 'info', data?)], called at
    time [now]. *)
Definition add (m : t) (message : string)
    (category : option BreadcrumbCategory) (level : option SeverityLevel)
    (data : option JsObject) (now : Z) : t :=
  let breadcrumb :=
    {| b_timestamp := ValidDate now;
       b_category := default custom category;
       b_message := message;
       b_level := Some (default Severity.info level);
       b_data := data |} in
  {| maxBreadcrumbs := maxBreadcrumbs m;
     breadcrumbs := trim (maxBreadcrumbs m) (js_push (breadcrumbs m) breadcrumb) |}.

(** [addBreadcrumb(breadcrumb)], the timestamp being optional. *)
Definition addBreadcrumb (m : t) (breadcrumb : Breadcrumb_ (option JsDate))
    (now : Z) : t :=
  let fullBreadcrumb :=
    {| b_timestamp := default (ValidDate now) (b_timestamp breadcrumb);
       b_category := b_category breadcrumb;
       b_message := b_message breadcrumb;
       b_level := b_level breadcrumb;
       b_data := b_data breadcrumb |} in
  {| maxBreadcrumbs := maxBreadcrumbs m;
     breadcrumbs := trim (maxBreadcrumbs m) (js_push (breadcrumbs m) fullBreadcrumb) |}.

(** [getAll()]: a fresh array with the same elements. *)
Definition getAll (m : t) : list Breadcrumb := breadcrumbs m.

Definition clear (m : t) : t :=
  {| maxBreadcrumbs := maxBreadcrumbs m; breadcrumbs := [] |}.

Definition count (m : t) : nat := length (breadcrumbs m).

End BreadcrumbManager.

(** ** journey.ts *)

Inductive StepStatus : Type := in_progress | completed | failed.

Record JourneyStep : Type := mkJourneyStep {
  s_name : string;
  s_category : option string;
  s_startedAt : JsDate;
  s_endedAt : option JsDate;
  s_status : StepStatus;
  s_data : JsObject;
}.

Definition is_in_progress (s : JourneyStep) : bool :=
  match s_status s with
  | in_progress => true
  | _ => false
  end.

Module Journey.

(** The step objects are shared between the [steps] array, the
    [currentStep] field and the [Step] handles given to the caller: a step
    is named by its index in [steps] (steps are only ever appended). *)
Record t : Type := mk {
  id : string;
  name : string;
  startedAt : JsDate;
  metadata : JsObject;
  user : option User;
  steps : list JourneyStep;
  currentStep : option nat;
  _completed : bool;
  _failed : bool;
}.

(** [new Journey(name)], with the generated id and the current time. *)
Definition new (name : string) (id : string) (now : Z) : t :=
  {| id := id; name := name; startedAt := ValidDate now; metadata := [];
     user := None; steps := []; currentStep := None;
     _completed := false; _failed := false |}.

Definition with_steps (j : t) (steps' : list JourneyStep)
    (currentStep' : option nat) : t :=
  {| id := id j; name := name j; startedAt := startedAt j;
     metadata := metadata j; user := user j; steps := steps';
     currentStep := currentStep';
     _completed := _completed j; _failed := _failed j |}.

Definition setUser (j : t) (uid : string) (email : option string)
    (data : option JsObject) : t :=
  {| id := id j; name := name j; startedAt := startedAt j;
     metadata := metadata j;
     user := Some {| u_id := uid; u_email := email; u_name := None; u_data := data |};
     steps := steps j; currentStep := currentStep j;
     _completed := _completed j; _failed := _failed j |}.

(** [this.metadata[key] = value]: the metadata object is mutated in place. *)
Definition setMetadata (j : t) (key : string) (value : JsValue) : t :=
  {| id := id j; name := name j; startedAt := startedAt j;
     metadata := obj_set key value (metadata j); user := user j;
     steps := steps j; currentStep := currentStep j;
     _completed := _completed j; _failed := _failed j |}.

(** [step.status = status; step.endedAt = new Date()] *)
Definition finish (status : StepStatus) (now : Z) (s : JourneyStep) : JourneyStep :=
  {| s_name := s_name s; s_category := s_category s;
     s_startedAt := s_startedAt s; s_endedAt := Some (ValidDate now);
     s_status := status; s_data := s_data s |}.

(** The guarded block that opens [startStep], [complete] and [fail]:
    [if (this.currentStep && this.currentStep.status === 'in_progress')
       { this.currentStep.status = status; this.currentStep.endedAt = new Date(); }] *)
Definition finishCurrent (status : StepStatus) (now : Z) (j : t) : t :=
  match currentStep j with
  | Some i =>
      match steps j !! i with
      | Some s =>
          if is_in_progress s
          then with_steps j (<[i := finish status now s]> (steps j)) (currentStep j)
          else j
      | None => j
      end
  | None => j
  end.

(** The second half of [startStep]: build the step, push it, make it current.
    The result is the journey and the index of the new step. *)
Definition pushStep (j : t) (name : string) (category : option string)
    (now : Z) : t * nat :=
  let step :=
    {| s_name := name; s_category := category; s_startedAt := ValidDate now;
       s_endedAt := None; s_status := in_progress; s_data := [] |} in
  let i := length (steps j) in
  (with_steps j (js_push (steps j) step) (Some i), i).

(** [startStep(name, category?)]; [now_end] and [now_start] are the two
    readings of the clock. *)
Definition startStep (j : t) (name : string) (category : option string)
    (now_end now_start : Z) : t * nat :=
  pushStep (finishCurrent completed now_end j) name category now_start.

Definition complete (j : t) (now : Z) : t :=
  let j1 := finishCurrent completed now j in
  {| id := id j1; name := name j1; startedAt := startedAt j1;
     metadata := metadata j1; user := user j1; steps := steps j1;
     currentStep := currentStep j1; _completed := true; _failed := _failed j1 |}.

Definition fail (j : t) (now : Z) : t :=
  let j1 := finishCurrent failed now j in
  {| id := id j1; name := name j1; startedAt := startedAt j1;
     metadata := metadata j1; user := user j1; steps := steps j1;
     currentStep := currentStep j1; _completed := _completed j1; _failed := true |}.

(** The name read by [this.currentStep?.name]. *)
Definition currentStepName (j : t) : option string :=
  match currentStep j with
  | Some i => s_name <$> steps j !! i
  | None => None
  end.

(** [getContext()]; [self] is the index of this journey in the store.
    The [metadata] field of the result is the journey's own metadata
    object, not a copy of it. *)
Definition getContext (self : nat) (j : t) : JourneyContext :=
  {| jc_journeyId := id j;
     jc_name := name j;
     jc_currentStep := currentStepName j;
     jc_startedAt := startedAt j;
     jc_metadata := MetadataOf self |}.

Definition getUser (j : t) : option User := user j.

Definition isComplete (j : t) : bool := _completed j || _failed j.

Definition journeyId (j : t) : string := id j.

End Journey.

(** The [Step] class wraps one step object of a journey; its methods act on
    the journey that owns the step, [step] being the index of the step. *)
Module Step.

Definition setData (step : nat) (key : string) (value : JsValue)
    (j : Journey.t) : Journey.t :=
  Journey.with_steps j
    (alter (fun s =>
              {| s_name := s_name s; s_category := s_category s;
                 s_startedAt := s_startedAt s; s_endedAt := s_endedAt s;
                 s_status := s_status s;
                 s_data := obj_set key value (s_data s) |}) step (Journey.steps j))
    (Journey.currentStep j).

Definition complete (step : nat) (now : Z) (j : Journey.t) : Journey.t :=
  Journey.with_steps j
    (alter (Journey.finish completed now) step (Journey.steps j))
    (Journey.currentStep j).

Definition fail (step : nat) (now : Z) (j : Journey.t) : Journey.t :=
  Journey.with_steps j
    (alter (Journey.finish failed now) step (Journey.steps j))
    (Journey.currentStep j).

Definition name (step : nat) (j : Journey.t) : option string :=
  s_name <$> Journey.steps j !! step.

End Step.

(** [StepScope[Symbol.dispose]()]: complete the step if it is still in progress. *)
Module StepScope.

Definition dispose (step : nat) (now : Z) (j : Journey.t) : Journey.t :=
  match Journey.steps j !! step with
  | Some s => if is_in_progress s then Step.complete step now j else j
  | None => j
  end.

End StepScope.

(** The calls a program can make on one journey and on the steps it was
    handed. *)
Inductive JourneyCall : Type :=
  | CallStartStep (name : string) (category : option string) (now_end now_start : Z)
  | CallStepComplete (step : nat) (now : Z)
  | CallStepFail (step : nat) (now : Z)
  | CallStepSetData (step : nat) (key : string) (value : JsValue)
  | CallStepScopeDispose (step : nat) (now : Z)
  | CallSetMetadata (key : string) (value : JsValue)
  | CallSetUser (uid : string) (email : option string) (data : option JsObject)
  | CallJourneyComplete (now : Z)
  | CallJourneyFail (now : Z).

Definition journey_call (j : Journey.t) (c : JourneyCall) : Journey.t :=
  match c with
  | CallStartStep name category now_end now_start =>
      fst (Journey.startStep j name category now_end now_start)
  | CallStepComplete step now => Step.complete step now j
  | CallStepFail step now => Step.fail step now j
  | CallStepSetData step key value => Step.setData step key value j
  | CallStepScopeDispose step now => StepScope.dispose step now j
  | CallSetMetadata key value => Journey.setMetadata j key value
  | CallSetUser uid email data => Journey.setUser j uid email data
  | CallJourneyComplete now => Journey.complete j now
  | CallJourneyFail now => Journey.fail j now
  end.

Definition journey_calls (j : Journey.t) (cs : list JourneyCall) : Journey.t :=
  foldl journey_call j cs.

(** The steps of a journey that are in progress. *)
Definition steps_in_progress (j : Journey.t) : list JourneyStep :=
  List.filter is_in_progress (Journey.steps j).

(** ** Dates on the wire

    [Date.prototype.toISOString] and the parsing of its output by
    [new Date(string)] (ECMAScript, Date Time String Format):
    [YYYY-MM-DDTHH:mm:ss.sssZ], the year being written on four digits from 0
    to 9999 and as a sign and six digits otherwise.  The parser reads that
    format only. *)
Module IsoDate.

#[local] Open Scope Z_scope.

Definition msPerDay : Z := 86400000.

(** The largest time value of a [Date]. *)
Definition maxTime : Z := 8640000000000000.

(** Day number (days since 1970-01-01) to year, month and day of the
    proleptic Gregorian calendar. *)
Definition civil_from_days (z : Z) : Z * Z * Z :=
  let z := z + 719468 in
  let era := z / 146097 in
  let doe := z mod 146097 in
  let yoe := (doe - doe / 1460 + doe / 36524 - doe / 146096) / 365 in
  let doy := doe - (365 * yoe + yoe / 4 - yoe / 100) in
  let mp := (5 * doy + 2) / 153 in
  let d := doy - (153 * mp + 2) / 5 + 1 in
  let m := if mp <? 10 then mp + 3 else mp - 9 in
  let y := yoe + era * 400 in
  (if m <=? 2 then y + 1 else y, m, d).

Definition days_from_civil (y m d : Z) : Z :=
  let y := if m <=? 2 then y - 1 else y in
  let era := y / 400 in
  let yoe := y mod 400 in
  let mp := if m >? 2 then m - 3 else m + 9 in
  let doy := (153 * mp + 2) / 5 + d - 1 in
  let doe := yoe * 365 + yoe / 4 - yoe / 100 + doy in
  era * 146097 + doe - 719468.

Definition digit_char (n : Z) : ascii :=
  Ascii.ascii_of_nat (48 + Z.to_nat (n mod 10)).

(** [n] in decimal on [width] characters, padded with zeros. *)
Fixpoint digits (width : nat) (n : Z) : list ascii :=
  match width with
  | O => []
  | S w => digits w (n / 10) ++ [digit_char n]
  end.

Definition char_digit (c : ascii) : option Z :=
  let n := Z.of_nat (Ascii.nat_of_ascii c) in
  if (48 <=? n) && (n <=? 57) then Some (n - 48) else None.

(** Read exactly [width] decimal digits. *)
Fixpoint read_digits (width : nat) (acc : Z) (l : list ascii)
    : option (Z * list ascii) :=
  match width with
  | O => Some (acc, l)
  | S w =>
      match l with
      | [] => None
      | c :: rest =>
          match char_digit c with
          | Some k => read_digits w (10 * acc + k) rest
          | None => None
          end
      end
  end.

Definition expect (c : ascii) (l : list ascii) : option (list ascii) :=
  match l with
  | c' :: rest => if Ascii.eqb c c' then Some rest else None
  | [] => None
  end.

Definition year_chars (y : Z) : list ascii :=
  if (0 <=? y) && (y <=? 9999) then digits 4 y
  else if y <? 0 then "-"%char :: digits 6 (- y)
  else "+"%char :: digits 6 y.

Definition format (ms : Z) : string :=
  let '(y, m, d) := civil_from_days (ms / msPerDay) in
  let t := ms mod msPerDay in
  String.string_of_list_ascii
    (year_chars y ++ "-"%char :: digits 2 m ++ "-"%char :: digits 2 d ++
     "T"%char :: digits 2 (t / 3600000) ++
     ":"%char :: digits 2 (t / 60000 mod 60) ++
     ":"%char :: digits 2 (t / 1000 mod 60) ++
     "."%char :: digits 3 (t mod 1000) ++ ["Z"%char]).

Definition read_year (l : list ascii) : option (Z * list ascii) :=
  match l with
  | "+"%char :: rest => read_digits 6 0 rest
  | "-"%char :: rest =>
      match read_digits 6 0 rest with
      | Some (y, rest') => if y =? 0 then None else Some (- y, rest')
      | None => None
      end
  | _ => read_digits 4 0 l
  end.

(** The time value denoted by a string, [None] when it is not a date. *)
Definition parse (s : string) : option Z :=
  '(y, l) ← read_year (String.list_ascii_of_string s);
  l ← expect "-" l; '(m, l) ← read_digits 2 0 l;
  l ← expect "-" l; '(d, l) ← read_digits 2 0 l;
  l ← expect "T" l; '(hh, l) ← read_digits 2 0 l;
  l ← expect ":" l; '(mm, l) ← read_digits 2 0 l;
  l ← expect ":" l; '(ss, l) ← read_digits 2 0 l;
  l ← expect "." l; '(sss, l) ← read_digits 3 0 l;
  l ← expect "Z" l;
  match l with
  | [] =>
      if (1 <=? m) && (m <=? 12) && (1 <=? d) && (d <=? 31) &&
         (hh <=? 23) && (mm <=? 59) && (ss <=? 59)
      then
        let ms := days_from_civil y m d * msPerDay
                  + hh * 3600000 + mm * 60000 + ss * 1000 + sss in
        if Z.abs ms <=? maxTime then Some ms else None
      else None
  | _ => None
  end.

End IsoDate.

(** A [Date] whose time value is within the range of [Date]. *)
Definition date_in_range (d : JsDate) : bool :=
  match d with
  | ValidDate ms => (Z.abs ms <=? IsoDate.maxTime)%Z
  | InvalidDate => false
  end.

(** [date.toISOString()]: a [RangeError] on the invalid date. *)
Definition toISOString (d : JsDate) : Outcome string :=
  match d with
  | ValidDate ms => Returned (IsoDate.format ms)
  | InvalidDate => Threw (ThrownError "Invalid time value")
  end.

(** How a date is written in stored JSON and read back: the property holds
    a string, holds [null], or is absent. *)
Inductive WireDate : Type :=
  | WireString (s : string)
  | WireNull
  | WireAbsent.

(** [Date.prototype.toJSON], as [JSON.stringify] applies it to a [Date]:
    the ISO string, or [null] for the invalid date. *)
Definition toJSON (d : JsDate) : WireDate :=
  match d with
  | ValidDate ms => WireString (IsoDate.format ms)
  | InvalidDate => WireNull
  end.

(** [new Date(value as string)] on what a stored property holds: a string
    is parsed, [null] converts to the number 0, [undefined] to NaN. *)
Definition new_Date (w : WireDate) : JsDate :=
  match w with
  | WireString s =>
      match IsoDate.parse s with
      | Some ms => ValidDate ms
      | None => InvalidDate
      end
  | WireNull => ValidDate 0
  | WireAbsent => InvalidDate
  end.

(** ** JSON

    The text written by [JSON.stringify] is represented by the value that
    [JSON.parse] reads back from it. *)

Fixpoint mapO {A B : Type} (f : A -> Outcome B) (l : list A) : Outcome (list B) :=
  match l with
  | [] => Returned []
  | x :: rest =>
      bindO (f x) (fun y => bindO (mapO f rest) (fun ys => Returned (y :: ys)))
  end.

#[export] Instance outcome_fmap : FMap Outcome :=
  fun A B f o => bindO o (fun a => Returned (f a)).

Definition optO {A B : Type} (f : A -> Outcome B) (o : option A) : Outcome (option B) :=
  match o with
  | Some a => bindO (f a) (fun b => Returned (Some b))
  | None => Returned None
  end.

(** [JSON.parse(JSON.stringify(v))]; [None] when [JSON.stringify(v)] is
    [undefined].  Properties holding [undefined] are left out, [undefined]
    array elements, NaN and the infinities become [null], dates become
    their ISO string.
    On a BigInt and on an object that reaches itself, at any depth,
    [JSON.stringify] throws a [TypeError] (the message given for a BigInt is
    the one of V8). *)
Fixpoint json_value (v : JsValue) : Outcome (option JsValue) :=
  match v with
  | VUndefined => Returned None
  | VNull => Returned (Some VNull)
  | VBool b => Returned (Some (VBool b))
  | VNum (Num q) => Returned (Some (VNum (Num q)))
  | VNum _ => Returned (Some VNull)
  | VStr s => Returned (Some (VStr s))
  | VDate d =>
      Returned (Some (match toJSON d with
                      | WireString s => VStr s
                      | _ => VNull
                      end))
  | VBigInt _ => Threw (ThrownError "Do not know how to serialize a BigInt")
  | VCircular message => Threw (ThrownError message)
  | VArr items =>
      bindO ((fix elements (l : list JsValue) : Outcome (list JsValue) :=
                match l with
                | [] => Returned []
                | x :: rest =>
                    bindO (json_value x) (fun x' =>
                    bindO (elements rest) (fun rest' =>
                    Returned (default VNull x' :: rest')))
                end) items)
        (fun items' => Returned (Some (VArr items')))
  | VObj fields =>
      bindO ((fix props (l : list (string * JsValue))
                : Outcome (list (string * JsValue)) :=
                match l with
                | [] => Returned []
                | (k, x) :: rest =>
                    bindO (json_value x) (fun x' =>
                    bindO (props rest) (fun rest' =>
                    Returned (match x' with
                              | Some x'' => (k, x'') :: rest'
                              | None => rest'
                              end)))
                end) fields)
        (fun fields' => Returned (Some (VObj fields')))
  end.

(** The properties of an object that survive [JSON.stringify]. *)
Definition json_object (o : JsObject) : Outcome JsObject :=
  bindO (json_value (VObj o)) (fun v =>
    Returned (match v with
              | Some (VObj o') => o'
              | _ => []
              end)).

(** A value that [JSON.stringify] and [JSON.parse] reproduce: no
    [undefined], NaN, infinity, [Date], BigInt or cycle anywhere inside. *)
Fixpoint json_safe (v : JsValue) : bool :=
  match v with
  | VUndefined | VDate _ | VBigInt _ | VCircular _ => false
  | VNum n => match n with Num _ => true | _ => false end
  | VNull | VBool _ | VStr _ => true
  | VArr items => forallb json_safe items
  | VObj fields => forallb (fun kv => json_safe (snd kv)) fields
  end.

(** ** The store of journeys and the stored form of events *)

(** The journeys created so far; a journey object is named by its index. *)
Abbreviation Store := (list Journey.t).

(** The object a [metadata] field refers to. *)
Definition read_metadata (st : Store) (r : MetadataRef) : JsObject :=
  match r with
  | MetadataOf j =>
      match st !! j with
      | Some jn => Journey.metadata jn
      | None => []
      end
  | MetadataValue o => o
  end.

(** An event as the JSON text holds it: dates are strings (or [null], or
    missing), and every free-form value is one that [JSON.parse] can return. *)
Abbreviation StoredEvent := (TelemetryEvent_ WireDate JsObject).

Definition stringify_user (u : User) : Outcome User :=
  bindO (optO json_object (u_data u)) (fun data =>
    Returned {| u_id := u_id u; u_email := u_email u; u_name := u_name u;
                u_data := data |}).

Definition stringify_breadcrumb {D : Type} (date : D -> WireDate)
    (b : Breadcrumb_ D) : Outcome (Breadcrumb_ WireDate) :=
  bindO (optO json_object (b_data b)) (fun data =>
    Returned {| b_timestamp := date (b_timestamp b);
                b_category := b_category b;
                b_message := b_message b;
                b_level := b_level b;
                b_data := data |}).

Definition stringify_journey {D : Type} (date : D -> WireDate) (st : Store)
    (c : JourneyContext_ D MetadataRef) : Outcome (JourneyContext_ WireDate JsObject) :=
  bindO (json_object (read_metadata st (jc_metadata c))) (fun metadata =>
    Returned {| jc_journeyId := jc_journeyId c;
                jc_name := jc_name c;
                jc_currentStep := jc_currentStep c;
                jc_startedAt := date (jc_startedAt c);
                jc_metadata := metadata |}).

(** [JSON.stringify(event)], [date] being what becomes of a date field.  The
    properties are written in the order of the object: the user, the extra
    context, the breadcrumbs and the journey are the ones that hold free-form
    values, on which [JSON.stringify] can throw.  The metadata object is
    read from the store at the time of the call. *)
Definition stringify_event {D : Type} (date : D -> WireDate) (st : Store)
    (e : TelemetryEvent_ D MetadataRef) : Outcome StoredEvent :=
  bindO (optO stringify_user (e_user e)) (fun user =>
  bindO (json_object (e_extra e)) (fun extra =>
  bindO (mapO (stringify_breadcrumb date) (e_breadcrumbs e)) (fun breadcrumbs =>
  bindO (optO (stringify_journey date st) (e_journey e)) (fun journey =>
  Returned
    {| eventId := eventId e;
       e_timestamp := date (e_timestamp e);
       e_level := e_level e;
       e_message := e_message e;
       e_exception := e_exception e;
       e_user := user;
       e_tags := e_tags e;
       e_extra := extra;
       e_breadcrumbs := breadcrumbs;
       e_journey := journey;
       e_environment := e_environment e;
       e_appVersion := e_appVersion e;
       e_platform := e_platform e |})))).

(** ** The network: [fetch] *)

Record Request : Type := mkRequest {
  rq_method : string;
  rq_url : string;
  rq_publicKey : string;
  rq_body : option StoredEvent;
}.

(** A response as the SDK reads it: the status, and what awaiting
    [response.text()] and [response.json()] gives. *)
Record Response : Type := mkResponse {
  status : Z;
  text : Outcome string;
  json : Outcome JsValue;
}.

(** [response.ok]: the status is in the range 200-299. *)
Definition ok (r : Response) : bool :=
  (200 <=? status r)%Z && (status r <=? 299)%Z.

(** The network is the sequence of its answers to the successive calls of
    [fetch], each a function of the request; a rejected promise is [Threw]. *)
Abbreviation Network := (list (Request -> Outcome Response)).

Definition fetch (rq : Request) (net : Network) : Outcome Response * Network :=
  match net with
  | [] => (Threw (ThrownError "Failed to fetch"), [])
  | exchange :: rest => (exchange rq, rest)
  end.

(** [value.eventId]: a [TypeError] on [null] and [undefined], the property
    of an object, [undefined] on the other values. *)
Definition get_eventId (value : JsValue) : Outcome JsValue :=
  match value with
  | VNull => Threw (ThrownError "Cannot read properties of null (reading 'eventId')")
  | VUndefined =>
      Threw (ThrownError "Cannot read properties of undefined (reading 'eventId')")
  | VObj fields => Returned (obj_get "eventId" fields)
  | _ => Returned VUndefined
  end.

(** [a ?? b] *)
Definition nullish (a b : JsValue) : JsValue :=
  match a with
  | VUndefined | VNull => b
  | _ => a
  end.

(** ** transport.ts *)

Module Transport.

Record t : Type := mk {
  apiBaseUrl : string;
  publicKey : string;
  debug : bool;
}.

Definition new (parsedDsn : ParsedDsn) (apiBaseUrl : string) (debug : bool) : t :=
  {| apiBaseUrl := apiBaseUrl; publicKey := d_publicKey parsedDsn; debug := debug |}.

(** [serializeEvent(event)]: the event with its three kinds of dates
    replaced by [toISOString()], which throws on an invalid date. *)
Definition serializeEvent (event : TelemetryEvent)
    : Outcome (TelemetryEvent_ string MetadataRef) :=
  bindO (toISOString (e_timestamp event)) (fun timestamp =>
  bindO (mapO (fun b =>
           bindO (toISOString (b_timestamp b)) (fun ts =>
             Returned {| b_timestamp := ts; b_category := b_category b;
                         b_message := b_message b; b_level := b_level b;
                         b_data := b_data b |}))
           (e_breadcrumbs event)) (fun breadcrumbs =>
  bindO (match e_journey event with
         | Some j =>
             bindO (toISOString (jc_startedAt j)) (fun startedAt =>
               Returned (Some {| jc_journeyId := jc_journeyId j;
                                 jc_name := jc_name j;
                                 jc_currentStep := jc_currentStep j;
                                 jc_startedAt := startedAt;
                                 jc_metadata := jc_metadata j |}))
         | None => Returned None
         end) (fun journey =>
  Returned
    {| eventId := eventId event;
       e_timestamp := timestamp;
       e_level := e_level event;
       e_message := e_message event;
       e_exception := e_exception event;
       e_user := e_user event;
       e_tags := e_tags event;
       e_extra := e_extra event;
       e_breadcrumbs := breadcrumbs;
       e_journey := journey;
       e_environment := e_environment event;
       e_appVersion := e_appVersion event;
       e_platform := e_platform event |}))).

(** The request of [send], [body] being the text that [JSON.stringify]
    made of the serialized event. *)
Definition request (tr : t) (body : StoredEvent) : Request :=
  {| rq_method := "POST";
     rq_url := apiBaseUrl tr +:+ "/api/v1/events";
     rq_publicKey := publicKey tr;
     rq_body := Some body |}.

(** The [try] block of [send].  The argument of [fetch] is evaluated first:
    when [serializeEvent] or [JSON.stringify] throws, [fetch] is not called. *)
Definition send_try (tr : t) (st : Store) (event : TelemetryEvent)
    (net : Network) : Outcome SendResult * Network :=
  match serializeEvent event with
  | Threw err => (Threw err, net)
  | Returned payload =>
      match stringify_event WireString st payload with
      | Threw err => (Threw err, net)
      | Returned body =>
          let '(response, net') := fetch (request tr body) net in
          (bindO response (fun response =>
             if negb (ok response) then
               bindO (text response) (fun errorText =>
                 Returned
                   {| success := false; r_eventId := None;
                      r_error := Some ("HTTP " +:+ pretty (status response)
                                       +:+ ": " +:+ errorText);
                      queued := None |})
             else
               bindO (json response) (fun result =>
               bindO (get_eventId result) (fun serverId =>
                 Returned
                   {| success := true;
                      r_eventId := Some (nullish serverId (VStr (eventId event)));
                      r_error := None; queued := None |}))),
           net')
      end
  end.

(** The [catch] block of [send]:
    [error instanceof Error ? error.message : 'Unknown error']. *)
Definition errorMessage (err : Thrown) : string :=
  match err with
  | ThrownError message => message
  | ThrownOther => "Unknown error"
  end.

(** [send(event)] *)
Definition send (tr : t) (st : Store) (event : TelemetryEvent)
    (net : Network) : Outcome SendResult * Network :=
  let '(attempt, net') := send_try tr st event net in
  (match attempt with
   | Returned result => Returned result
   | Threw err =>
       Returned {| success := false; r_eventId := None;
                   r_error := Some (errorMessage err); queued := None |}
   end, net').

(** [isOnline()] *)
Definition isOnline (tr : t) (net : Network) : Outcome bool * Network :=
  let '(response, net') :=
    fetch {| rq_method := "GET"; rq_url := apiBaseUrl tr +:+ "/api/v1/health";
             rq_publicKey := publicKey tr; rq_body := None |} net in
  (match response with
   | Returned response => Returned (ok response)
   | Threw _ => Returned false
   end, net').

End Transport.

(** ** queue.ts *)

(** What [localStorage.getItem(STORAGE_KEY)] holds: nothing, a text that
    [load] cannot read as an array of events, or the text of such an array. *)
Inductive StorageItem : Type :=
  | NoItem
  | Malformed
  | Items (events : list StoredEvent).

(** The host's [localStorage], when it has one.  [setItem] throws when the
    storage refuses the text (the quota is exceeded, the storage is
    disabled), which is up to the host: [QuotaLocalStorage accepts item] is
    a storage that takes the texts that [accepts] admits and refuses the
    others; [HasLocalStorage item] is a storage with room for every text. *)
Inductive LocalStorage : Type :=
  | NoLocalStorage
  | HasLocalStorage (item : StorageItem)
  | QuotaLocalStorage (accepts : list StoredEvent -> bool) (item : StorageItem).

(** [localStorage.getItem(STORAGE_KEY)] *)
Definition getItem (storage : LocalStorage) : Outcome StorageItem :=
  match storage with
  | NoLocalStorage => Threw (ThrownError "localStorage is not defined")
  | HasLocalStorage item | QuotaLocalStorage _ item => Returned item
  end.

(** [localStorage.setItem(STORAGE_KEY, text)], [events] being what the text
    holds.  A refusal leaves the item as it is (the text of the message is
    the browser's; the library does not read it). *)
Definition setItem (storage : LocalStorage) (events : list StoredEvent)
    : Outcome LocalStorage :=
  match storage with
  | NoLocalStorage => Threw (ThrownError "localStorage is not defined")
  | HasLocalStorage _ => Returned (HasLocalStorage (Items events))
  | QuotaLocalStorage accepts item =>
      if accepts events then Returned (QuotaLocalStorage accepts (Items events))
      else Threw (ThrownError "The quota has been exceeded.")
  end.

Module OfflineQueue.

Record t : Type := mk {
  maxSize : JsNumber;
  debug : bool;
  queue : list TelemetryEvent;
  storage : LocalStorage;
}.

Definition with_queue (q : t) (queue' : list TelemetryEvent) : t :=
  {| maxSize := maxSize q; debug := debug q; queue := queue';
     storage := storage q |}.

(** [deserializeEvent(data)]: the stored object, with its dates read back
    by [new Date].  The objects built by [JSON.parse] are the event's own. *)
Definition deserializeEvent (data : StoredEvent) : TelemetryEvent :=
  {| eventId := eventId data;
     e_timestamp := new_Date (e_timestamp data);
     e_level := e_level data;
     e_message := e_message data;
     e_exception := e_exception data;
     e_user := e_user data;
     e_tags := e_tags data;
     e_extra := e_extra data;
     e_breadcrumbs :=
       (fun b => {| b_timestamp := new_Date (b_timestamp b);
                    b_category := b_category b;
                    b_message := b_message b;
                    b_level := b_level b;
                    b_data := b_data b |}) <$> e_breadcrumbs data;
     e_journey :=
       (fun j => {| jc_journeyId := jc_journeyId j;
                    jc_name := jc_name j;
                    jc_currentStep := jc_currentStep j;
                    jc_startedAt := new_Date (jc_startedAt j);
                    jc_metadata := MetadataValue (jc_metadata j) |}) <$> e_journey data;
     e_environment := e_environment data;
     e_appVersion := e_appVersion data;
     e_platform := e_platform data |}.

(** [load()]: any failure leaves the queue as it is. *)
Definition load (q : t) : t :=
  match storage q with
  | NoLocalStorage => q
  | _ =>
      match getItem (storage q) with
      | Returned (Items events) => with_queue q (deserializeEvent <$> events)
      | _ => q
      end
  end.

(** [save()]: [localStorage.setItem(STORAGE_KEY, JSON.stringify(this.queue))]
    inside a [try]: when [JSON.stringify] or [setItem] throws, the error is
    caught and the stored item stays as it was. *)
Definition save (st : Store) (q : t) : t :=
  match storage q with
  | NoLocalStorage => q
  | _ =>
      match bindO (mapO (stringify_event toJSON st) (queue q)) (setItem (storage q)) with
      | Returned storage' =>
          {| maxSize := maxSize q; debug := debug q; queue := queue q;
             storage := storage' |}
      | Threw _ => q
      end
  end.

(** [new OfflineQueue(maxSize, debug)], in a host whose storage is [storage]. *)
Definition new (maxSize : JsNumber) (debug : bool) (storage : LocalStorage) : t :=
  load {| maxSize := maxSize; debug := debug; queue := []; storage := storage |}.

Definition enqueue (st : Store) (q : t) (event : TelemetryEvent) : t :=
  let q1 :=
    if num_le (maxSize q) (num_of_nat (length (queue q)))
    then with_queue q (js_shift (queue q))
    else q in
  save st (with_queue q1 (js_push (queue q1) event)).

Definition getAll (q : t) : list TelemetryEvent := queue q.

Definition remove (st : Store) (q : t) (eventId' : string) : t :=
  save st (with_queue q
             (List.filter (fun e => negb (String.eqb (eventId e) eventId')) (queue q))).

Definition clear (st : Store) (q : t) : t := save st (with_queue q []).

Definition size (q : t) : nat := length (queue q).

Definition isEmpty (q : t) : bool := Nat.eqb (length (queue q)) 0.

End OfflineQueue.

(** ** client.ts *)

(** The calls that the client makes on its collaborators, in order. *)
Inductive Effect : Type :=
  | CalledBeforeSend (event : TelemetryEvent)
  | CalledSend (event : TelemetryEvent) (result : Outcome SendResult)
  | CalledEnqueue (event : TelemetryEvent)
  | CalledIsOnline (online : Outcome bool)
  | CalledRemove (eventId' : string).

(** The one callback that the client gives to a [JourneyScope]:
    [() => { this.currentJourney = undefined; }] *)
Inductive ScopeCallback : Type := DetachCurrentJourney.

(** [JourneyScope]: the journey it guards, and the optional callback. *)
Record JourneyScope : Type := mkJourneyScope {
  scope_journey : nat;
  onComplete : option ScopeCallback;
}.

(** [Step] and [StepScope]: the step object and its journey. *)
Record StepHandle : Type := mkStepHandle {
  step_journey : nat;
  step_index : nat;
}.

Module TelemetryClient.

Record t : Type := mk {
  options : ResolvedOptions;
  transport : Transport.t;
  queue : option OfflineQueue.t;
  breadcrumbs : BreadcrumbManager.t;
  tags : list (string * string);
  extra : JsObject;
  user : option User;
  currentJourney : option nat;
  journeys : Store;
  flushInterval : bool;
  isInitialized : bool;
}.

(** [new TelemetryClient(options)], the options being resolved. *)
Definition new (options : ResolvedOptions) (storage : LocalStorage) : t :=
  let queue :=
    if enableOfflineQueue options
    then Some (OfflineQueue.new (maxOfflineQueueSize options) (debug options) storage)
    else None in
  {| options := options;
     transport := Transport.new (parsedDsn options) (apiBaseUrl options) (debug options);
     queue := queue;
     breadcrumbs := BreadcrumbManager.new (maxBreadcrumbs options);
     tags := []; extra := []; user := None; currentJourney := None;
     journeys := [];
     flushInterval := bool_decide (is_Some queue);
     isInitialized := true |}.

Definition with_breadcrumbs (c : t) (b : BreadcrumbManager.t) : t :=
  {| options := options c; transport := transport c; queue := queue c;
     breadcrumbs := b; tags := tags c; extra := extra c; user := user c;
     currentJourney := currentJourney c; journeys := journeys c;
     flushInterval := flushInterval c; isInitialized := isInitialized c |}.

Definition with_queue (c : t) (q : option OfflineQueue.t) : t :=
  {| options := options c; transport := transport c; queue := q;
     breadcrumbs := breadcrumbs c; tags := tags c; extra := extra c;
     user := user c; currentJourney := currentJourney c;
     journeys := journeys c;
     flushInterval := flushInterval c; isInitialized := isInitialized c |}.

Definition with_journeys (c : t) (current : option nat) (js : Store) : t :=
  {| options := options c; transport := transport c; queue := queue c;
     breadcrumbs := breadcrumbs c; tags := tags c; extra := extra c;
     user := user c; currentJourney := current; journeys := js;
     flushInterval := flushInterval c; isInitialized := isInitialized c |}.

Definition addBreadcrumb (c : t) (message : string)
    (category : option BreadcrumbCategory) (level : option SeverityLevel)
    (data : option JsObject) (now : Z) : t :=
  with_breadcrumbs c (BreadcrumbManager.add (breadcrumbs c) message category level data now).

Definition addBreadcrumbObject (c : t) (breadcrumb : Breadcrumb_ (option JsDate))
    (now : Z) : t :=
  with_breadcrumbs c (BreadcrumbManager.addBreadcrumb (breadcrumbs c) breadcrumb now).

Definition setUser (c : t) (uid : string) (email : option string)
    (data : option JsObject) : t :=
  {| options := options c; transport := transport c; queue := queue c;
     breadcrumbs := breadcrumbs c; tags := tags c; extra := extra c;
     user := Some {| u_id := uid; u_email := email; u_name := None; u_data := data |};
     currentJourney := currentJourney c; journeys := journeys c;
     flushInterval := flushInterval c; isInitialized := isInitialized c |}.

Definition clearUser (c : t) : t :=
  {| options := options c; transport := transport c; queue := queue c;
     breadcrumbs := breadcrumbs c; tags := tags c; extra := extra c;
     user := None;
     currentJourney := currentJourney c; journeys := journeys c;
     flushInterval := flushInterval c; isInitialized := isInitialized c |}.





(** [startJourney(name)]: the new journey becomes the current one, whatever
    the current one was. *)
Definition startJourney (c : t) (name : string) (id : string) (now : Z)
    : t * JourneyScope :=
  let j := Journey.new name id now in
  let j :=
    match user c with
    | Some u => Journey.setUser j (u_id u) (u_email u) (u_data u)
    | None => j
    end in
  let self := length (journeys c) in
  (with_journeys c (Some self) (js_push (journeys c) j),
   {| scope_journey := self; onComplete := Some DetachCurrentJourney |}).

(** [startStep(name, category?)]: throws when there is no current journey. *)
Definition startStep (c : t) (name : string) (category : option string)
    (now_end now_start : Z) : Outcome (t * StepHandle) :=
  match currentJourney c with
  | None => Threw (ThrownError "No active journey. Call startJourney() first.")
  | Some self =>
      match journeys c !! self with
      | None => Threw ThrownOther
      | Some j =>
          let '(j', i) := Journey.startStep j name category now_end now_start in
          Returned (with_journeys c (currentJourney c) (<[self := j']> (journeys c)),
                    {| step_journey := self; step_index := i |})
      end
  end.

(** A call on a journey object, through any reference to it. *)
Definition onJourney (c : t) (self : nat) (f : Journey.t -> Journey.t) : t :=
  with_journeys c (currentJourney c) (alter f self (journeys c)).

(** [scope[Symbol.dispose]()] for a [JourneyScope]. *)
Definition disposeJourneyScope (c : t) (scope : JourneyScope) (now : Z) : t :=
  let c1 :=
    onJourney c (scope_journey scope)
      (fun j => if Journey.isComplete j then j else Journey.complete j now) in
  match onComplete scope with
  | Some DetachCurrentJourney => with_journeys c1 None (journeys c1)
  | None => c1
  end.

(** [createEvent(level, message?, exception?)]; the generated id, the
    clock and the platform description are given. *)
Definition createEvent (c : t) (level : SeverityLevel) (message : option string)
    (exception : option ExceptionInfo) (id : string) (now : Z)
    (platform : PlatformInfo) : TelemetryEvent :=
  let current := self ← currentJourney c; j ← journeys c !! self; Some (self, j) in
  {| eventId := id;
     e_timestamp := ValidDate now;
     e_level := level;
     e_message := message;
     e_exception := exception;
     e_user :=
       match current ≫= (fun '(_, j) => Journey.getUser j) with
       | Some u => Some u
       | None => user c
       end;
     e_tags := tags c;
     e_extra := extra c;
     e_breadcrumbs := BreadcrumbManager.getAll (breadcrumbs c);
     e_journey := (fun '(self, j) => Journey.getContext self j) <$> current;
     e_environment := Some (environment (options c));
     e_appVersion := Some (appVersion (options c));
     e_platform := platform |}.

(** [Math.random() > this.options.sampleRate], [draw] being the value of
    [Math.random()]. *)
Definition sampled_out (draw : Q) (rate : JsNumber) : bool := num_lt rate (Num draw).

(** [sendEvent(event)], [draw] being the value of [Math.random()].  The
    result is what the promise settles to, the client afterwards, the rest
    of the network and the calls made. *)
Definition sendEvent (c : t) (draw : Q) (event : TelemetryEvent) (net : Network)
    : Outcome SendResult * t * Network * list Effect :=
  if sampled_out draw (sampleRate (options c)) then
    (Returned {| success := true; r_eventId := Some (VStr (eventId event));
                 r_error := None; queued := None |}, c, net, [])
  else
    match beforeSend (options c) event with
    | Threw err => (Threw err, c, net, [CalledBeforeSend event])
    | Returned (HookBool false) =>
        (Returned {| success := true; r_eventId := Some (VStr (eventId event));
                     r_error := None; queued := None |},
         c, net, [CalledBeforeSend event])
    | Returned beforeSendResult =>
        let eventToSend :=
          match beforeSendResult with
          | HookEvent e => e
          | HookBool _ => event
          end in
        let '(sent, net') := Transport.send (transport c) (journeys c) eventToSend net in
        match sent with
        | Threw err =>
            (Threw err, c, net',
             [CalledBeforeSend event; CalledSend eventToSend sent])
        | Returned result =>
            match queue c with
            | Some q =>
                if negb (success result) then
                  (Returned {| success := success result;
                               r_eventId := r_eventId result;
                               r_error := r_error result;
                               queued := Some true |},
                   with_queue c (Some (OfflineQueue.enqueue (journeys c) q eventToSend)),
                   net',
                   [CalledBeforeSend event; CalledSend eventToSend sent;
                    CalledEnqueue eventToSend])
                else
                  (Returned result, c, net',
                   [CalledBeforeSend event; CalledSend eventToSend sent])
            | None =>
                (Returned result, c, net',
                 [CalledBeforeSend event; CalledSend eventToSend sent])
            end
        end
    end.

(** [{ ...a, ...b }]: every own property is copied, ["__proto__"] included. *)
Definition obj_spread (a b : JsObject) : JsObject :=
  foldl (fun o kv => obj_define (fst kv) (snd kv) o) a b.

(** [captureException(error, extra?)], [exception] being what
    [parseException(error)] returns. *)
Definition captureException (c : t) (exception : ExceptionInfo)
    (extra' : option JsObject) (id : string) (now : Z) (platform : PlatformInfo)
    (draw : Q) (net : Network) : Outcome SendResult * t * Network * list Effect :=
  let event :=
    createEvent c Severity.error (Some (x_message exception)) (Some exception)
      id now platform in
  let event :=
    match extra' with
    | Some x =>
        {| eventId := eventId event; e_timestamp := e_timestamp event;
           e_level := e_level event; e_message := e_message event;
           e_exception := e_exception event; e_user := e_user event;
           e_tags := e_tags event; e_extra := obj_spread (e_extra event) x;
           e_breadcrumbs := e_breadcrumbs event; e_journey := e_journey event;
           e_environment := e_environment event;
           e_appVersion := e_appVersion event; e_platform := e_platform event |}
    | None => event
    end in
  sendEvent c draw event net.

(** [captureMessage(message, level = 'info')] *)
Definition captureMessage (c : t) (message : string) (level : option SeverityLevel)
    (id : string) (now : Z) (platform : PlatformInfo)
    (draw : Q) (net : Network) : Outcome SendResult * t * Network * list Effect :=
  sendEvent c draw
    (createEvent c (default Severity.info level) (Some message) None id now platform)
    net.

(** The [for] loop of [processQueue] over the snapshot [events]. *)
Fixpoint drain (tr : Transport.t) (st : Store) (events : list TelemetryEvent)
    (q : OfflineQueue.t) (net : Network)
    : Outcome unit * OfflineQueue.t * Network * list Effect :=
  match events with
  | [] => (Returned tt, q, net, [])
  | event :: rest =>
      let '(sent, net') := Transport.send tr st event net in
      match sent with
      | Threw err => (Threw err, q, net', [CalledSend event sent])
      | Returned result =>
          if success result then
            let '(o, q', net'', log) :=
              drain tr st rest (OfflineQueue.remove st q (eventId event)) net' in
            (o, q', net'', CalledSend event sent :: CalledRemove (eventId event) :: log)
          else
            let '(o, q', net'', log) := drain tr st rest q net' in
            (o, q', net'', CalledSend event sent :: log)
      end
  end.

(** [processQueue()] *)
Definition processQueue (c : t) (net : Network)
    : Outcome unit * t * Network * list Effect :=
  match queue c with
  | None => (Returned tt, c, net, [])
  | Some q =>
      if OfflineQueue.isEmpty q then (Returned tt, c, net, [])
      else
        let '(online, net1) := Transport.isOnline (transport c) net in
        match online with
        | Threw err => (Threw err, c, net1, [CalledIsOnline online])
        | Returned false => (Returned tt, c, net1, [CalledIsOnline online])
        | Returned true =>
            let events := OfflineQueue.getAll q in
            let '(o, q', net2, log) :=
              drain (transport c) (journeys c) events q net1 in
            (o, with_queue c (Some q'), net2, CalledIsOnline online :: log)
        end
  end.

(** [flush()] *)
Definition flush (c : t) (net : Network) : Outcome unit * t * Network * list Effect :=
  processQueue c net.

(** [close()] *)
Definition close (c : t) : t :=
  {| options := options c; transport := transport c; queue := queue c;
     breadcrumbs := breadcrumbs c; tags := tags c; extra := extra c;
     user := user c; currentJourney := currentJourney c;
     journeys := journeys c;
     flushInterval := false; isInitialized := isInitialized c |}.

End TelemetryClient.

(** ** Sequences of calls *)

(** The two ways of adding a breadcrumb. *)
Inductive BreadcrumbCall : Type :=
  | CallAdd (message : string) (category : option BreadcrumbCategory)
      (level : option SeverityLevel) (data : option JsObject) (now : Z)
  | CallAddBreadcrumb (breadcrumb : Breadcrumb_ (option JsDate)) (now : Z).

Definition breadcrumb_call (m : BreadcrumbManager.t) (c : BreadcrumbCall)
    : BreadcrumbManager.t :=
  match c with
  | CallAdd message category level data now =>
      BreadcrumbManager.add m message category level data now
  | CallAddBreadcrumb breadcrumb now =>
      BreadcrumbManager.addBreadcrumb m breadcrumb now
  end.

Definition breadcrumb_calls (m : BreadcrumbManager.t) (cs : list BreadcrumbCall)
    : BreadcrumbManager.t :=
  foldl breadcrumb_call m cs.

(** The breadcrumb that a call builds and pushes. *)
Definition breadcrumb_of_call (c : BreadcrumbCall) : Breadcrumb :=
  match c with
  | CallAdd message category level data now =>
      {| b_timestamp := ValidDate now;
         b_category := default custom category;
         b_message := message;
         b_level := Some (default Severity.info level);
         b_data := data |}
  | CallAddBreadcrumb breadcrumb now =>
      {| b_timestamp := default (ValidDate now) (b_timestamp breadcrumb);
         b_category := b_category breadcrumb;
         b_message := b_message breadcrumb;
         b_level := b_level breadcrumb;
         b_data := b_data breadcrumb |}
  end.

(** The [n] last elements of a list, in order. *)
Definition last_n {A : Type} (n : nat) (l : list A) : list A :=
  drop (length l - n) l.

(** The invariant behind the single active step: a step that is in
    progress is the current step. *)
Definition only_current_in_progress (j : Journey.t) : Prop :=
  forall i s,
    Journey.steps j !! i = Some s -> is_in_progress s = true ->
    Journey.currentStep j = Some i.

Definition none_in_progress (j : Journey.t) : Prop :=
  forall i s, Journey.steps j !! i = Some s -> is_in_progress s = false.

(** Successive calls of [enqueue]. *)
Definition enqueue_all (st : Store) (q : OfflineQueue.t) (events : list TelemetryEvent)
    : OfflineQueue.t :=
  foldl (OfflineQueue.enqueue st) q events.

(** An event, a transport and a platform description to run the code on. *)
Definition sample_platform : PlatformInfo :=
  {| p_name := "node"; p_version := Some "20.0.0"; p_os := Some "linux";
     p_userAgent := None |}.

Definition sample_event (id : string) : TelemetryEvent :=
  {| eventId := id;
     e_timestamp := ValidDate 1700000000000;
     e_level := Severity.error;
     e_message := Some "boom";
     e_exception := None;
     e_user := None;
     e_tags := [];
     e_extra := [];
     e_breadcrumbs := [];
     e_journey := None;
     e_environment := Some "production";
     e_appVersion := Some "0.0.0";
     e_platform := sample_platform |}.

Definition sample_transport : Transport.t :=
  {| Transport.apiBaseUrl := "https://irontelemetry.com";
     Transport.publicKey := "pk_live_xxx";
     Transport.debug := false |}.

(** A response with a 2xx status and no body: [response.json()] rejects. *)
Definition response_no_content : Response :=
  {| status := 204; text := Returned "";
     json := Threw (ThrownError "Unexpected end of JSON input") |}.

(** A response with status 200 and the body [{"eventId": id}]. *)
Definition response_accepted (id : string) : Response :=
  {| status := 200; text := Returned "";
     json := Returned (VObj [("eventId", VStr id)]) |}.

(** A response with status 500. *)
Definition response_server_error : Response :=
  {| status := 500; text := Returned "Internal Server Error";
     json := Threw (ThrownError "Unexpected token I in JSON") |}.

(** The successive attempts of a drain: each event of the snapshot with the
    result of sending it, the network moving on by one answer each time. *)
Fixpoint attempts (tr : Transport.t) (st : Store) (events : list TelemetryEvent)
    (net : Network) : list (TelemetryEvent * Outcome SendResult) :=
  match events with
  | [] => []
  | event :: rest =>
      let '(sent, net') := Transport.send tr st event net in
      (event, sent) :: attempts tr st rest net'
  end.

(** The network after these attempts. *)
Fixpoint network_after (tr : Transport.t) (st : Store) (events : list TelemetryEvent)
    (net : Network) : Network :=
  match events with
  | [] => net
  | event :: rest => network_after tr st rest (Transport.send tr st event net).2
  end.

Definition succeeded (sent : Outcome SendResult) : bool :=
  match sent with
  | Returned result => success result
  | Threw _ => false
  end.

(** The calls of a drain that makes the attempts [ps]: every event is sent,
    and removed at once when the send succeeded. *)
Definition drain_log (ps : list (TelemetryEvent * Outcome SendResult)) : list Effect :=
  flat_map (fun p =>
              if succeeded p.2
              then [CalledSend p.1 p.2; CalledRemove (eventId p.1)]
              else [CalledSend p.1 p.2]) ps.

(** The ids of the events whose attempt succeeded. *)
Definition removed_ids (ps : list (TelemetryEvent * Outcome SendResult)) : list string :=
  (fun p => eventId p.1) <$> List.filter (fun p => succeeded p.2) ps.

Definition has_id (ids : list string) (e : TelemetryEvent) : bool :=
  existsb (String.eqb (eventId e)) ids.

(** The events sent by a sequence of calls, in order. *)
Definition sent_events (log : list Effect) : list TelemetryEvent :=
  omap (fun c => match c with CalledSend e _ => Some e | _ => None end) log.

Definition sample_dsn : ParsedDsn :=
  {| d_publicKey := "pk_live_xxx"; d_host := "irontelemetry.com";
     d_protocol := "https"; d_apiBaseUrl := "https://irontelemetry.com" |}.

(** Resolved options with the given sample rate, hook and queue capacity. *)
Definition sample_options (rate : Q)
    (hook : TelemetryEvent -> Outcome BeforeSendResult) (capacity : Z)
    : ResolvedOptions :=
  {| dsn := "https://pk_live_xxx@irontelemetry.com";
     environment := "production";
     appVersion := "0.0.0";
     sampleRate := Num rate;
     maxBreadcrumbs := Num 100;
     debug := false;
     beforeSend := hook;
     enableOfflineQueue := true;
     maxOfflineQueueSize := Num (inject_Z capacity);
     apiBaseUrl := "https://irontelemetry.com";
     parsedDsn := sample_dsn |}.

(** The default hook: [() => true]. *)
Definition default_beforeSend : TelemetryEvent -> Outcome BeforeSendResult :=
  fun _ => Returned (HookBool true).

(** A client in a host with an empty storage. *)
Definition sample_client (rate : Q)
    (hook : TelemetryEvent -> Outcome BeforeSendResult) (capacity : Z)
    : TelemetryClient.t :=
  TelemetryClient.new (sample_options rate hook capacity) (HasLocalStorage NoItem).

(** The same client after the events have been enqueued. *)
Definition sample_client_with_queue (capacity : Z) (events : list TelemetryEvent)
    : TelemetryClient.t :=
  let c := sample_client 1 default_beforeSend capacity in
  TelemetryClient.with_queue c
    ((fun q => enqueue_all [] q events) <$> TelemetryClient.queue c).

(** The log, the client and the queue of the result of a client operation. *)
Definition log_of {A : Type} (r : Outcome A * TelemetryClient.t * Network * list Effect)
    : list Effect := r.2.

Definition client_of {A : Type} (r : Outcome A * TelemetryClient.t * Network * list Effect)
    : TelemetryClient.t := r.1.1.2.

Definition queued_events (c : TelemetryClient.t) : list TelemetryEvent :=
  match TelemetryClient.queue c with
  | Some q => OfflineQueue.queue q
  | None => []
  end.

(** A second event with the same id as [sample_event id]. *)
Definition duplicate_event (id : string) : TelemetryEvent :=
  {| eventId := id;
     e_timestamp := ValidDate 1700000000500;
     e_level := Severity.warning;
     e_message := Some "again";
     e_exception := None;
     e_user := None;
     e_tags := [];
     e_extra := [];
     e_breadcrumbs := [];
     e_journey := None;
     e_environment := Some "production";
     e_appVersion := Some "0.0.0";
     e_platform := sample_platform |}.

(** The metadata that an event shows when it is read, the journeys being
    in the state [st]. *)
Definition event_metadata (st : Store) (event : TelemetryEvent) : option JsObject :=
  (fun j => read_metadata st (jc_metadata j)) <$> e_journey event.





(** What [load] makes of what [save] wrote for an event, when
    [JSON.stringify] could write it. *)
Definition reload (st : Store) (e : TelemetryEvent) : Outcome TelemetryEvent :=
  bindO (stringify_event toJSON st e) (fun stored =>
    Returned (OfflineQueue.deserializeEvent stored)).

(** What [JSON.stringify] and [JSON.parse] make of the elements of an
    array and of the properties of an object. *)
Fixpoint json_elements (l : list JsValue) : Outcome (list JsValue) :=
  match l with
  | [] => Returned []
  | x :: rest =>
      bindO (json_value x) (fun x' =>
      bindO (json_elements rest) (fun rest' =>
      Returned (default VNull x' :: rest')))
  end.

Fixpoint json_props (l : JsObject) : Outcome JsObject :=
  match l with
  | [] => Returned []
  | (k, x) :: rest =>
      bindO (json_value x) (fun x' =>
      bindO (json_props rest) (fun rest' =>
      Returned (match x' with
                | Some x'' => (k, x'') :: rest'
                | None => rest'
                end)))
  end.

(** What [deserializeEvent] makes of a stored breadcrumb and of a stored
    journey context. *)
Definition revive_breadcrumb (b : Breadcrumb_ WireDate) : Breadcrumb :=
  {| b_timestamp := new_Date (b_timestamp b);
     b_category := b_category b;
     b_message := b_message b;
     b_level := b_level b;
     b_data := b_data b |}.

Definition revive_journey (j : JourneyContext_ WireDate JsObject) : JourneyContext :=
  {| jc_journeyId := jc_journeyId j;
     jc_name := jc_name j;
     jc_currentStep := jc_currentStep j;
     jc_startedAt := new_Date (jc_startedAt j);
     jc_metadata := MetadataValue (jc_metadata j) |}.



(** The expression returns. *)
Definition returns {A : Type} (o : Outcome A) : bool :=
  match o with
  | Returned _ => true
  | Threw _ => false
  end.

(** The stored form of [sample_event id]. *)
Definition stored_sample_event (id : string) : StoredEvent :=
  {| eventId := id;
     e_timestamp := WireString "2023-11-14T22:13:20.000Z";
     e_level := Severity.error;
     e_message := Some "boom";
     e_exception := None;
     e_user := None;
     e_tags := [];
     e_extra := [];
     e_breadcrumbs := [];
     e_journey := None;
     e_environment := Some "production";
     e_appVersion := Some "0.0.0";
     e_platform := sample_platform |}.

(** An event whose extra context holds a BigInt. *)
Definition event_with_bigint (id : string) : TelemetryEvent :=
  {| eventId := id;
     e_timestamp := ValidDate 1700000000000;
     e_level := Severity.error;
     e_message := Some "boom";
     e_exception := None;
     e_user := None;
     e_tags := [];
     e_extra := [("total", VBigInt 10)];
     e_breadcrumbs := [];
     e_journey := None;
     e_environment := Some "production";
     e_appVersion := Some "0.0.0";
     e_platform := sample_platform |}.

(** What a storage holds and whether it takes a text. *)
Definition storage_item (storage : LocalStorage) : option StorageItem :=
  match storage with
  | NoLocalStorage => None
  | HasLocalStorage item | QuotaLocalStorage _ item => Some item
  end.

Definition storage_accepts (storage : LocalStorage) (events : list StoredEvent) : bool :=
  match storage with
  | NoLocalStorage => false
  | HasLocalStorage _ => true
  | QuotaLocalStorage accepts _ => accepts events
  end.

(** An event with one breadcrumb. *)
Definition event_with_breadcrumb (b : Breadcrumb) : TelemetryEvent :=
  {| eventId := "e-1";
     e_timestamp := ValidDate 1700000000000;
     e_level := Severity.error;
     e_message := Some "boom";
     e_exception := None;
     e_user := None;
     e_tags := [];
     e_extra := [];
     e_breadcrumbs := [b];
     e_journey := None;
     e_environment := Some "production";
     e_appVersion := Some "0.0.0";
     e_platform := sample_platform |}.

(** A breadcrumb whose data hold a [Date]. *)
Definition breadcrumb_with_date : Breadcrumb :=
  {| b_timestamp := ValidDate 1700000000000; b_category := http;
     b_message := "GET /cart"; b_level := Some Severity.info;
     b_data := Some [("at", VDate (ValidDate 0))] |}.

(** A breadcrumb given with an invalid date as its timestamp. *)
Definition breadcrumb_invalid_date : Breadcrumb :=
  {| b_timestamp := InvalidDate; b_category := ui;
     b_message := "click"; b_level := None; b_data := None |}.


(** The names given to the successive [startStep] calls of a sequence. *)
Definition started_steps (cs : list JourneyCall) : list string :=
  omap (fun c => match c with
                 | CallStartStep name _ _ _ => Some name
                 | _ => None
                 end) cs.

(** The current step is the step pushed last, if any step was pushed. *)
Definition current_is_last (j : Journey.t) : Prop :=
  Journey.currentStep j =
    match Journey.steps j with
    | [] => None
    | _ :: _ => Some (length (Journey.steps j) - 1)
    end.

(** The messages of the breadcrumbs of a buffer, oldest first. *)
Definition breadcrumb_messages (m : BreadcrumbManager.t) : list string :=
  b_message <$> BreadcrumbManager.getAll m.

(** What can become of a step object: its name, category and start are
    kept, and once it has ended it is not in progress again. *)
Definition step_evolves (s s' : JourneyStep) : Prop :=
  s_name s' = s_name s /\ s_category s' = s_category s /\
  s_startedAt s' = s_startedAt s /\
  (s_status s <> in_progress -> s_status s' <> in_progress).

(** [key in obj] *)
Definition obj_has (key : string) (o : JsObject) : bool :=
  existsb (fun kv => String.eqb kv.1 key) o.


(** The number is finite and equal to [q]. *)
Definition num_is (n : JsNumber) (q : Q) : Prop :=
  match n with
  | Num r => (r == q)%Q
  | _ => False
  end.

(** The outcome and the network of the result of a client operation. *)
Definition outcome_of {A : Type} (r : Outcome A * TelemetryClient.t * Network * list Effect)
    : Outcome A := r.1.1.1.

Definition network_of {A : Type} (r : Outcome A * TelemetryClient.t * Network * list Effect)
    : Network := r.1.2.

(** A hook that throws. *)
Definition throwing_beforeSend : TelemetryEvent -> Outcome BeforeSendResult :=
  fun _ => Threw (ThrownError "bad hook").

(** The calls that change an offline queue. *)
Inductive QueueCall : Type :=
  | QEnqueue (event : TelemetryEvent)
  | QRemove (eventId' : string)
  | QClear.

Definition queue_call (st : Store) (q : OfflineQueue.t) (c : QueueCall) : OfflineQueue.t :=
  match c with
  | QEnqueue event => OfflineQueue.enqueue st q event
  | QRemove eventId' => OfflineQueue.remove st q eventId'
  | QClear => OfflineQueue.clear st q
  end.

Definition queue_calls (st : Store) (q : OfflineQueue.t) (cs : list QueueCall)
    : OfflineQueue.t :=
  foldl (queue_call st) q cs.

(** A date that is not the invalid date. *)
Definition date_valid (d : JsDate) : bool :=
  match d with
  | ValidDate _ => true
  | InvalidDate => false
  end.

(** The three kinds of dates of an event are valid. *)
Definition event_dates_valid (e : TelemetryEvent) : bool :=
  date_valid (e_timestamp e) &&
  forallb (fun b => date_valid (b_timestamp b)) (e_breadcrumbs e) &&
  match e_journey e with
  | Some j => date_valid (jc_startedAt j)
  | None => true
  end.

(** An event that [send] can post: [serializeEvent] and [JSON.stringify]
    return on it, the journeys being in the state [st]. *)
Definition sendable (st : Store) (e : TelemetryEvent) : bool :=
  event_dates_valid e && returns (stringify_event toJSON st e).

(** They are valid and within the range of [Date]. *)
Definition event_dates_in_range (e : TelemetryEvent) : bool :=
  date_in_range (e_timestamp e) &&
  forallb (fun b => date_in_range (b_timestamp b)) (e_breadcrumbs e) &&
  match e_journey e with
  | Some j => date_in_range (jc_startedAt j)
  | None => true
  end.

(** An event with an invalid date for a timestamp. *)
Definition event_invalid_date : TelemetryEvent :=
  event_with_breadcrumb breadcrumb_invalid_date.

(** ** config.ts: the DSN *)

(** The parts of a [URL] object that [parseDsn] reads. *)
Record Url : Type := mkUrl {
  url_username : string;
  url_protocol : string;
  url_host : string;
}.

(** [s.replace(c, '')] for a one-character pattern: the first occurrence is
    taken out. *)
Fixpoint remove_first (c : ascii) (s : string) : string :=
  match s with
  | EmptyString => EmptyString
  | String a rest => if Ascii.eqb a c then rest else String a (remove_first c rest)
  end.

(** [s.includes(needle)] *)
Definition includes (needle s : string) : bool :=
  match String.index 0 needle s with
  | Some _ => true
  | None => false
  end.

(** [parseDsn(dsn)]; [newURL] is the constructor [new URL(...)] of the host,
    which returns the parts of the URL or throws. *)
Definition parseDsn (newURL : string -> Outcome Url) (dsn : string) : Outcome ParsedDsn :=
  let attempt :=
    bindO (newURL dsn) (fun url =>
      let publicKey := url_username url in
      if String.eqb publicKey "" || negb (String.prefix "pk_" publicKey) then
        Threw (ThrownError "DSN must contain a valid public key starting with pk_")
      else
        let protocol := remove_first ":" (url_protocol url) in
        let host := url_host url in
        Returned {| d_publicKey := publicKey; d_host := host; d_protocol := protocol;
                    d_apiBaseUrl := protocol +:+ "://" +:+ host |}) in
  match attempt with
  | Returned parsed => Returned parsed
  | Threw (ThrownError message) =>
      if includes "pk_" message then Threw (ThrownError message)
      else Threw (ThrownError ("Invalid DSN format: " +:+ dsn))
  | Threw ThrownOther => Threw (ThrownError ("Invalid DSN format: " +:+ dsn))
  end.

(** A host whose [URL] constructor reads the DSN of the documentation and
    throws on anything else. *)
Definition sample_newURL (dsn : string) : Outcome Url :=
  if String.eqb dsn "https://pk_live_xxx@irontelemetry.com" then
    Returned {| url_username := "pk_live_xxx"; url_protocol := "https:";
                url_host := "irontelemetry.com" |}
  else if String.eqb dsn "https://irontelemetry.com" then
    Returned {| url_username := ""; url_protocol := "https:";
                url_host := "irontelemetry.com" |}
  else Threw (ThrownError "Invalid URL").

(** Options that give the DSN only. *)
Definition options_of_dsn (dsn : string) : TelemetryOptions :=
  {| o_dsn := dsn; o_environment := None; o_appVersion := None;
     o_sampleRate := None; o_maxBreadcrumbs := None; o_debug := None;
     o_beforeSend := None; o_enableOfflineQueue := None;
     o_maxOfflineQueueSize := None; o_apiBaseUrl := None |}.

(** Options that give the DSN and a sample rate. *)
Definition options_with_rate (dsn : string) (rate : JsNumber) : TelemetryOptions :=
  {| o_dsn := dsn; o_environment := None; o_appVersion := None;
     o_sampleRate := Some rate; o_maxBreadcrumbs := None; o_debug := None;
     o_beforeSend := None; o_enableOfflineQueue := None;
     o_maxOfflineQueueSize := None; o_apiBaseUrl := None |}.

(** * Properties *)

(** ** Numbers *)

Section Numbers.

Lemma Qtruncate_opp (q : Q) : (0 <= q)%Q -> Qtruncate (- q) = (- Qfloor q)%Z.
Proof.
  destruct q as [n d]. unfold Qle, Qtruncate, Qfloor. simpl. intros H.
  rewrite Z.quot_opp_l by lia. rewrite Z.quot_div_nonneg by lia. reflexivity.
Qed.

Lemma Qtruncate_floor (q : Q) : (0 <= q)%Q -> Qtruncate q = Qfloor q.
Proof.
  destruct q as [n d]. unfold Qle, Qtruncate, Qfloor. simpl. intros H.
  apply Z.quot_div_nonneg; lia.
Qed.

(** A number strictly between -1 and 1 has the integer part 0. *)
Lemma Qtruncate_small (q : Q) : (- (1) < q)%Q -> (q < 1)%Q -> Qtruncate q = 0%Z.
Proof.
  destruct q as [n d]. unfold Qlt, Qtruncate. simpl. intros Hlow Hhigh.
  destruct (Z.le_gt_cases 0 n) as [Hn|Hn]; [apply Z.quot_small; lia|].
  rewrite <- (Z.opp_involutive n), Z.quot_opp_l by lia.
  rewrite Z.quot_small by lia. reflexivity.
Qed.

Lemma Qlt_inject_floor (q : Q) (n : Z) : (q < inject_Z n)%Q <-> (Qfloor q < n)%Z.
Proof.
  split.
  - intros H. rewrite Zlt_Qlt. eapply Qle_lt_trans; [apply Qfloor_le|exact H].
  - intros H. eapply Qlt_le_trans; [apply Qlt_floor|]. rewrite <- Zle_Qle. lia.
Qed.

Lemma Qle_inject_ceiling (q : Q) (n : Z) : (q <= inject_Z n)%Q <-> (Qceiling q <= n)%Z.
Proof.
  split.
  - intros H. destruct (Z.le_gt_cases (Qceiling q) n) as [|Hgt]; [assumption|exfalso].
    assert (inject_Z n <= inject_Z (Qceiling q - 1))%Q as Hle by (rewrite <- Zle_Qle; lia).
    pose proof (Qceiling_lt q) as Hlt.
    apply (Qlt_irrefl q). eapply Qle_lt_trans; [exact H|].
    eapply Qle_lt_trans; [exact Hle|exact Hlt].
  - intros H. eapply Qle_trans; [apply Qle_ceiling|]. rewrite <- Zle_Qle. exact H.
Qed.

Lemma Qle_inject_floor (q : Q) (n : Z) : (inject_Z n <= q)%Q <-> (n <= Qfloor q)%Z.
Proof.
  split.
  - intros H. destruct (Z.le_gt_cases n (Qfloor q)) as [|Hgt]; [assumption|exfalso].
    apply Qlt_inject_floor in Hgt. exact (Qlt_not_le _ _ Hgt H).
  - intros H. eapply Qle_trans; [|apply Qfloor_le]. rewrite <- Zle_Qle. exact H.
Qed.

(** [length > q] and [length >= q] for a finite [q]. *)
Lemma num_lt_length (q : Q) (n : nat) :
  num_lt (Num q) (num_of_nat n) = (Qfloor q <? Z.of_nat n)%Z.
Proof.
  unfold num_lt, num_of_nat.
  destruct (Z.ltb_spec (Qfloor q) (Z.of_nat n)) as [Hlt|Hge].
  - apply Qlt_inject_floor in Hlt. apply negb_true_iff, not_true_iff_false.
    intros Hle%Qle_bool_iff. exact (Qlt_not_le _ _ Hlt Hle).
  - apply negb_false_iff, Qle_bool_iff, Qle_inject_floor, Hge.
Qed.

Lemma num_le_length (q : Q) (n : nat) :
  num_le (Num q) (num_of_nat n) = (Qceiling q <=? Z.of_nat n)%Z.
Proof.
  unfold num_le, num_of_nat.
  destruct (Z.leb_spec (Qceiling q) (Z.of_nat n)) as [Hle|Hgt].
  - apply Qle_bool_iff, Qle_inject_ceiling, Hle.
  - apply not_true_iff_false. intros H%Qle_bool_iff%Qle_inject_ceiling. lia.
Qed.

Lemma Qfloor_one (q : Q) : (1 <= q)%Q -> (1 <= Qfloor q)%Z.
Proof. intros H. apply (Qle_inject_floor q 1), H. Qed.

Lemma Qceiling_positive (q : Q) : (0 < q)%Q -> (1 <= Qceiling q)%Z.
Proof.
  intros H. destruct (Z.le_gt_cases 1 (Qceiling q)) as [|Hlt]; [assumption|exfalso].
  assert (Qceiling q <= 0)%Z as Hle by lia.
  apply (Qle_inject_ceiling q 0) in Hle. exact (Qlt_not_le _ _ H Hle).
Qed.

End Numbers.

(** ** Arrays *)

Section Arrays.
Context {A : Type}.
Implicit Types l : list A.

Lemma js_slice_neg (n : Z) l :
  (0 < n)%Z -> js_slice (- n) l = last_n (Z.to_nat n) l.
Proof.
  intros Hn. unfold js_slice, last_n.
  destruct (Z.ltb_spec (- n) 0) as [_|]; [|lia].
  f_equal. lia.
Qed.

(** [slice(-0)] is [slice(0)]: the whole array. *)
Lemma js_slice_zero l : js_slice (- 0) l = l.
Proof. unfold js_slice. simpl. rewrite Z.min_l by lia. reflexivity. Qed.

Lemma last_n_length (n : nat) l : length (last_n n l) = Nat.min n (length l).
Proof. unfold last_n. rewrite length_drop. lia. Qed.

Lemma last_n_all (n : nat) l : length l <= n -> last_n n l = l.
Proof.
  intros H. unfold last_n. replace (length l - n) with 0 by lia. reflexivity.
Qed.

Lemma last_n_snoc (n : nat) l (x : A) :
  0 < n -> last_n n (last_n n l ++ [x]) = last_n n (l ++ [x]).
Proof.
  intros Hn. unfold last_n.
  rewrite !length_app, length_drop. simpl.
  destruct (Nat.le_gt_cases (length l) n) as [Hle|Hgt].
  - replace (length l - n) with 0 by lia. rewrite drop_0.
    f_equal. lia.
  - replace (length l - (length l - n) + 1 - n) with 1 by lia.
    rewrite !drop_app_le by (rewrite ?length_drop; lia).
    rewrite drop_drop. do 2 f_equal. lia.
Qed.

Lemma last_n_zero l : last_n 0 l = [].
Proof. unfold last_n. rewrite Nat.sub_0_r. apply drop_all. Qed.

End Arrays.

(** ** breadcrumbs.ts *)

Section Breadcrumbs.

Lemma breadcrumb_call_trim m c :
  breadcrumb_call m c =
  {| BreadcrumbManager.maxBreadcrumbs := BreadcrumbManager.maxBreadcrumbs m;
     BreadcrumbManager.breadcrumbs :=
       BreadcrumbManager.trim (BreadcrumbManager.maxBreadcrumbs m)
         (BreadcrumbManager.breadcrumbs m ++ [breadcrumb_of_call c]) |}.
Proof. destruct c; reflexivity. Qed.

(** A finite capacity of at least 1 keeps the last breadcrumbs, as many as
    its integer part. *)
Lemma trim_positive (capacity : Q) (l : list Breadcrumb) :
  (1 <= capacity)%Q ->
  BreadcrumbManager.trim (Num capacity) l = last_n (Z.to_nat (Qfloor capacity)) l.
Proof.
  intros Hcapacity. pose proof (Qfloor_one capacity Hcapacity) as Hfloor.
  unfold BreadcrumbManager.trim. rewrite num_lt_length.
  destruct (Z.ltb_spec (Qfloor capacity) (Z.of_nat (length l))).
  - cbn [num_neg js_slice_number].
    rewrite Qtruncate_opp by (apply Qle_trans with 1%Q; [discriminate|exact Hcapacity]).
    apply js_slice_neg. lia.
  - symmetry. apply last_n_all. lia.
Qed.

(** With no room at all, trimming keeps everything. *)
Lemma trim_zero (l : list Breadcrumb) : BreadcrumbManager.trim (Num 0) l = l.
Proof.
  unfold BreadcrumbManager.trim.
  destruct (num_lt (Num 0) (num_of_nat (length l))); [apply (js_slice_zero l)|reflexivity].
Qed.

(** So does trimming with any capacity strictly between -1 and 1: the
    start of the slice is rounded toward zero. *)
Lemma trim_small (capacity : Q) (l : list Breadcrumb) :
  (- (1) < capacity)%Q -> (capacity < 1)%Q -> BreadcrumbManager.trim (Num capacity) l = l.
Proof.
  intros Hlow Hhigh. unfold BreadcrumbManager.trim.
  destruct (num_lt (Num capacity) (num_of_nat (length l))); [|reflexivity].
  cbn [num_neg js_slice_number]. rewrite Qtruncate_small.
  - apply (js_slice_zero l).
  - apply Qopp_lt_compat in Hhigh. exact Hhigh.
  - apply Qopp_lt_compat in Hlow. exact Hlow.
Qed.

Lemma breadcrumb_calls_snoc m cs c :
  breadcrumb_calls m (cs ++ [c]) = breadcrumb_call (breadcrumb_calls m cs) c.
Proof. unfold breadcrumb_calls. apply foldl_snoc. Qed.

Lemma breadcrumb_calls_max m cs :
  BreadcrumbManager.maxBreadcrumbs (breadcrumb_calls m cs)
  = BreadcrumbManager.maxBreadcrumbs m.
Proof.
  revert m. induction cs as [|c cs IH]; intros m; [reflexivity|].
  simpl. rewrite IH. destruct c; reflexivity.
Qed.

(** For a capacity of at least one, the buffer holds the most recent
    breadcrumbs, as many as the capacity allows, in insertion order. *)
Lemma breadcrumbs_most_recent (capacity : Q) (cs : list BreadcrumbCall) :
  (1 <= capacity)%Q ->
  BreadcrumbManager.getAll (breadcrumb_calls (BreadcrumbManager.new (Num capacity)) cs)
  = last_n (Z.to_nat (Qfloor capacity)) (breadcrumb_of_call <$> cs).
Proof.
  intros Hcapacity. pose proof (Qfloor_one capacity Hcapacity) as Hfloor.
  induction cs as [|c cs IH] using rev_ind; [reflexivity|].
  rewrite breadcrumb_calls_snoc, breadcrumb_call_trim, fmap_app.
  unfold BreadcrumbManager.getAll in *. simpl.
  rewrite breadcrumb_calls_max. simpl.
  rewrite trim_positive by assumption.
  rewrite IH. apply last_n_snoc. lia.
Qed.

(** C5, at the capacity 0.  A buffer configured with [maxBreadcrumbs = 0]
    never evicts anything: after any sequence of [add] and [addBreadcrumb]
    calls the snapshot holds every breadcrumb added, so its length exceeds
    the capacity as soon as one breadcrumb is added.  ([slice(-0)] is
    [slice(0)].) *)
Theorem C5_zero_capacity_keeps_everything (cs : list BreadcrumbCall) :
  BreadcrumbManager.getAll (breadcrumb_calls (BreadcrumbManager.new (Num 0)) cs)
  = breadcrumb_of_call <$> cs.
Proof.
  induction cs as [|c cs IH] using rev_ind; [reflexivity|].
  rewrite breadcrumb_calls_snoc, breadcrumb_call_trim, fmap_app.
  unfold BreadcrumbManager.getAll in *. simpl.
  rewrite breadcrumb_calls_max. simpl.
  rewrite trim_zero, IH. reflexivity.
Qed.

End Breadcrumbs.

(** ** journey.ts *)

Section JourneySteps.

Lemma is_in_progress_status s : is_in_progress s = true <-> s_status s = in_progress.
Proof. unfold is_in_progress. destruct (s_status s); split; congruence. Qed.

Lemma finish_not_in_progress status now s :
  status <> in_progress -> is_in_progress (Journey.finish status now s) = false.
Proof. unfold is_in_progress. simpl. destruct status; congruence. Qed.

Lemma filter_at_most_one {A : Type} (P : A -> bool) (l : list A) :
  (forall i j x y, l !! i = Some x -> l !! j = Some y ->
                   P x = true -> P y = true -> i = j) ->
  length (List.filter P l) <= 1.
Proof.
  induction l as [|a l IH]; intros H; simpl; [lia|].
  destruct (P a) eqn:Ha.
  - assert (List.filter P l = []) as ->; [|simpl; lia].
    destruct (List.filter P l) as [|b t] eqn:Hf; [reflexivity|exfalso].
    assert (In b (List.filter P l)) as Hb by (rewrite Hf; left; reflexivity).
    apply filter_In in Hb as [Hin Pb].
    apply list_elem_of_In, list_elem_of_lookup in Hin as [k Hk].
    specialize (H 0 (S k) a b eq_refl Hk Ha Pb). discriminate.
  - apply IH. intros i j x y Hi Hj Px Py.
    specialize (H (S i) (S j) x y Hi Hj Px Py). lia.
Qed.

Lemma filter_none {A : Type} (P : A -> bool) (l : list A) :
  (forall i x, l !! i = Some x -> P x = false) -> List.filter P l = [].
Proof.
  induction l as [|a l IH]; intros H; simpl; [reflexivity|].
  rewrite (H 0 a eq_refl). apply IH. intros i x Hi. exact (H (S i) x Hi).
Qed.

Lemma at_most_one_in_progress j :
  only_current_in_progress j -> length (steps_in_progress j) <= 1.
Proof.
  intros Hinv. apply filter_at_most_one. intros i k x y Hi Hk Px Py.
  pose proof (Hinv i x Hi Px). pose proof (Hinv k y Hk Py). congruence.
Qed.

Lemma finishCurrent_none_in_progress status now j :
  status <> in_progress -> only_current_in_progress j ->
  none_in_progress (Journey.finishCurrent status now j).
Proof.
  intros Hst Hinv i s. unfold Journey.finishCurrent.
  destruct (Journey.currentStep j) as [c|] eqn:Hc.
  - destruct (Journey.steps j !! c) as [sc|] eqn:Hsc.
    + destruct (is_in_progress sc) eqn:Hp.
      * simpl. intros Hi. destruct (decide (c = i)) as [->|Hne].
        -- rewrite list_lookup_insert_eq in Hi by (eapply lookup_lt_Some; eauto).
           injection Hi as <-. apply finish_not_in_progress, Hst.
        -- rewrite list_lookup_insert_ne in Hi by assumption.
           destruct (is_in_progress s) eqn:Hs; [|reflexivity].
           specialize (Hinv i s Hi Hs). congruence.
      * intros Hi. destruct (is_in_progress s) eqn:Hs; [|reflexivity].
        specialize (Hinv i s Hi Hs). congruence.
    + intros Hi. destruct (is_in_progress s) eqn:Hs; [|reflexivity].
      specialize (Hinv i s Hi Hs). congruence.
  - intros Hi. destruct (is_in_progress s) eqn:Hs; [|reflexivity].
    specialize (Hinv i s Hi Hs). congruence.
Qed.

Lemma none_only_current j : none_in_progress j -> only_current_in_progress j.
Proof. intros H i s Hi Hs. rewrite (H i s Hi) in Hs. discriminate. Qed.

Lemma pushStep_only_current j name category now :
  none_in_progress j ->
  only_current_in_progress (fst (Journey.pushStep j name category now)).
Proof.
  intros Hnone i s. unfold Journey.pushStep, js_push. simpl.
  intros Hi Hs. apply lookup_app_Some in Hi as [Hi|[Hlen Hi]].
  - rewrite (Hnone i s Hi) in Hs. discriminate.
  - destruct (i - length (Journey.steps j)) as [|k] eqn:Hk; [|discriminate].
    f_equal. lia.
Qed.

Lemma alter_finish_only_current status now step j :
  status <> in_progress -> only_current_in_progress j ->
  only_current_in_progress
    (Journey.with_steps j (alter (Journey.finish status now) step (Journey.steps j))
       (Journey.currentStep j)).
Proof.
  intros Hst Hinv i s. simpl. intros Hi Hs.
  destruct (decide (step = i)) as [->|Hne].
  - rewrite list_lookup_alter_eq in Hi.
    destruct (Journey.steps j !! i) as [s0|]; [|discriminate].
    injection Hi as <-. rewrite finish_not_in_progress in Hs by assumption.
    discriminate.
  - rewrite list_lookup_alter_ne in Hi by assumption. exact (Hinv i s Hi Hs).
Qed.

Lemma journey_call_only_current j c :
  only_current_in_progress j -> only_current_in_progress (journey_call j c).
Proof.
  intros Hinv. destruct c; simpl.
  - apply pushStep_only_current, finishCurrent_none_in_progress; [discriminate|assumption].
  - apply alter_finish_only_current; [discriminate|assumption].
  - apply alter_finish_only_current; [discriminate|assumption].
  - intros i s. unfold Step.setData. simpl. intros Hi Hs.
    destruct (decide (step = i)) as [->|Hne].
    + rewrite list_lookup_alter_eq in Hi.
      destruct (Journey.steps j !! i) as [s0|] eqn:H0; [|discriminate].
      injection Hi as <-. exact (Hinv i s0 H0 Hs).
    + rewrite list_lookup_alter_ne in Hi by assumption. exact (Hinv i s Hi Hs).
  - unfold StepScope.dispose.
    destruct (Journey.steps j !! step) as [s0|]; [|assumption].
    destruct (is_in_progress s0); [|assumption].
    apply alter_finish_only_current; [discriminate|assumption].
  - exact Hinv.
  - exact Hinv.
  - apply none_only_current.
    pose proof (finishCurrent_none_in_progress completed now j) as H.
    intros i s Hi. eapply H; [discriminate|assumption|exact Hi].
  - apply none_only_current.
    pose proof (finishCurrent_none_in_progress failed now j) as H.
    intros i s Hi. eapply H; [discriminate|assumption|exact Hi].
Qed.

Lemma journey_calls_only_current j cs :
  only_current_in_progress j -> only_current_in_progress (journey_calls j cs).
Proof.
  revert j. induction cs as [|c cs IH]; intros j Hinv; [exact Hinv|].
  simpl. apply IH, journey_call_only_current, Hinv.
Qed.

Lemma new_only_current name id now :
  only_current_in_progress (Journey.new name id now).
Proof. intros i s Hi. destruct i; discriminate. Qed.

(** C4.  Whatever calls are made on a journey and on its steps, at most
    one of its steps is in progress.  In particular, when [startStep] is
    called while a step [s] is in progress, [s] is first given the status
    [completed] and an end time, which leaves no step in progress; only
    then is the new step created, in progress, and made the current step,
    the sole step in progress. *)
Theorem C4_single_active_step (name id : string) (now : Z) (cs : list JourneyCall) :
  let j := journey_calls (Journey.new name id now) cs in
  length (steps_in_progress j) <= 1 /\
  forall (i : nat) (s : JourneyStep) (stepName : string)
         (category : option string) (now_end now_start : Z),
    Journey.steps j !! i = Some s -> s_status s = in_progress ->
    let j1 := Journey.finishCurrent completed now_end j in
    let j2 := fst (Journey.startStep j stepName category now_end now_start) in
    let k := snd (Journey.startStep j stepName category now_end now_start) in
    let created :=
      {| s_name := stepName; s_category := category;
         s_startedAt := ValidDate now_start; s_endedAt := None;
         s_status := in_progress; s_data := [] |} in
    (exists s1, Journey.steps j1 !! i = Some s1 /\ s_status s1 = completed /\
                s_endedAt s1 = Some (ValidDate now_end)) /\
    steps_in_progress j1 = [] /\
    j2 = fst (Journey.pushStep j1 stepName category now_start) /\
    (exists s2, Journey.steps j2 !! i = Some s2 /\ s_status s2 = completed /\
                s_endedAt s2 = Some (ValidDate now_end)) /\
    Journey.steps j2 !! k = Some created /\
    Journey.currentStep j2 = Some k /\
    steps_in_progress j2 = [created].
Proof.
  intros j.
  assert (only_current_in_progress j) as Hinv
    by apply journey_calls_only_current, new_only_current.
  split; [apply at_most_one_in_progress, Hinv|].
  intros i s stepName category now_end now_start Hi Hs j1 j2 k created.
  assert (is_in_progress s = true) as Hp by (apply is_in_progress_status, Hs).
  pose proof (Hinv i s Hi Hp) as Hcur.
  assert (none_in_progress j1) as Hnone
    by (apply finishCurrent_none_in_progress; [discriminate|exact Hinv]).
  assert (Journey.steps j1 = <[i := Journey.finish completed now_end s]> (Journey.steps j))
    as Hsteps1.
  { subst j1. unfold Journey.finishCurrent. rewrite Hcur, Hi, Hp. reflexivity. }
  assert (Journey.steps j1 !! i = Some (Journey.finish completed now_end s)) as Hi1.
  { rewrite Hsteps1. apply list_lookup_insert_eq. eapply lookup_lt_Some, Hi. }
  assert (steps_in_progress j1 = []) as Hnil by (apply filter_none, Hnone).
  split; [exists (Journey.finish completed now_end s); split; [exact Hi1|split; reflexivity]|].
  split; [exact Hnil|].
  split; [reflexivity|].
  subst j2 k. unfold Journey.startStep, Journey.pushStep, js_push. simpl.
  fold j1. split; [|split; [|split]].
  - exists (Journey.finish completed now_end s). split; [|split; reflexivity].
    rewrite lookup_app_l by (eapply lookup_lt_Some, Hi1). exact Hi1.
  - apply list_lookup_middle. reflexivity.
  - reflexivity.
  - unfold steps_in_progress in *. simpl. rewrite List.filter_app, Hnil. reflexivity.
Qed.

(** The scenario of the journey "checkout": the step "validate" starts,
    then the step "pay". *)
Lemma C4_single_active_step_witness :
  let j := journey_calls (Journey.new "checkout" "j-1" 0)
             [CallStartStep "validate" None 1 2] in
  let j2 := fst (Journey.startStep j "pay" None 3 4) in
  Journey.steps j !! 0 =
    Some {| s_name := "validate"; s_category := None;
            s_startedAt := ValidDate 2; s_endedAt := None;
            s_status := in_progress; s_data := [] |} /\
  (exists s2, Journey.steps j2 !! 0 = Some s2 /\ s_status s2 = completed /\
              s_endedAt s2 = Some (ValidDate 3)) /\
  Journey.currentStepName j2 = Some "pay" /\
  length (steps_in_progress j2) = 1.
Proof.
  intros j j2.
  destruct (C4_single_active_step "checkout" "j-1" 0
              [CallStartStep "validate" None 1 2]) as [_ H].
  specialize (H 0 _ "pay" None 3%Z 4%Z eq_refl eq_refl).
  destruct H as (_ & _ & _ & Hold & Hnew & Hcur & Hsole).
  split; [reflexivity|]. split; [exact Hold|].
  split; [reflexivity|]. subst j j2. rewrite Hsole. reflexivity.
Defined.

End JourneySteps.

(** ** queue.ts *)

Section Queue.
Variable st : Store.

Lemma save_queue q : OfflineQueue.queue (OfflineQueue.save st q) = OfflineQueue.queue q.
Proof.
  unfold OfflineQueue.save.
  destruct (OfflineQueue.storage q); [reflexivity|..];
    match goal with |- context [bindO ?a ?b] => destruct (bindO a b) end; reflexivity.
Qed.

Lemma save_maxSize q : OfflineQueue.maxSize (OfflineQueue.save st q) = OfflineQueue.maxSize q.
Proof.
  unfold OfflineQueue.save.
  destruct (OfflineQueue.storage q); [reflexivity|..];
    match goal with |- context [bindO ?a ?b] => destruct (bindO a b) end; reflexivity.
Qed.

Lemma enqueue_queue q e :
  OfflineQueue.queue (OfflineQueue.enqueue st q e) =
  (if num_le (OfflineQueue.maxSize q) (num_of_nat (length (OfflineQueue.queue q)))
   then tail (OfflineQueue.queue q) else OfflineQueue.queue q) ++ [e].
Proof.
  unfold OfflineQueue.enqueue. rewrite save_queue.
  destruct (num_le (OfflineQueue.maxSize q) (num_of_nat (length (OfflineQueue.queue q))));
    reflexivity.
Qed.

Lemma enqueue_maxSize q e :
  OfflineQueue.maxSize (OfflineQueue.enqueue st q e) = OfflineQueue.maxSize q.
Proof.
  unfold OfflineQueue.enqueue. rewrite save_maxSize.
  destruct (num_le (OfflineQueue.maxSize q) (num_of_nat (length (OfflineQueue.queue q))));
    reflexivity.
Qed.

Lemma enqueue_all_snoc q es e :
  enqueue_all st q (es ++ [e]) = OfflineQueue.enqueue st (enqueue_all st q es) e.
Proof. unfold enqueue_all. apply foldl_snoc. Qed.

Lemma enqueue_all_maxSize q es :
  OfflineQueue.maxSize (enqueue_all st q es) = OfflineQueue.maxSize q.
Proof.
  induction es as [|e es IH] using rev_ind; [reflexivity|].
  rewrite enqueue_all_snoc, enqueue_maxSize. exact IH.
Qed.

(** [enqueue] drops at most one entry: a queue that is longer than its
    capacity, as one read from the storage can be, stays as long as it was. *)
Lemma enqueue_length q e :
  length (OfflineQueue.queue (OfflineQueue.enqueue st q e)) =
  if num_le (OfflineQueue.maxSize q) (num_of_nat (length (OfflineQueue.queue q)))
  then Nat.max 1 (length (OfflineQueue.queue q))
  else S (length (OfflineQueue.queue q)).
Proof.
  rewrite enqueue_queue.
  destruct (num_le (OfflineQueue.maxSize q) (num_of_nat (length (OfflineQueue.queue q))));
    rewrite length_app; simpl; [|lia].
  destruct (OfflineQueue.queue q); simpl; lia.
Qed.

(** The queue is full at the least integer that is not below its capacity:
    the capacity itself when it is an integer. *)
Lemma enqueue_within_capacity q e (capacity : Q) :
  OfflineQueue.maxSize q = Num capacity -> (0 < capacity)%Q ->
  (Z.of_nat (length (OfflineQueue.queue q)) <= Qceiling capacity)%Z ->
  OfflineQueue.queue (OfflineQueue.enqueue st q e) =
  last_n (Z.to_nat (Qceiling capacity)) (OfflineQueue.queue q ++ [e]).
Proof.
  intros Hmax Hpos Hlen. pose proof (Qceiling_positive capacity Hpos) as Hceiling.
  rewrite enqueue_queue, Hmax, num_le_length.
  destruct (Z.leb_spec (Qceiling capacity) (Z.of_nat (length (OfflineQueue.queue q)))).
  - unfold last_n. rewrite length_app. simpl.
    replace (length (OfflineQueue.queue q) + 1 - Z.to_nat (Qceiling capacity))
      with 1 by lia.
    destruct (OfflineQueue.queue q); [simpl in *; lia|reflexivity].
  - symmetry. apply last_n_all. rewrite length_app. simpl. lia.
Qed.

(** For a positive capacity and a queue that starts within it, the queue
    holds the most recently enqueued events, as many as the capacity allows,
    oldest first; each overflow drops the oldest entry. *)
Lemma queue_most_recent q es (capacity : Q) :
  OfflineQueue.maxSize q = Num capacity -> (0 < capacity)%Q ->
  (Z.of_nat (length (OfflineQueue.queue q)) <= Qceiling capacity)%Z ->
  OfflineQueue.queue (enqueue_all st q es) =
  last_n (Z.to_nat (Qceiling capacity)) (OfflineQueue.queue q ++ es).
Proof.
  intros Hmax Hpos Hlen. pose proof (Qceiling_positive capacity Hpos) as Hceiling.
  induction es as [|e es IH] using rev_ind.
  - rewrite app_nil_r. simpl. symmetry. apply last_n_all. lia.
  - rewrite enqueue_all_snoc, (enqueue_within_capacity _ _ capacity).
    + rewrite IH, app_assoc. apply last_n_snoc. lia.
    + rewrite enqueue_all_maxSize. exact Hmax.
    + exact Hpos.
    + rewrite IH, last_n_length. lia.
Qed.

Lemma zero_capacity_enqueue q e :
  OfflineQueue.maxSize q = Num 0 -> length (OfflineQueue.queue q) <= 1 ->
  OfflineQueue.queue (OfflineQueue.enqueue st q e) = [e].
Proof.
  intros Hmax Hlen. rewrite enqueue_queue, Hmax, num_le_length.
  change (Qceiling 0) with 0%Z.
  destruct (Z.leb_spec 0 (Z.of_nat (length (OfflineQueue.queue q)))); [|lia].
  destruct (OfflineQueue.queue q) as [|x [|y l]]; simpl in *; [reflexivity..|lia].
Qed.

Lemma zero_capacity_length q es :
  OfflineQueue.maxSize q = Num 0 -> length (OfflineQueue.queue q) <= 1 ->
  length (OfflineQueue.queue (enqueue_all st q es)) <= 1.
Proof.
  intros Hmax Hlen. induction es as [|e es IH] using rev_ind; [exact Hlen|].
  rewrite enqueue_all_snoc, zero_capacity_enqueue; [simpl; lia| |exact IH].
  rewrite enqueue_all_maxSize. exact Hmax.
Qed.

(** With the capacity 0 and an empty storage the queue holds one event after
    every [enqueue], the event just enqueued: [shift()] on the empty array
    removes nothing and the event is pushed all the same. *)
Lemma zero_capacity_queue_holds_one (debug : bool) (es : list TelemetryEvent)
    (e : TelemetryEvent) :
  OfflineQueue.queue
    (enqueue_all st (OfflineQueue.new (Num 0) debug (HasLocalStorage NoItem)) (es ++ [e]))
  = [e].
Proof.
  rewrite enqueue_all_snoc. apply zero_capacity_enqueue.
  - rewrite enqueue_all_maxSize. reflexivity.
  - apply zero_capacity_length; [reflexivity|simpl; lia].
Qed.

Lemma new_maxSize (M : JsNumber) (debug : bool) (storage : LocalStorage) :
  OfflineQueue.maxSize (OfflineQueue.new M debug storage) = M.
Proof.
  unfold OfflineQueue.new, OfflineQueue.load. simpl.
  destruct storage as [|[| |events]|accepts [| |events]]; reflexivity.
Qed.

(** C2, at a storage that holds more entries than the capacity.  [load]
    takes every stored entry, whatever the capacity is, and [enqueue] drops
    one entry for the one it adds: a queue constructed with a capacity below
    the number of stored entries holds that many entries at once and after
    every [enqueue], more than its maximum size. *)
Theorem C2_loaded_queue_exceeds_capacity (capacity : Q) (debug : bool)
    (stored : list StoredEvent) (es : list TelemetryEvent) :
  (0 <= capacity)%Q ->
  (capacity < inject_Z (Z.of_nat (length stored)))%Q ->
  let q0 := OfflineQueue.new (Num capacity) debug (HasLocalStorage (Items stored)) in
  let q := enqueue_all st q0 es in
  OfflineQueue.queue q0 = OfflineQueue.deserializeEvent <$> stored /\
  length (OfflineQueue.queue q) = length stored /\
  ~ (inject_Z (Z.of_nat (length (OfflineQueue.queue q))) <= capacity)%Q.
Proof.
  intros Hcapacity Hover q0 q.
  assert (0 < length stored) as Hsome.
  { apply Nat2Z.inj_lt. rewrite Zlt_Qlt. eapply Qle_lt_trans; [exact Hcapacity|exact Hover]. }
  assert (length (OfflineQueue.queue q) = length stored) as Hlength.
  { subst q. induction es as [|e es IH] using rev_ind.
    - simpl. apply length_fmap.
    - rewrite enqueue_all_snoc, enqueue_length, enqueue_all_maxSize, IH.
      unfold q0. rewrite new_maxSize. unfold num_le, num_of_nat.
      apply Qlt_le_weak, Qle_bool_iff in Hover. rewrite Hover. lia. }
  split; [reflexivity|]. split; [exact Hlength|].
  rewrite Hlength. apply Qlt_not_le, Hover.
Qed.

End Queue.

Section QueueCapacity.

(** The failing input: the capacity 1 and a storage that holds two
    entries.  The queue has two entries, before and after an [enqueue]. *)
Lemma C2_loaded_queue_exceeds_capacity_witness :
  let stored := [stored_sample_event "E1"; stored_sample_event "E2"] in
  let q := OfflineQueue.new (Num 1) false (HasLocalStorage (Items stored)) in
  OfflineQueue.queue q = [sample_event "E1"; sample_event "E2"] /\
  OfflineQueue.queue (OfflineQueue.enqueue [] q (sample_event "E3"))
    = [sample_event "E2"; sample_event "E3"] /\
  length (OfflineQueue.queue (OfflineQueue.enqueue [] q (sample_event "E3"))) = 2.
Proof.
  intros stored q.
  destruct (C2_loaded_queue_exceeds_capacity [] 1 false stored [sample_event "E3"])
    as (Hloaded & Hlength & _); [discriminate|reflexivity|].
  split; [vm_compute; reflexivity|]. split; [vm_compute; reflexivity|exact Hlength].
Defined.

(** A capacity that is not an integer is exceeded as well: with the
    capacity 3/2 the queue settles at two entries. *)
Lemma fractional_capacity_is_exceeded :
  OfflineQueue.queue
    (enqueue_all [] (OfflineQueue.new (Num (3 # 2)) false (HasLocalStorage NoItem))
       [sample_event "E1"; sample_event "E2"; sample_event "E3"])
  = [sample_event "E2"; sample_event "E3"].
Proof. vm_compute. reflexivity. Qed.

End QueueCapacity.

(** ** transport.ts *)

Section TransportSend.




End TransportSend.

(** ** client.ts: draining the offline queue *)

Section Drain.
Variable tr : Transport.t.
Variable st : Store.

Lemma send_returns (event : TelemetryEvent) (net : Network) :
  exists result net', Transport.send tr st event net = (Returned result, net').
Proof.
  unfold Transport.send.
  destruct (Transport.send_try tr st event net) as [[result|err] net']; eauto.
Qed.

Lemma send_offline (event : TelemetryEvent) :
  exists result,
    Transport.send tr st event [] = (Returned result, []) /\ success result = false.
Proof.
  unfold Transport.send, Transport.send_try.
  destruct (Transport.serializeEvent event) as [payload|err];
    [|eexists; split; reflexivity].
  destruct (stringify_event WireString st payload); eexists; split; reflexivity.
Qed.

Lemma remove_queue q id :
  OfflineQueue.queue (OfflineQueue.remove st q id) =
  List.filter (fun e => negb (String.eqb (eventId e) id)) (OfflineQueue.queue q).
Proof. unfold OfflineQueue.remove. rewrite save_queue. reflexivity. Qed.

Lemma filter_filter {A : Type} (f g : A -> bool) (l : list A) :
  List.filter f (List.filter g l) = List.filter (fun x => g x && f x) l.
Proof.
  induction l as [|a l IH]; simpl; [reflexivity|].
  destruct (g a); simpl; [destruct (f a)|]; rewrite IH; reflexivity.
Qed.

Lemma attempts_events events net : (attempts tr st events net).*1 = events.
Proof.
  revert net. induction events as [|e events IH]; intros net; simpl; [reflexivity|].
  destruct (Transport.send tr st e net) as [sent net']. simpl. rewrite IH. reflexivity.
Qed.

Lemma sent_events_drain_log ps : sent_events (drain_log ps) = ps.*1.
Proof.
  induction ps as [|[e r] ps IH]; [reflexivity|].
  unfold drain_log. simpl. fold (drain_log ps).
  unfold sent_events in *. rewrite omap_app, IH.
  destruct (succeeded r); reflexivity.
Qed.

(** The loop, on any snapshot and any queue: it runs to its end, makes
    the attempts in the order of the snapshot, and leaves in the queue the
    entries whose id is not the id of a successful attempt. *)
Lemma drain_spec events q net :
  exists q',
    TelemetryClient.drain tr st events q net =
      (Returned tt, q', network_after tr st events net,
       drain_log (attempts tr st events net)) /\
    OfflineQueue.queue q' =
      List.filter (fun e => negb (has_id (removed_ids (attempts tr st events net)) e))
        (OfflineQueue.queue q).
Proof.
  revert q net. induction events as [|e events IH]; intros q net; simpl.
  - exists q. split; [reflexivity|].
    induction (OfflineQueue.queue q) as [|x l IHl]; simpl; congruence.
  - destruct (send_returns e net) as (result & net' & Hsend). rewrite Hsend. simpl.
    destruct (success result) eqn:Hok.
    + destruct (IH (OfflineQueue.remove st q (eventId e)) net') as (q' & Hdrain & Hq').
      rewrite Hdrain. exists q'. split; [reflexivity|].
      rewrite Hq', remove_queue, filter_filter. unfold removed_ids. simpl.
      rewrite Hok. simpl. apply filter_ext. intros x. unfold has_id. simpl.
      rewrite negb_orb. reflexivity.
    + destruct (IH q net') as (q' & Hdrain & Hq').
      rewrite Hdrain. exists q'. split; [reflexivity|].
      rewrite Hq'. unfold removed_ids. simpl. rewrite Hok. reflexivity.
Qed.

Lemma removed_ids_attempted ps id :
  In id (removed_ids ps) -> In id ((fun p : TelemetryEvent * Outcome SendResult => eventId p.1) <$> ps).
Proof.
  unfold removed_ids. rewrite <- !list_elem_of_In, !list_elem_of_fmap.
  intros (p & -> & Hp). exists p. split; [reflexivity|].
  apply list_elem_of_In. apply list_elem_of_In, filter_In in Hp. tauto.
Qed.

Lemma has_id_false ids e : ~ In (eventId e) ids -> has_id ids e = false.
Proof.
  intros Hnot. unfold has_id. apply not_true_is_false. intros H.
  apply existsb_exists in H as (id & Hin & Heq).
  apply String.eqb_eq in Heq. subst. contradiction.
Qed.

(** With pairwise distinct ids, removing by id removes exactly the events
    whose own attempt succeeded. *)
Lemma distinct_ids_removed (ps : list (TelemetryEvent * Outcome SendResult)) :
  List.NoDup ((fun p => eventId p.1) <$> ps) ->
  List.filter (fun e => negb (has_id (removed_ids ps) e)) ps.*1 =
  (List.filter (fun p => negb (succeeded p.2)) ps).*1.
Proof.
  induction ps as [|[e r] ps IH]; intros Hnodup; [reflexivity|].
  rewrite fmap_cons in Hnodup. apply List.NoDup_cons_iff in Hnodup as [Hfresh Hnodup].
  simpl in Hfresh. specialize (IH Hnodup).
  assert (forall x, In x ps.*1 -> String.eqb (eventId x) (eventId e) = false) as Hother.
  { intros x Hx. apply String.eqb_neq. intros Heq. apply Hfresh. rewrite <- Heq.
    apply list_elem_of_In, list_elem_of_fmap in Hx as ([x' r'] & -> & Hx').
    apply list_elem_of_In, list_elem_of_fmap. exists (x', r'). split; [reflexivity|exact Hx']. }
  assert (removed_ids ((e, r) :: ps) =
          if succeeded r then eventId e :: removed_ids ps else removed_ids ps) as ->.
  { unfold removed_ids. simpl. destruct (succeeded r); reflexivity. }
  destruct (succeeded r) eqn:Hr.
  - simpl. unfold has_id at 1. simpl. rewrite String.eqb_refl, Hr. simpl.
    etransitivity; [|exact IH]. apply filter_ext_in. intros x Hx.
    unfold has_id. simpl. rewrite (Hother x Hx). reflexivity.
  - simpl. rewrite Hr, has_id_false.
    + simpl. f_equal. exact IH.
    + intros Hin. apply Hfresh. apply removed_ids_attempted in Hin. exact Hin.
Qed.

End Drain.

Section ProcessQueue.

(** The events that [processQueue] sends are the queued events, in the
    order of the queue, or none at all. *)
Lemma processQueue_sends (c : TelemetryClient.t) (net : Network) :
  sent_events (log_of (TelemetryClient.processQueue c net)) = [] \/
  sent_events (log_of (TelemetryClient.processQueue c net)) = queued_events c.
Proof.
  unfold TelemetryClient.processQueue, queued_events, log_of.
  destruct (TelemetryClient.queue c) as [q|]; [|left; reflexivity].
  destruct (OfflineQueue.isEmpty q); [left; reflexivity|].
  destruct (Transport.isOnline (TelemetryClient.transport c) net)
    as [[[|]|err] net1]; [|left; reflexivity..].
  destruct (drain_spec (TelemetryClient.transport c) (TelemetryClient.journeys c)
              (OfflineQueue.getAll q) q net1) as (q' & Hdrain & _).
  rewrite Hdrain. right. simpl.
  change (sent_events (drain_log (attempts (TelemetryClient.transport c)
            (TelemetryClient.journeys c) (OfflineQueue.getAll q) net1))
          = OfflineQueue.queue q).
  rewrite sent_events_drain_log. apply attempts_events.
Qed.

(** C1.  Let the queue hold events with pairwise distinct ids and the
    transport report that it is online.  Then the drain sends every queued
    event, once, in the order of the queue; each event whose send succeeds
    is removed right after its send, before the next event is sent; the
    events whose send fails stay, and the loop goes on after them.  At the
    end the queue holds exactly the events whose send failed, in their
    original order. *)
Theorem C1_drain_removes_exactly_the_successes
    (c : TelemetryClient.t) (q : OfflineQueue.t) (net net1 : Network) :
  TelemetryClient.queue c = Some q ->
  List.NoDup (eventId <$> OfflineQueue.queue q) ->
  Transport.isOnline (TelemetryClient.transport c) net = (Returned true, net1) ->
  let ps := attempts (TelemetryClient.transport c) (TelemetryClient.journeys c)
              (OfflineQueue.queue q) net1 in
  let done := TelemetryClient.processQueue c net in
  done.1.1.1 = Returned tt /\
  ps.*1 = OfflineQueue.queue q /\
  sent_events (log_of done) = OfflineQueue.queue q /\
  log_of done =
    (if OfflineQueue.isEmpty q then [] else [CalledIsOnline (Returned true)])
    ++ drain_log ps /\
  queued_events (client_of done) =
    (List.filter (fun p => negb (succeeded p.2)) ps).*1.
Proof.
  intros Hq Hnodup Honline ps done.
  assert (ps.*1 = OfflineQueue.queue q) as Hps by apply attempts_events.
  subst done. unfold TelemetryClient.processQueue, log_of, client_of, queued_events.
  rewrite Hq. unfold OfflineQueue.isEmpty.
  destruct (OfflineQueue.queue q) as [|e0 events] eqn:Hqueue.
  - simpl. rewrite Hq, Hqueue. subst ps. simpl. auto.
  - cbn [length Nat.eqb]. rewrite Honline.
    destruct (drain_spec (TelemetryClient.transport c) (TelemetryClient.journeys c)
                (OfflineQueue.getAll q) q net1) as (q' & Hdrain & Hq').
    rewrite Hdrain. unfold OfflineQueue.getAll in *. rewrite Hqueue in *.
    fold ps in Hq' |- *. cbn [fst snd]. simpl TelemetryClient.queue.
    split; [reflexivity|]. split; [exact Hps|].
    split; [rewrite <- Hps; apply sent_events_drain_log|].
    split; [reflexivity|].
    rewrite Hq', <- Hps. apply distinct_ids_removed.
    change (List.NoDup ((eventId ∘ fst) <$> ps)).
    rewrite (list_fmap_compose fst eventId), Hps. exact Hnodup.
Qed.

(** The scenario of the capacity 2: three failed events are enqueued, the
    queue holds the last two; the transport then succeeds for the third
    only, and the second is left. *)
Lemma C1_drain_removes_exactly_the_successes_witness :
  let c := sample_client_with_queue 2
             [sample_event "E1"; sample_event "E2"; sample_event "E3"] in
  let net : Network :=
    [fun _ => Returned (response_accepted "up");
     fun _ => Returned response_server_error;
     fun _ => Returned (response_accepted "E3")] in
  queued_events c = [sample_event "E2"; sample_event "E3"] /\
  sent_events (log_of (TelemetryClient.processQueue c net))
    = [sample_event "E2"; sample_event "E3"] /\
  queued_events (client_of (TelemetryClient.processQueue c net))
    = [sample_event "E2"].
Proof.
  intros c net.
  assert (exists q, TelemetryClient.queue c = Some q /\
                    OfflineQueue.queue q = [sample_event "E2"; sample_event "E3"])
    as (q & Hq & Hqueue) by (eexists; split; reflexivity).
  assert (List.NoDup (eventId <$> OfflineQueue.queue q)) as Hnodup.
  { rewrite Hqueue. repeat constructor; simpl; intuition discriminate. }
  destruct (C1_drain_removes_exactly_the_successes c q net (tail net) Hq Hnodup eq_refl)
    as (_ & _ & Hsent & _ & Hleft).
  split; [unfold queued_events; rewrite Hq; exact Hqueue|].
  split; [rewrite Hsent; exact Hqueue|].
  rewrite Hleft, Hqueue. reflexivity.
Defined.

End ProcessQueue.

Section RemoveById.

Lemma processQueue_online (c : TelemetryClient.t) (q : OfflineQueue.t)
    (e0 : TelemetryEvent) (events : list TelemetryEvent) (net net1 : Network) :
  TelemetryClient.queue c = Some q ->
  OfflineQueue.queue q = e0 :: events ->
  Transport.isOnline (TelemetryClient.transport c) net = (Returned true, net1) ->
  let ps := attempts (TelemetryClient.transport c) (TelemetryClient.journeys c)
              (e0 :: events) net1 in
  sent_events (log_of (TelemetryClient.processQueue c net)) = e0 :: events /\
  queued_events (client_of (TelemetryClient.processQueue c net)) =
    List.filter (fun e => negb (has_id (removed_ids ps) e)) (e0 :: events).
Proof.
  intros Hq Hqueue Honline ps.
  unfold TelemetryClient.processQueue, log_of, client_of, queued_events.
  rewrite Hq. unfold OfflineQueue.isEmpty. rewrite Hqueue. cbn [length Nat.eqb].
  rewrite Honline.
  destruct (drain_spec (TelemetryClient.transport c) (TelemetryClient.journeys c)
              (OfflineQueue.getAll q) q net1) as (q' & Hdrain & Hq').
  rewrite Hdrain. unfold OfflineQueue.getAll in *. rewrite Hqueue in *.
  fold ps in Hq' |- *. cbn [fst snd]. simpl TelemetryClient.queue.
  split; [|exact Hq'].
  change (sent_events (drain_log ps) = e0 :: events).
  rewrite sent_events_drain_log. apply attempts_events.
Qed.

Lemma has_id_true ids e : In (eventId e) ids -> has_id ids e = true.
Proof.
  intros Hin. unfold has_id. apply existsb_exists.
  exists (eventId e). split; [exact Hin|apply String.eqb_refl].
Qed.

(** C10, as the claim has it: the second of two events that share an id
    is not left alone once the first has succeeded.  The queue holds [a] and
    [b] with the same id; the send of [a] succeeds and [remove] takes both
    out of the queue; the loop, which runs over the snapshot taken before,
    then sends [b] all the same (here the send fails, and [b] is lost). *)
Lemma C10_second_is_still_attempted :
  let a := sample_event "dup" in
  let b := duplicate_event "dup" in
  let c := sample_client_with_queue 5 [a; b] in
  let net : Network :=
    [fun _ => Returned (response_accepted "up");
     fun _ => Returned (response_accepted "srv-1");
     fun _ => Returned response_server_error] in
  let done := TelemetryClient.processQueue c net in
  queued_events c = [a; b] /\
  queued_events (client_of done) = [] /\
  ~ (forall before after,
       log_of done = before ++ CalledRemove (eventId b) :: after ->
       ~ In b (sent_events after)).
Proof.
  intros a b c net done. split; [reflexivity|]. split; [reflexivity|].
  intros H. eapply (H [_; _] [_]); [reflexivity|]. left. reflexivity.
Qed.

(** C10, amended.  [remove(eventId)] deletes every queued entry whose id is
    the argument and keeps the others.  So when the transport is online and
    the send of the first queued event [a] succeeds, no entry with the id of
    [a] is left in the queue after the drain.  Every event of the queue,
    those that share the id of [a] included, is nevertheless sent once in
    that same drain, since the loop runs over the snapshot taken before; no
    later drain sends an event with that id. *)
Theorem C10_remove_deletes_every_match
    (c : TelemetryClient.t) (q : OfflineQueue.t) (a : TelemetryEvent)
    (others : list TelemetryEvent) (net net1 : Network) :
  TelemetryClient.queue c = Some q ->
  OfflineQueue.queue q = a :: others ->
  Transport.isOnline (TelemetryClient.transport c) net = (Returned true, net1) ->
  succeeded (Transport.send (TelemetryClient.transport c)
               (TelemetryClient.journeys c) a net1).1 = true ->
  let done := TelemetryClient.processQueue c net in
  (forall st q0 id e,
      In e (OfflineQueue.queue (OfflineQueue.remove st q0 id)) <->
      In e (OfflineQueue.queue q0) /\ eventId e <> id) /\
  sent_events (log_of done) = a :: others /\
  (forall e, In e (queued_events (client_of done)) -> eventId e <> eventId a) /\
  (forall net' e,
      In e (sent_events (log_of (TelemetryClient.processQueue (client_of done) net'))) ->
      eventId e <> eventId a).
Proof.
  intros Hq Hqueue Honline Hsuccess done.
  destruct (processQueue_online c q a others net net1 Hq Hqueue Honline)
    as [Hsent Hleft].
  assert (forall e, In e (queued_events (client_of done)) -> eventId e <> eventId a)
    as Hgone.
  { intros e He Heq. subst done. rewrite Hleft in He.
    apply filter_In in He as [_ He]. apply negb_true_iff in He.
    rewrite has_id_true in He; [discriminate|].
    rewrite Heq. simpl.
    destruct (Transport.send (TelemetryClient.transport c)
                (TelemetryClient.journeys c) a net1) as [sent net2].
    simpl in Hsuccess. unfold removed_ids. simpl. rewrite Hsuccess.
    left. reflexivity. }
  split; [|split; [exact Hsent|split; [exact Hgone|]]].
  - intros st q0 id e. rewrite remove_queue, filter_In, negb_true_iff, String.eqb_neq.
    reflexivity.
  - intros net' e He.
    destruct (processQueue_sends (client_of done) net') as [Hnone|Hall].
    + rewrite Hnone in He. destruct He.
    + rewrite Hall in He. exact (Hgone e He).
Qed.

(** Two events with one id in the queue; the first is accepted. *)
Lemma C10_remove_deletes_every_match_witness :
  let a := sample_event "dup" in
  let b := duplicate_event "dup" in
  let c := sample_client_with_queue 5 [a; b] in
  let net : Network :=
    [fun _ => Returned (response_accepted "up");
     fun _ => Returned (response_accepted "srv-1");
     fun _ => Returned response_server_error] in
  let done := TelemetryClient.processQueue c net in
  queued_events c = [a; b] /\
  sent_events (log_of done) = [a; b] /\
  (forall e, In e (queued_events (client_of done)) -> eventId e <> "dup").
Proof.
  intros a b c net done.
  assert (exists q, TelemetryClient.queue c = Some q /\ OfflineQueue.queue q = [a; b])
    as (q & Hq & Hqueue) by (eexists; split; reflexivity).
  destruct (C10_remove_deletes_every_match c q a [b] net (tail net) Hq Hqueue
              eq_refl eq_refl) as (_ & Hsent & Hgone & _).
  split; [reflexivity|]. split; [exact Hsent|exact Hgone].
Defined.

End RemoveById.

(** ** client.ts: journeys and events *)

Section ClientJourneys.

(** Disposing a scope that [startJourney] returned leaves the client
    without a current journey, whatever the state of the client is and
    whichever journey is current. *)
Lemma dispose_detaches (c c0 : TelemetryClient.t) (name id : string) (now now' : Z) :
  TelemetryClient.currentJourney
    (TelemetryClient.disposeJourneyScope c
       (TelemetryClient.startJourney c0 name id now).2 now') = None.
Proof. reflexivity. Qed.

Lemma createEvent_no_journey (c : TelemetryClient.t) level message exception id now platform :
  TelemetryClient.currentJourney c = None ->
  e_journey (TelemetryClient.createEvent c level message exception id now platform) = None.
Proof. intros H. unfold TelemetryClient.createEvent. rewrite H. reflexivity. Qed.

(** C9.  After two calls of [startJourney], the second journey is the
    current one.  Disposing the scope of the first then sets the current
    journey to [undefined], although the journey of that scope is not the
    current one: the second journey, still active, is detached, events built
    afterwards carry no journey context, and [startStep] throws.  The
    callback makes no test: disposing a scope of [startJourney] detaches the
    current journey in every state of the client. *)
Theorem C9_disposing_older_scope_detaches (c : TelemetryClient.t)
    (name1 id1 name2 id2 : string) (now1 now2 now3 : Z) :
  let started1 := TelemetryClient.startJourney c name1 id1 now1 in
  let started2 := TelemetryClient.startJourney started1.1 name2 id2 now2 in
  let c2 := started2.1 in
  let c3 := TelemetryClient.disposeJourneyScope c2 started1.2 now3 in
  scope_journey started1.2 <> scope_journey started2.2 /\
  TelemetryClient.currentJourney c2 = Some (scope_journey started2.2) /\
  (exists j2, TelemetryClient.journeys c3 !! scope_journey started2.2 = Some j2 /\
              Journey.name j2 = name2 /\ Journey.isComplete j2 = false) /\
  TelemetryClient.currentJourney c3 = None /\
  (forall level message exception id now platform,
      e_journey (TelemetryClient.createEvent c3 level message exception id now platform)
      = None) /\
  (forall name category now_end now_start,
      TelemetryClient.startStep c3 name category now_end now_start =
      Threw (ThrownError "No active journey. Call startJourney() first.")) /\
  (forall (c' c0 : TelemetryClient.t) name id now now',
      TelemetryClient.currentJourney
        (TelemetryClient.disposeJourneyScope c'
           (TelemetryClient.startJourney c0 name id now).2 now') = None).
Proof.
  intros started1 started2 c2 c3.
  split; [simpl; unfold js_push; rewrite length_app; simpl; lia|].
  split; [reflexivity|].
  split.
  - subst c3 c2 started2 started1.
    unfold TelemetryClient.disposeJourneyScope, TelemetryClient.onJourney,
      TelemetryClient.startJourney, js_push. simpl.
    rewrite list_lookup_alter_ne by (rewrite length_app; simpl; lia).
    rewrite list_lookup_middle by reflexivity.
    eexists. split; [reflexivity|].
    destruct (TelemetryClient.user c); split; reflexivity.
  - split; [reflexivity|]. split; [|split].
    + intros. apply createEvent_no_journey. reflexivity.
    + intros. reflexivity.
    + intros. apply dispose_detaches.
Qed.

(** C6, on the metadata of the journey.  An event is built while a journey
    is current; [setMetadata] is then called on the journey.  The journey
    context of the event holds the metadata object of the journey itself,
    so the event, read again, shows the new entry. *)
Theorem C6_metadata_is_not_a_copy (c : TelemetryClient.t) (name id : string)
    (now : Z) (level : SeverityLevel) (message : option string)
    (eid : string) (now' : Z) (platform : PlatformInfo)
    (key : string) (value : JsValue) :
  key <> "__proto__" ->
  let started := TelemetryClient.startJourney c name id now in
  let c1 := started.1 in
  let event := TelemetryClient.createEvent c1 level message None eid now' platform in
  let c2 := TelemetryClient.onJourney c1 (scope_journey started.2)
              (fun j => Journey.setMetadata j key value) in
  event_metadata (TelemetryClient.journeys c1) event = Some [] /\
  event_metadata (TelemetryClient.journeys c2) event = Some [(key, value)].
Proof.
  intros Hkey started c1 event c2.
  subst c2 event c1 started.
  unfold event_metadata, TelemetryClient.createEvent, TelemetryClient.onJourney,
    TelemetryClient.startJourney, js_push. simpl.
  rewrite !list_lookup_middle by reflexivity. simpl.
  rewrite list_lookup_alter_eq, list_lookup_middle by reflexivity. simpl.
  unfold obj_set. destruct (String.eqb_spec key "__proto__") as [|_]; [contradiction|].
  destruct (TelemetryClient.user c); split; reflexivity.
Qed.

(** The failing input: the journey "checkout", an event built by
    [captureMessage], then [setMetadata('k', 'v')]. *)
Lemma C6_metadata_is_not_a_copy_witness :
  let started := TelemetryClient.startJourney (sample_client 1 default_beforeSend 500)
                   "checkout" "j-1" 1 in
  let event := TelemetryClient.createEvent started.1 Severity.info (Some "m") None
                 "e-1" 2 sample_platform in
  let c2 := TelemetryClient.onJourney started.1 (scope_journey started.2)
              (fun j => Journey.setMetadata j "k" (VStr "v")) in
  event_metadata (TelemetryClient.journeys started.1) event = Some [] /\
  event_metadata (TelemetryClient.journeys c2) event = Some [("k", VStr "v")].
Proof.
  apply (C6_metadata_is_not_a_copy (sample_client 1 default_beforeSend 500)
           "checkout" "j-1" 1 Severity.info (Some "m") "e-1" 2 sample_platform
           "k" (VStr "v")).
  discriminate.
Defined.

End ClientJourneys.

(** ** client.ts: sampling *)

Section Sampling.

Lemma sampled_out_spec (draw rate : Q) :
  TelemetryClient.sampled_out draw (Num rate) = true <-> (rate < draw)%Q.
Proof.
  unfold TelemetryClient.sampled_out, num_lt. rewrite negb_true_iff.
  destruct (Qle_bool draw rate) eqn:H.
  - apply Qle_bool_iff in H. split; [discriminate|].
    intros Hlt. exfalso. exact (Qlt_not_le _ _ Hlt H).
  - split; [|reflexivity]. intros _. apply Qnot_le_lt. intros Hle.
    apply Qle_bool_iff in Hle. congruence.
Qed.

Lemma sampled_out_drops (c : TelemetryClient.t) (draw : Q)
    (event : TelemetryEvent) (net : Network) :
  TelemetryClient.sampled_out draw (sampleRate (TelemetryClient.options c)) = true ->
  TelemetryClient.sendEvent c draw event net =
    (Returned {| success := true; r_eventId := Some (VStr (eventId event));
                 r_error := None; queued := None |}, c, net, []).
Proof. intros H. unfold TelemetryClient.sendEvent. rewrite H. reflexivity. Qed.

Lemma sampled_in_calls_hook (c : TelemetryClient.t) (draw : Q)
    (event : TelemetryEvent) (net : Network) :
  TelemetryClient.sampled_out draw (sampleRate (TelemetryClient.options c)) = false ->
  exists rest,
    log_of (TelemetryClient.sendEvent c draw event net) = CalledBeforeSend event :: rest /\
    sent_events rest =
      match beforeSend (TelemetryClient.options c) event with
      | Returned (HookBool true) => [event]
      | Returned (HookEvent e) => [e]
      | Returned (HookBool false) | Threw _ => []
      end.
Proof.
  intros Hin. unfold TelemetryClient.sendEvent, log_of. rewrite Hin.
  destruct (beforeSend (TelemetryClient.options c) event) as [[[|]|e]|err];
    try (eexists; split; reflexivity).
  - destruct (send_returns (TelemetryClient.transport c) (TelemetryClient.journeys c)
                event net) as (result & net' & ->).
    destruct (TelemetryClient.queue c); [destruct (success result)|];
      simpl; eexists; split; reflexivity.
  - destruct (send_returns (TelemetryClient.transport c) (TelemetryClient.journeys c)
                e net) as (result & net' & ->).
    destruct (TelemetryClient.queue c); [destruct (success result)|];
      simpl; eexists; split; reflexivity.
Qed.

(** A positive draw is above the rate 0: the event is dropped before the
    hook is called, nothing is sent and nothing is queued. *)
Lemma rate_zero_positive_draw (c : TelemetryClient.t) (draw : Q)
    (event : TelemetryEvent) (net : Network) :
  num_is (sampleRate (TelemetryClient.options c)) 0 -> (0 < draw)%Q ->
  TelemetryClient.sendEvent c draw event net =
    (Returned {| success := true; r_eventId := Some (VStr (eventId event));
                 r_error := None; queued := None |}, c, net, []).
Proof.
  intros Hrate Hdraw. apply sampled_out_drops.
  destruct (sampleRate (TelemetryClient.options c)) as [rate| | |]; try contradiction.
  apply sampled_out_spec. simpl in Hrate. rewrite Hrate. exact Hdraw.
Qed.

(** No draw below 1 is above the rate 1: the hook is called, first, and
    the event is sent unless the hook drops it or throws. *)
Lemma rate_one_passes_sampling (c : TelemetryClient.t) (draw : Q)
    (event : TelemetryEvent) (net : Network) :
  num_is (sampleRate (TelemetryClient.options c)) 1 -> (draw < 1)%Q ->
  exists rest,
    log_of (TelemetryClient.sendEvent c draw event net) = CalledBeforeSend event :: rest /\
    sent_events rest =
      match beforeSend (TelemetryClient.options c) event with
      | Returned (HookBool true) => [event]
      | Returned (HookEvent e) => [e]
      | Returned (HookBool false) | Threw _ => []
      end.
Proof.
  intros Hrate Hdraw. apply sampled_in_calls_hook.
  destruct (sampleRate (TelemetryClient.options c)) as [rate| | |]; try contradiction.
  apply not_true_is_false. rewrite sampled_out_spec. simpl in Hrate. rewrite Hrate.
  apply Qle_not_lt, Qlt_le_weak, Hdraw.
Qed.

(** At the draw 0 with the rate 0: [Math.random()] can return 0, and
    [0 > 0] is false.  The event is not sampled out, the hook is called and
    the event is sent, and it is queued when the send fails. *)
Lemma rate_zero_draw_zero_sends (event : TelemetryEvent) (net : Network) :
  let c := sample_client 0 default_beforeSend 500 in
  TelemetryClient.sampled_out 0 (sampleRate (TelemetryClient.options c)) = false /\
  sent_events (log_of (TelemetryClient.sendEvent c 0 event net)) = [event] /\
  queued_events (client_of (TelemetryClient.sendEvent c 0 event [])) = [event].
Proof.
  intros c. split; [reflexivity|].
  unfold TelemetryClient.sendEvent, log_of, client_of. simpl.
  destruct (send_returns (TelemetryClient.transport c) (TelemetryClient.journeys c)
              event net) as (result & net' & Hsend).
  split.
  - change (Transport.send _ _ event net) with
      (Transport.send (TelemetryClient.transport c) (TelemetryClient.journeys c) event net).
    rewrite Hsend. destruct (success result); reflexivity.
  - destruct (send_offline (TelemetryClient.transport c) (TelemetryClient.journeys c)
                event) as (failure & Hoffline & Hfailure).
    change (Transport.send _ _ event []) with
      (Transport.send (TelemetryClient.transport c) (TelemetryClient.journeys c) event []).
    rewrite Hoffline. simpl. rewrite Hfailure. simpl.
    unfold queued_events. simpl. rewrite enqueue_queue. reflexivity.
Qed.

(** C3, as the claim has it for the rate 1: the transport is not always
    invoked.  With the rate 1, the draw 1/2 and a hook that returns [false],
    the event passes the sampling, the hook is called, and nothing is sent. *)
Lemma C3_rate_one_hook_can_drop :
  ~ (forall (c : TelemetryClient.t) (draw : Q) (event : TelemetryEvent) (net : Network),
        num_is (sampleRate (TelemetryClient.options c)) 1 ->
        (0 <= draw)%Q -> (draw < 1)%Q ->
        sent_events (log_of (TelemetryClient.sendEvent c draw event net)) <> []).
Proof.
  intros H.
  apply (H (sample_client 1 (fun _ => Returned (HookBool false)) 500) (1 # 2)%Q
           (sample_event "e-1") []); [reflexivity|discriminate|reflexivity|reflexivity].
Qed.

(** C3, amended.  The sampling comes first: when the draw is above the
    rate, [sendEvent] returns a success without calling the hook, the
    transport or the queue, and the client is unchanged; otherwise (the draw
    is not above the rate, or the rate is NaN, which no draw is above) its
    first call is the hook.  With the rate 0 the event is dropped at every
    positive draw.  With the rate 1 every draw below 1 passes the sampling,
    and the event that the hook lets through is sent: the event itself when
    the hook returns [true], the event that the hook returns when it returns
    one, and none when the hook returns [false] or throws. *)
Theorem C3_sampling_boundaries (c : TelemetryClient.t) (draw : Q)
    (event : TelemetryEvent) (net : Network) :
  let dropped :=
    (Returned {| success := true; r_eventId := Some (VStr (eventId event));
                 r_error := None; queued := None |}, c, net, @nil Effect) in
  (forall rate,
      sampleRate (TelemetryClient.options c) = Num rate -> (rate < draw)%Q ->
      TelemetryClient.sendEvent c draw event net = dropped) /\
  (forall rate,
      sampleRate (TelemetryClient.options c) = Num rate -> (draw <= rate)%Q ->
      exists rest,
        log_of (TelemetryClient.sendEvent c draw event net) = CalledBeforeSend event :: rest) /\
  (sampleRate (TelemetryClient.options c) = NaN ->
   exists rest,
     log_of (TelemetryClient.sendEvent c draw event net) = CalledBeforeSend event :: rest) /\
  (num_is (sampleRate (TelemetryClient.options c)) 0 -> (0 < draw)%Q ->
   TelemetryClient.sendEvent c draw event net = dropped) /\
  (num_is (sampleRate (TelemetryClient.options c)) 1 -> (draw < 1)%Q ->
   exists rest,
     log_of (TelemetryClient.sendEvent c draw event net) = CalledBeforeSend event :: rest /\
     sent_events rest =
       match beforeSend (TelemetryClient.options c) event with
       | Returned (HookBool true) => [event]
       | Returned (HookEvent e) => [e]
       | Returned (HookBool false) | Threw _ => []
       end).
Proof.
  intros dropped. split; [|split; [|split; [|split]]].
  - intros rate Hrate Hlt. apply sampled_out_drops. rewrite Hrate.
    apply sampled_out_spec, Hlt.
  - intros rate Hrate Hle.
    destruct (sampled_in_calls_hook c draw event net) as (rest & Hlog & _); [|eauto].
    rewrite Hrate. apply not_true_is_false. rewrite sampled_out_spec.
    apply Qle_not_lt, Hle.
  - intros Hrate.
    destruct (sampled_in_calls_hook c draw event net) as (rest & Hlog & _); [|eauto].
    rewrite Hrate. reflexivity.
  - apply rate_zero_positive_draw.
  - apply rate_one_passes_sampling.
Qed.

(** A client with the rate 1 and the default hook, the draw 1/2, and a
    server that accepts the event. *)
Lemma C3_sampling_boundaries_witness :
  let c := sample_client 1 default_beforeSend 500 in
  let net : Network := [fun _ => Returned (response_accepted "srv-1")] in
  num_is (sampleRate (TelemetryClient.options c)) 1 /\ (1 # 2 < 1)%Q /\
  sent_events (log_of (TelemetryClient.sendEvent c (1 # 2) (sample_event "e-1") net))
    = [sample_event "e-1"].
Proof.
  intros c net.
  assert (num_is (sampleRate (TelemetryClient.options c)) 1) as Hrate by reflexivity.
  assert (1 # 2 < 1)%Q as Hdraw by reflexivity.
  split; [exact Hrate|]. split; [exact Hdraw|].
  destruct (C3_sampling_boundaries c (1 # 2)%Q (sample_event "e-1") net)
    as (_ & _ & _ & _ & Hone).
  destruct (Hone Hrate Hdraw) as (rest & Hlog & Hsent).
  rewrite Hlog. exact Hsent.
Defined.

End Sampling.

(** ** Dates on the wire *)

Section IsoDates.
#[local] Open Scope Z_scope.

Lemma civil_fields (doe : Z) :
  0 <= doe < 146097 ->
  let yoe := (doe - doe / 1460 + doe / 36524 - doe / 146096) / 365 in
  let doy := doe - (365 * yoe + yoe / 4 - yoe / 100) in
  let mp := (5 * doy + 2) / 153 in
  let d := doy - (153 * mp + 2) / 5 + 1 in
  0 <= yoe < 400 /\ 0 <= doy < 366 /\ 0 <= mp < 12 /\ 1 <= d <= 31.
Proof.
  intros H yoe doy mp d. subst d mp doy yoe.
  Z.to_euclidean_division_equations; lia.
Qed.

Lemma civil_roundtrip (z : Z) :
  let '(y, m, d) := IsoDate.civil_from_days z in
  IsoDate.days_from_civil y m d = z /\ 1 <= m <= 12 /\ 1 <= d <= 31 /\
  400 * ((z + 719468) / 146097) <= y <= 400 * ((z + 719468) / 146097) + 400.
Proof.
  unfold IsoDate.civil_from_days, IsoDate.days_from_civil.
  set (era := (z + 719468) / 146097).
  set (doe := (z + 719468) mod 146097).
  assert (0 <= doe < 146097) as Hdoe by (apply Z.mod_pos_bound; lia).
  assert (z = era * 146097 + doe - 719468) as Hz.
  { subst era doe. pose proof (Z.div_mod (z + 719468) 146097). lia. }
  destruct (civil_fields doe Hdoe) as (Hyoe & Hdoy & Hmp & Hd).
  set (yoe := (doe - doe / 1460 + doe / 36524 - doe / 146096) / 365) in *.
  set (doy := doe - (365 * yoe + yoe / 4 - yoe / 100)) in *.
  set (mp := (5 * doy + 2) / 153) in *.
  set (d := doy - (153 * mp + 2) / 5 + 1) in *.
  assert ((yoe + era * 400) / 400 = era) as Hera
    by (rewrite Z.div_add by lia; rewrite Z.div_small by lia; lia).
  assert ((yoe + era * 400) mod 400 = yoe) as Hyoe'
    by (rewrite Z.mod_add by lia; apply Z.mod_small; lia).
  destruct (Z.ltb_spec mp 10) as [Hlt|Hge].
  - destruct (Z.leb_spec (mp + 3) 2) as [|_]; [lia|].
    destruct (Z.gtb_spec (mp + 3) 2) as [_|]; [|lia].
    rewrite Hera, Hyoe'. replace (mp + 3 - 3) with mp by lia.
    split; [subst d doy; lia|]. lia.
  - destruct (Z.leb_spec (mp - 9) 2) as [_|]; [|lia].
    destruct (Z.gtb_spec (mp - 9) 2) as [|_]; [lia|].
    replace (yoe + era * 400 + 1 - 1) with (yoe + era * 400) by lia.
    rewrite Hera, Hyoe'. replace (mp - 9 + 9) with mp by lia.
    split; [subst d doy; lia|]. lia.
Qed.

Lemma char_digit_digit_char (n : Z) :
  IsoDate.char_digit (IsoDate.digit_char n) = Some (n mod 10).
Proof.
  unfold IsoDate.char_digit, IsoDate.digit_char.
  pose proof (Z.mod_pos_bound n 10 ltac:(lia)) as Hn.
  rewrite Ascii.nat_ascii_embedding by lia.
  replace (Z.of_nat (48 + Z.to_nat (n mod 10))) with (48 + n mod 10) by lia.
  destruct (Z.leb_spec 48 (48 + n mod 10)); [|lia].
  destruct (Z.leb_spec (48 + n mod 10) 57); [|lia].
  simpl. f_equal. lia.
Qed.

Lemma read_digits_app (w1 w2 : nat) (acc : Z) (l : list ascii) :
  IsoDate.read_digits (w1 + w2) acc l =
  match IsoDate.read_digits w1 acc l with
  | Some (a, l') => IsoDate.read_digits w2 a l'
  | None => None
  end.
Proof.
  revert acc l. induction w1 as [|w1 IH]; intros acc l; simpl; [reflexivity|].
  destruct l as [|c l]; [reflexivity|].
  destruct (IsoDate.char_digit c); [apply IH|reflexivity].
Qed.

Lemma read_digits_digits (w : nat) (n acc : Z) (rest : list ascii) :
  0 <= n < 10 ^ Z.of_nat w ->
  IsoDate.read_digits w acc (IsoDate.digits w n ++ rest) =
  Some (acc * 10 ^ Z.of_nat w + n, rest).
Proof.
  revert n acc rest. induction w as [|w IH]; intros n acc rest Hn.
  - simpl in *. f_equal. f_equal. lia.
  - replace (S w) with (w + 1)%nat at 1 by lia.
    rewrite read_digits_app. cbn [IsoDate.digits]. rewrite <- app_assoc.
    assert (10 ^ Z.of_nat (S w) = 10 * 10 ^ Z.of_nat w) as Hpow.
    { rewrite Nat2Z.inj_succ, Z.pow_succ_r by lia. reflexivity. }
    rewrite IH by (rewrite Hpow in Hn; Z.to_euclidean_division_equations; lia).
    cbn [IsoDate.read_digits app]. rewrite char_digit_digit_char.
    f_equal. f_equal. rewrite Hpow.
    pose proof (Z.div_mod n 10 ltac:(lia)). lia.
Qed.

Lemma digits_head (w : nat) (n : Z) :
  exists k l, IsoDate.digits (S w) n = IsoDate.digit_char k :: l.
Proof.
  revert n. induction w as [|w IH]; intros n.
  - exists n, []. reflexivity.
  - destruct (IH (n / 10)) as (k & l & Hk).
    exists k, (l ++ [IsoDate.digit_char n]).
    change (IsoDate.digits (S (S w)) n)
      with (IsoDate.digits (S w) (n / 10) ++ [IsoDate.digit_char n]).
    rewrite Hk. reflexivity.
Qed.

Lemma read_year_digit (k : Z) (l : list ascii) :
  IsoDate.read_year (IsoDate.digit_char k :: l) =
  IsoDate.read_digits 4 0 (IsoDate.digit_char k :: l).
Proof.
  unfold IsoDate.digit_char.
  pose proof (Z.mod_pos_bound k 10 ltac:(lia)) as Hk.
  assert (exists i : nat, (i < 10)%nat /\ Z.to_nat (k mod 10) = i) as (i & Hi & ->)
    by (exists (Z.to_nat (k mod 10)); lia).
  do 10 (destruct i as [|i]; [reflexivity|]). lia.
Qed.

Lemma read_year_year_chars (y : Z) (rest : list ascii) :
  -999999 <= y <= 999999 ->
  IsoDate.read_year (IsoDate.year_chars y ++ rest) = Some (y, rest).
Proof.
  intros Hy. unfold IsoDate.year_chars.
  assert (10 ^ Z.of_nat 4 = 10000) as H4 by reflexivity.
  assert (10 ^ Z.of_nat 6 = 1000000) as H6 by reflexivity.
  destruct (Z.leb_spec 0 y) as [H0|H0]; [destruct (Z.leb_spec y 9999) as [H1|H1]|];
    cbn [andb].
  - destruct (digits_head 3 y) as (k & l & Hk). rewrite Hk.
    rewrite <- app_comm_cons, read_year_digit, app_comm_cons, <- Hk.
    rewrite read_digits_digits by lia. f_equal.
  - destruct (Z.ltb_spec y 0); [lia|].
    rewrite <- app_comm_cons. cbn [IsoDate.read_year].
    rewrite read_digits_digits by lia. f_equal.
  - destruct (Z.ltb_spec y 0); [|lia].
    rewrite <- app_comm_cons. cbn [IsoDate.read_year].
    rewrite read_digits_digits by lia.
    replace (0 * 10 ^ Z.of_nat 6 + - y) with (- y) by lia.
    destruct (Z.eqb_spec (- y) 0); [lia|]. f_equal. f_equal. lia.
Qed.

Lemma time_of_day (t : Z) :
  0 <= t < 86400000 ->
  0 <= t / 3600000 <= 23 /\ 0 <= t / 60000 mod 60 <= 59 /\
  0 <= t / 1000 mod 60 <= 59 /\ 0 <= t mod 1000 <= 999 /\
  t / 3600000 * 3600000 + t / 60000 mod 60 * 60000 + t / 1000 mod 60 * 1000
    + t mod 1000 = t.
Proof. intros H. Z.to_euclidean_division_equations. lia. Qed.

Lemma parse_format (ms : Z) :
  Z.abs ms <= IsoDate.maxTime -> IsoDate.parse (IsoDate.format ms) = Some ms.
Proof.
  unfold IsoDate.maxTime. intros Hms. unfold IsoDate.format, IsoDate.parse.
  pose proof (civil_roundtrip (ms / IsoDate.msPerDay)) as Hcivil.
  destruct (IsoDate.civil_from_days (ms / IsoDate.msPerDay)) as [[y m] d].
  destruct Hcivil as (Hdays & Hm & Hd & Hy).
  unfold IsoDate.msPerDay in *.
  pose proof (Z.div_mod ms 86400000 ltac:(lia)) as Hsplit.
  set (t := ms mod 86400000) in *.
  assert (0 <= t < 86400000) as Ht by (apply Z.mod_pos_bound; lia).
  destruct (time_of_day t Ht) as (Hhh & Hmm & Hss & Hsss & Hsum).
  assert (-999999 <= y <= 999999) as Hyear
    by (clear - Hy Hms; Z.to_euclidean_division_equations; lia).
  assert (10 ^ Z.of_nat 2 = 100) as H2 by reflexivity.
  assert (10 ^ Z.of_nat 3 = 1000) as H3 by reflexivity.
  rewrite String.list_ascii_of_string_of_list_ascii.
  rewrite read_year_year_chars by exact Hyear.
  cbn [mbind option_bind IsoDate.expect]. rewrite Ascii.eqb_refl.
  cbn [mbind option_bind]. rewrite read_digits_digits by lia.
  cbn [mbind option_bind IsoDate.expect]. rewrite Ascii.eqb_refl.
  cbn [mbind option_bind]. rewrite read_digits_digits by lia.
  cbn [mbind option_bind IsoDate.expect]. rewrite Ascii.eqb_refl.
  cbn [mbind option_bind]. rewrite read_digits_digits by lia.
  cbn [mbind option_bind IsoDate.expect]. rewrite Ascii.eqb_refl.
  cbn [mbind option_bind]. rewrite read_digits_digits by lia.
  cbn [mbind option_bind IsoDate.expect]. rewrite Ascii.eqb_refl.
  cbn [mbind option_bind]. rewrite read_digits_digits by lia.
  cbn [mbind option_bind IsoDate.expect]. rewrite Ascii.eqb_refl.
  cbn [mbind option_bind]. rewrite read_digits_digits by lia.
  cbn [mbind option_bind IsoDate.expect]. rewrite Ascii.eqb_refl.
  cbn [mbind option_bind].
  rewrite !Z.mul_0_l, !Z.add_0_l.
  repeat match goal with
  | |- context [(?a <=? ?b)] =>
      destruct (Z.leb_spec a b); [|lia]
  end.
  cbn [andb].
  replace (IsoDate.days_from_civil y m d * 86400000 + t / 3600000 * 3600000 +
           (t / 60000) mod 60 * 60000 + (t / 1000) mod 60 * 1000 + t mod 1000)
    with ms by lia.
  unfold IsoDate.maxTime. destruct (Z.leb_spec (Z.abs ms) 8640000000000000); [|lia].
  reflexivity.
Qed.

Lemma new_Date_toJSON (d : JsDate) :
  date_in_range d = true -> new_Date (toJSON d) = d.
Proof.
  destruct d as [ms|]; [|discriminate]. simpl. intros H.
  apply Z.leb_le in H. rewrite parse_format by exact H. reflexivity.
Qed.

End IsoDates.

(** ** queue.ts: the stored form *)

Section Persistence.

Lemma json_value_arr (items : list JsValue) :
  json_value (VArr items) =
  bindO (json_elements items) (fun items' => Returned (Some (VArr items'))).
Proof. reflexivity. Qed.

Lemma json_value_obj (fields : JsObject) :
  json_value (VObj fields) =
  bindO (json_props fields) (fun fields' => Returned (Some (VObj fields'))).
Proof. reflexivity. Qed.

Lemma json_object_props (o : JsObject) : json_object o = json_props o.
Proof.
  unfold json_object. rewrite json_value_obj. destruct (json_props o); reflexivity.
Qed.

Lemma json_value_safe :
  forall v : JsValue, json_safe v = true -> json_value v = Returned (Some v).
Proof.
  fix IH 1. intros [ | |b|[q| | |]|s|d|n|m|items|fields] H;
    try reflexivity; try discriminate.
  - rewrite json_value_arr.
    assert (json_elements items = Returned items) as ->; [|reflexivity].
    simpl in H. induction items as [|x items IHitems]; [reflexivity|].
    simpl in H. apply andb_true_iff in H as [Hx Hitems].
    simpl. rewrite (IH x Hx). simpl. rewrite (IHitems Hitems). reflexivity.
  - rewrite json_value_obj.
    assert (json_props fields = Returned fields) as ->; [|reflexivity].
    simpl in H. induction fields as [|[k x] fields IHfields]; [reflexivity|].
    simpl in H. apply andb_true_iff in H as [Hx Hfields].
    simpl. rewrite (IH x Hx). simpl. rewrite (IHfields Hfields). reflexivity.
Qed.

Lemma json_object_safe (o : JsObject) :
  json_safe (VObj o) = true -> json_object o = Returned o.
Proof. intros H. unfold json_object. rewrite (json_value_safe _ H). reflexivity. Qed.



Lemma mapO_returned {A B : Type} (f : A -> Outcome B) (l : list A) (out : list B) :
  mapO f l = Returned out <-> Forall2 (fun x y => f x = Returned y) l out.
Proof.
  revert out. induction l as [|x l IH]; intros out; simpl.
  - split; [intros [= <-]; constructor|intros H; inversion H; reflexivity].
  - split.
    + destruct (f x) as [y|] eqn:Hy; simpl; [|discriminate].
      destruct (mapO f l) as [ys|] eqn:Hys; simpl; [|discriminate].
      intros [= <-]. constructor; [exact Hy|apply IH; reflexivity].
    + intros H. inversion H as [|x' y l' ys Hy Hys]; subst.
      rewrite Hy. simpl. apply IH in Hys. rewrite Hys. reflexivity.
Qed.

(** What [JSON.stringify] returns for an event, field by field. *)
Lemma stringify_event_returned {D : Type} (date : D -> WireDate) (st : Store)
    (e : TelemetryEvent_ D MetadataRef) (stored : StoredEvent) :
  stringify_event date st e = Returned stored <->
  exists user extra breadcrumbs journey,
    optO stringify_user (e_user e) = Returned user /\
    json_object (e_extra e) = Returned extra /\
    mapO (stringify_breadcrumb date) (e_breadcrumbs e) = Returned breadcrumbs /\
    optO (stringify_journey date st) (e_journey e) = Returned journey /\
    stored =
      {| eventId := eventId e;
         e_timestamp := date (e_timestamp e);
         e_level := e_level e;
         e_message := e_message e;
         e_exception := e_exception e;
         e_user := user;
         e_tags := e_tags e;
         e_extra := extra;
         e_breadcrumbs := breadcrumbs;
         e_journey := journey;
         e_environment := e_environment e;
         e_appVersion := e_appVersion e;
         e_platform := e_platform e |}.
Proof.
  unfold stringify_event. split.
  - destruct (optO stringify_user (e_user e)) as [user|]; simpl; [|discriminate].
    destruct (json_object (e_extra e)) as [extra|]; simpl; [|discriminate].
    destruct (mapO (stringify_breadcrumb date) (e_breadcrumbs e)) as [breadcrumbs|];
      simpl; [|discriminate].
    destruct (optO (stringify_journey date st) (e_journey e)) as [journey|];
      simpl; [|discriminate].
    intros [= <-]. exists user, extra, breadcrumbs, journey. auto.
  - intros (user & extra & breadcrumbs & journey & -> & -> & -> & -> & ->). reflexivity.
Qed.




Lemma deserializeEvent_revive (data : StoredEvent) :
  OfflineQueue.deserializeEvent data =
    {| eventId := eventId data;
       e_timestamp := new_Date (e_timestamp data);
       e_level := e_level data;
       e_message := e_message data;
       e_exception := e_exception data;
       e_user := e_user data;
       e_tags := e_tags data;
       e_extra := e_extra data;
       e_breadcrumbs := revive_breadcrumb <$> e_breadcrumbs data;
       e_journey := revive_journey <$> e_journey data;
       e_environment := e_environment data;
       e_appVersion := e_appVersion data;
       e_platform := e_platform data |}.
Proof. reflexivity. Qed.





End Persistence.

(** * Further properties *)

(** ** breadcrumbs.ts *)

Section BreadcrumbBuffer.

(** X1.  For a finite capacity of at least one and a buffer that holds no
    more than its capacity (a new one, or one that was cleared), any
    sequence of [add] and [addBreadcrumb] calls leaves the buffer with the
    most recent breadcrumbs, as many as the capacity allows (its integer
    part when it is not an integer), oldest first; the count never exceeds
    the capacity and the capacity never changes. *)
Theorem X1_breadcrumbs_bounded (m : BreadcrumbManager.t) (cs : list BreadcrumbCall)
    (capacity : Q) :
  BreadcrumbManager.maxBreadcrumbs m = Num capacity ->
  (1 <= capacity)%Q ->
  (inject_Z (Z.of_nat (BreadcrumbManager.count m)) <= capacity)%Q ->
  let m' := breadcrumb_calls m cs in
  BreadcrumbManager.getAll m' =
    last_n (Z.to_nat (Qfloor capacity))
      (BreadcrumbManager.getAll m ++ (breadcrumb_of_call <$> cs)) /\
  (inject_Z (Z.of_nat (BreadcrumbManager.count m')) <= capacity)%Q /\
  BreadcrumbManager.maxBreadcrumbs m' = BreadcrumbManager.maxBreadcrumbs m.
Proof.
  intros Hmax Hcapacity Hcount m'. subst m'.
  unfold BreadcrumbManager.count, BreadcrumbManager.getAll in *.
  pose proof (Qfloor_one capacity Hcapacity) as Hfloor.
  apply Qle_inject_floor in Hcount.
  assert (BreadcrumbManager.breadcrumbs (breadcrumb_calls m cs) =
          last_n (Z.to_nat (Qfloor capacity))
            (BreadcrumbManager.breadcrumbs m ++ (breadcrumb_of_call <$> cs))) as Hall.
  { induction cs as [|c cs IH] using rev_ind.
    - rewrite app_nil_r. simpl. symmetry. apply last_n_all. lia.
    - rewrite breadcrumb_calls_snoc, breadcrumb_call_trim, fmap_app. simpl.
      rewrite breadcrumb_calls_max, Hmax, trim_positive by exact Hcapacity.
      rewrite IH, app_assoc. apply last_n_snoc. lia. }
  split; [exact Hall|]. split; [|apply breadcrumb_calls_max].
  apply Qle_inject_floor. rewrite Hall, last_n_length. lia.
Qed.

Lemma X1_breadcrumbs_bounded_witness :
  let m := BreadcrumbManager.clear
             (breadcrumb_calls (BreadcrumbManager.new (Num (5 # 2)))
                [CallAdd "old" None None None 1]) in
  breadcrumb_messages
    (breadcrumb_calls m
       [CallAdd "a" None None None 2; CallAdd "b" (Some ui) None None 3;
        CallAdd "c" None None None 4]) = ["b"; "c"].
Proof.
  intros m.
  assert (1 <= 5 # 2)%Q as H1 by discriminate.
  assert (inject_Z (Z.of_nat (BreadcrumbManager.count m)) <= 5 # 2)%Q as H2 by discriminate.
  destruct (X1_breadcrumbs_bounded m
              [CallAdd "a" None None None 2; CallAdd "b" (Some ui) None None 3;
               CallAdd "c" None None None 4] (5 # 2) eq_refl H1 H2) as (Hall & _ & _).
  unfold breadcrumb_messages. rewrite Hall. reflexivity.
Defined.

(** X2.  A negative capacity either keeps nothing or keeps everything.
    With a capacity of -1 or less a new buffer is empty after every [add]:
    the slice starts at or past the end of the array.  With a capacity
    strictly between -1 and 0 the start of the slice is rounded to 0 and the
    buffer keeps every breadcrumb, as it does with the capacity 0. *)
Theorem X2_negative_capacity (capacity : Q) (cs : list BreadcrumbCall) :
  (capacity < 0)%Q ->
  BreadcrumbManager.getAll (breadcrumb_calls (BreadcrumbManager.new (Num capacity)) cs) =
    if Qle_bool capacity (- (1)) then [] else breadcrumb_of_call <$> cs.
Proof.
  intros Hnegative. unfold BreadcrumbManager.getAll.
  destruct (Qle_bool capacity (- (1))) eqn:Hlow.
  - apply Qle_bool_iff in Hlow.
    induction cs as [|c cs IH] using rev_ind; [reflexivity|].
    rewrite breadcrumb_calls_snoc, breadcrumb_call_trim. simpl.
    rewrite breadcrumb_calls_max, IH. simpl.
    unfold BreadcrumbManager.trim. rewrite num_lt_length.
    assert (Qfloor capacity < 0)%Z as Hfloor by (apply (Qlt_inject_floor capacity 0), Hnegative).
    destruct (Z.ltb_spec (Qfloor capacity) (Z.of_nat (length [breadcrumb_of_call c])));
      [|simpl in *; lia].
    cbn [num_neg js_slice_number].
    assert (1 <= - capacity)%Q as Hone.
    { apply Qopp_le_compat in Hlow. exact Hlow. }
    rewrite Qtruncate_floor by (apply Qle_trans with 1%Q; [discriminate|exact Hone]).
    pose proof (Qfloor_one _ Hone) as Hstart.
    unfold js_slice. destruct (Z.ltb_spec (Qfloor (- capacity)) 0); [lia|].
    simpl length. replace (Z.to_nat (Z.min (Qfloor (- capacity)) (Z.of_nat 1))) with 1 by lia.
    reflexivity.
  - assert (- (1) < capacity)%Q as Hhigh.
    { apply Qnot_le_lt. intros Hle%Qle_bool_iff. congruence. }
    induction cs as [|c cs IH] using rev_ind; [reflexivity|].
    rewrite breadcrumb_calls_snoc, breadcrumb_call_trim, fmap_app. simpl.
    rewrite breadcrumb_calls_max, IH. simpl.
    apply trim_small; [exact Hhigh|].
    apply Qlt_trans with 0%Q; [exact Hnegative|reflexivity].
Qed.

Lemma X2_negative_capacity_witness :
  BreadcrumbManager.getAll
    (breadcrumb_calls (BreadcrumbManager.new (Num (- (1))))
       [CallAdd "a" None None None 1; CallAdd "b" None None None 2]) = [] /\
  breadcrumb_messages
    (breadcrumb_calls (BreadcrumbManager.new (Num (- (1 # 2))))
       [CallAdd "a" None None None 1; CallAdd "b" None None None 2]) = ["a"; "b"].
Proof.
  split.
  - apply (X2_negative_capacity (- (1))). reflexivity.
  - unfold breadcrumb_messages.
    rewrite (X2_negative_capacity (- (1 # 2))) by reflexivity. reflexivity.
Defined.

End BreadcrumbBuffer.

(** ** journey.ts *)

Section JourneyLifecycle.

Lemma step_evolves_refl s : step_evolves s s.
Proof. repeat split; auto. Qed.

Lemma step_evolves_finish status now s :
  status <> in_progress -> step_evolves s (Journey.finish status now s).
Proof. intros H. repeat split. intros _. exact H. Qed.

Lemma alter_evolves (f : JourneyStep -> JourneyStep) (k : nat) (l : list JourneyStep) i s :
  (forall x, step_evolves x (f x)) ->
  l !! i = Some s -> exists s', alter f k l !! i = Some s' /\ step_evolves s s'.
Proof.
  intros Hf Hi. rewrite list_lookup_alter. destruct (decide (k = i)) as [->|_].
  - rewrite Hi. simpl. eauto.
  - rewrite Hi. eauto using step_evolves_refl.
Qed.

Lemma finishCurrent_steps status now j :
  Journey.steps (Journey.finishCurrent status now j) = Journey.steps j \/
  exists k, Journey.steps (Journey.finishCurrent status now j) =
            alter (Journey.finish status now) k (Journey.steps j).
Proof.
  unfold Journey.finishCurrent.
  destruct (Journey.currentStep j) as [k|]; [|left; reflexivity].
  destruct (Journey.steps j !! k) as [s|] eqn:Hk; [|left; reflexivity].
  destruct (is_in_progress s); [|left; reflexivity].
  right. exists k. simpl. symmetry. apply list_eq. intros i.
  rewrite list_lookup_alter. destruct (decide (k = i)) as [->|Hne].
  - rewrite Hk. simpl. symmetry. apply list_lookup_insert_eq.
    eapply lookup_lt_Some, Hk.
  - symmetry. apply list_lookup_insert_ne, Hne.
Qed.

Lemma finishCurrent_current status now j :
  Journey.currentStep (Journey.finishCurrent status now j) = Journey.currentStep j.
Proof.
  unfold Journey.finishCurrent.
  destruct (Journey.currentStep j) as [k|] eqn:Hc; [|exact Hc].
  destruct (Journey.steps j !! k) as [s|]; [|exact Hc].
  destruct (is_in_progress s); [reflexivity|exact Hc].
Qed.

Lemma finishCurrent_flags status now j :
  Journey._completed (Journey.finishCurrent status now j) = Journey._completed j /\
  Journey._failed (Journey.finishCurrent status now j) = Journey._failed j /\
  Journey.id (Journey.finishCurrent status now j) = Journey.id j /\
  Journey.name (Journey.finishCurrent status now j) = Journey.name j /\
  Journey.startedAt (Journey.finishCurrent status now j) = Journey.startedAt j.
Proof.
  unfold Journey.finishCurrent.
  destruct (Journey.currentStep j) as [k|]; [|auto].
  destruct (Journey.steps j !! k) as [s|]; [|auto].
  destruct (is_in_progress s); auto.
Qed.

Lemma finishCurrent_evolves status now j i s :
  status <> in_progress -> Journey.steps j !! i = Some s ->
  exists s', Journey.steps (Journey.finishCurrent status now j) !! i = Some s' /\
             step_evolves s s'.
Proof.
  intros Hst Hi. destruct (finishCurrent_steps status now j) as [->|[k ->]].
  - eauto using step_evolves_refl.
  - apply alter_evolves; [|exact Hi]. intros x. apply step_evolves_finish, Hst.
Qed.

Lemma finishCurrent_length status now j :
  length (Journey.steps (Journey.finishCurrent status now j)) = length (Journey.steps j).
Proof.
  destruct (finishCurrent_steps status now j) as [->|[k ->]];
    [reflexivity|apply length_alter].
Qed.

Lemma finishCurrent_names status now j :
  s_name <$> Journey.steps (Journey.finishCurrent status now j)
  = s_name <$> Journey.steps j.
Proof.
  destruct (finishCurrent_steps status now j) as [->|[k ->]]; [reflexivity|].
  rewrite (list_fmap_alter s_name (Journey.finish status now) id).
  - apply list_alter_id. reflexivity.
  - apply Forall_forall. reflexivity.
Qed.

Lemma journey_call_evolves j c i s :
  Journey.steps j !! i = Some s ->
  exists s', Journey.steps (journey_call j c) !! i = Some s' /\ step_evolves s s'.
Proof.
  intros Hi. destruct c; simpl.
  - destruct (finishCurrent_evolves completed now_end j i s) as (s' & Hs' & Hev);
      [discriminate|exact Hi|].
    exists s'. split; [|exact Hev]. unfold js_push.
    rewrite lookup_app_l by (eapply lookup_lt_Some, Hs'). exact Hs'.
  - apply alter_evolves; [|exact Hi]. intros x. apply step_evolves_finish. discriminate.
  - apply alter_evolves; [|exact Hi]. intros x. apply step_evolves_finish. discriminate.
  - apply alter_evolves; [|exact Hi]. intros x. repeat split; auto.
  - unfold StepScope.dispose. destruct (Journey.steps j !! step) as [s0|];
      [|eauto using step_evolves_refl].
    destruct (is_in_progress s0); [|eauto using step_evolves_refl].
    apply alter_evolves; [|exact Hi]. intros x. apply step_evolves_finish. discriminate.
  - eauto using step_evolves_refl.
  - eauto using step_evolves_refl.
  - apply finishCurrent_evolves; [discriminate|exact Hi].
  - apply finishCurrent_evolves; [discriminate|exact Hi].
Qed.

Lemma step_evolves_trans s1 s2 s3 :
  step_evolves s1 s2 -> step_evolves s2 s3 -> step_evolves s1 s3.
Proof.
  intros (Hn & Hc & Ht & He) (Hn' & Hc' & Ht' & He').
  repeat split; try congruence. auto.
Qed.

Lemma journey_calls_evolves j cs i s :
  Journey.steps j !! i = Some s ->
  exists s', Journey.steps (journey_calls j cs) !! i = Some s' /\ step_evolves s s'.
Proof.
  revert j s. induction cs as [|c cs IH]; intros j s Hi.
  - eauto using step_evolves_refl.
  - destruct (journey_call_evolves j c i s Hi) as (s1 & H1 & Hev1).
    destruct (IH (journey_call j c) s1 H1) as (s2 & H2 & Hev2).
    exists s2. split; [exact H2|]. eapply step_evolves_trans; eassumption.
Qed.

Lemma journey_call_names j c :
  s_name <$> Journey.steps (journey_call j c) =
  (s_name <$> Journey.steps j) ++ started_steps [c].
Proof.
  assert (forall f k, (forall x, s_name (f x) = s_name x) ->
            s_name <$> alter f k (Journey.steps j) = s_name <$> Journey.steps j) as Halter.
  { intros f k Hf. rewrite (list_fmap_alter s_name f id).
    - apply list_alter_id. reflexivity.
    - apply Forall_forall. intros x _. apply Hf. }
  destruct c; simpl; rewrite ?app_nil_r.
  - unfold js_push. rewrite fmap_app, finishCurrent_names. reflexivity.
  - apply Halter. reflexivity.
  - apply Halter. reflexivity.
  - apply Halter. reflexivity.
  - unfold StepScope.dispose. destruct (Journey.steps j !! step) as [s0|]; [|reflexivity].
    destruct (is_in_progress s0); [|reflexivity]. apply Halter. reflexivity.
  - reflexivity.
  - reflexivity.
  - apply finishCurrent_names.
  - apply finishCurrent_names.
Qed.

Lemma journey_calls_names j cs :
  s_name <$> Journey.steps (journey_calls j cs) =
  (s_name <$> Journey.steps j) ++ started_steps cs.
Proof.
  revert j. induction cs as [|c cs IH]; intros j.
  - simpl. rewrite app_nil_r. reflexivity.
  - simpl. rewrite IH, journey_call_names, <- app_assoc. f_equal.
    unfold started_steps. simpl. destruct c; reflexivity.
Qed.

Lemma current_is_last_alter j f k :
  current_is_last j ->
  current_is_last (Journey.with_steps j (alter f k (Journey.steps j)) (Journey.currentStep j)).
Proof.
  unfold current_is_last. simpl. intros ->. rewrite length_alter.
  destruct (Journey.steps j) as [|x l]; [reflexivity|]. destruct k; reflexivity.
Qed.

Lemma current_is_last_finishCurrent status now j :
  current_is_last j -> current_is_last (Journey.finishCurrent status now j).
Proof.
  unfold current_is_last. rewrite finishCurrent_current. intros ->.
  pose proof (finishCurrent_length status now j) as Hlen.
  destruct (Journey.steps (Journey.finishCurrent status now j)) as [|y l'];
    destruct (Journey.steps j) as [|x l]; simpl in *; try discriminate; [reflexivity|].
  f_equal. lia.
Qed.

Lemma journey_call_current_is_last j c :
  current_is_last j -> current_is_last (journey_call j c).
Proof.
  intros H. destruct c; simpl.
  - unfold current_is_last, js_push. simpl.
    destruct (Journey.steps (Journey.finishCurrent completed now_end j)) as [|x l];
      simpl; [reflexivity|]. rewrite length_app. simpl. f_equal. lia.
  - apply current_is_last_alter, H.
  - apply current_is_last_alter, H.
  - apply current_is_last_alter, H.
  - unfold StepScope.dispose. destruct (Journey.steps j !! step) as [s0|]; [|exact H].
    destruct (is_in_progress s0); [|exact H]. apply current_is_last_alter, H.
  - exact H.
  - exact H.
  - apply (current_is_last_finishCurrent completed now j H).
  - apply (current_is_last_finishCurrent failed now j H).
Qed.

Lemma journey_calls_current_is_last j cs :
  current_is_last j -> current_is_last (journey_calls j cs).
Proof.
  revert j. induction cs as [|c cs IH]; intros j H; [exact H|].
  simpl. apply IH, journey_call_current_is_last, H.
Qed.

(** X3.  The steps of a journey are only ever appended: after any calls
    there is one more step for each [startStep], and every step that was
    there is still at its place with the name, the category and the start
    time it had. *)
Theorem X3_steps_are_only_appended (j : Journey.t) (cs : list JourneyCall) :
  length (Journey.steps (journey_calls j cs))
    = length (Journey.steps j) + length (started_steps cs) /\
  forall i s,
    Journey.steps j !! i = Some s ->
    exists s', Journey.steps (journey_calls j cs) !! i = Some s' /\
               s_name s' = s_name s /\ s_category s' = s_category s /\
               s_startedAt s' = s_startedAt s.
Proof.
  split.
  - rewrite <- (length_fmap s_name), journey_calls_names, length_app, length_fmap.
    reflexivity.
  - intros i s Hi.
    destruct (journey_calls_evolves j cs i s Hi) as (s' & Hs' & Hn & Hc & Ht & _).
    eauto.
Qed.

Lemma X3_steps_are_only_appended_witness :
  let j := journey_calls (Journey.new "checkout" "j-1" 0)
             [CallStartStep "validate" (Some "business") 1 2] in
  let j' := journey_calls j
             [CallStepFail 0 3; CallStartStep "pay" None 4 5; CallJourneyComplete 6] in
  length (Journey.steps j') = 2 /\
  exists s', Journey.steps j' !! 0 = Some s' /\ s_name s' = "validate" /\
             s_category s' = Some "business" /\ s_startedAt s' = ValidDate 2.
Proof.
  intros j j'.
  destruct (X3_steps_are_only_appended j
              [CallStepFail 0 3; CallStartStep "pay" None 4 5; CallJourneyComplete 6])
    as [Hlen Hkept].
  split; [exact Hlen|]. exact (Hkept 0 _ eq_refl).
Defined.

(** X4.  A step that has ended is never in progress again, whatever is
    called afterwards on the journey or on any of its steps; its status can
    still change between completed and failed. *)
Theorem X4_ended_step_stays_ended (j : Journey.t) (cs : list JourneyCall)
    (i : nat) (s : JourneyStep) :
  Journey.steps j !! i = Some s -> s_status s <> in_progress ->
  exists s', Journey.steps (journey_calls j cs) !! i = Some s' /\
             s_status s' <> in_progress.
Proof.
  intros Hi Hs.
  destruct (journey_calls_evolves j cs i s Hi) as (s' & Hs' & _ & _ & _ & Hended).
  eauto.
Qed.

Lemma X4_ended_step_stays_ended_witness :
  let j := journey_calls (Journey.new "checkout" "j-1" 0)
             [CallStartStep "validate" None 1 2; CallStepFail 0 3] in
  exists s', Journey.steps
               (journey_calls j [CallStepScopeDispose 0 4; CallStartStep "pay" None 5 6;
                                 CallJourneyFail 7]) !! 0 = Some s' /\
             s_status s' <> in_progress.
Proof.
  intros j.
  assert (exists s, Journey.steps j !! 0 = Some s /\ s_status s = failed)
    as (s & Hs & Hstatus) by (eexists; split; reflexivity).
  apply (X4_ended_step_stays_ended j _ 0 s Hs). rewrite Hstatus. discriminate.
Defined.

(** X5.  In a journey the current step is the step started last, ended or
    not: after any calls on a new journey the names of its steps are the
    names given to [startStep], in order, and the [currentStep] that
    [getContext] reports is the last of them ([undefined] only while no step
    was started). *)
Theorem X5_current_step_is_last_started (name id : string) (now : Z)
    (cs : list JourneyCall) (self : nat) :
  let j := journey_calls (Journey.new name id now) cs in
  s_name <$> Journey.steps j = started_steps cs /\
  jc_currentStep (Journey.getContext self j) = last (started_steps cs).
Proof.
  intros j.
  assert (s_name <$> Journey.steps j = started_steps cs) as Hnames
    by (subst j; rewrite journey_calls_names; reflexivity).
  split; [exact Hnames|].
  assert (current_is_last j) as Hlast
    by (subst j; apply journey_calls_current_is_last; reflexivity).
  simpl. unfold Journey.currentStepName. rewrite Hlast, <- Hnames.
  destruct (Journey.steps j) as [|x l] eqn:Hsteps; [reflexivity|].
  rewrite last_lookup, list_lookup_fmap, length_fmap. simpl.
  rewrite Nat.sub_0_r. reflexivity.
Qed.

(** X6.  The last call on a step decides its status and its end time:
    [complete] after [fail] (or after [complete]) gives the same step as
    [complete] alone, and [fail] after [complete] the same as [fail] alone;
    disposing the scope of a step that has failed leaves it failed. *)
Theorem X6_step_status_last_write_wins (k : nat) (t1 t2 : Z) (j : Journey.t) :
  Step.complete k t2 (Step.fail k t1 j) = Step.complete k t2 j /\
  Step.complete k t2 (Step.complete k t1 j) = Step.complete k t2 j /\
  Step.fail k t2 (Step.complete k t1 j) = Step.fail k t2 j /\
  StepScope.dispose k t2 (Step.fail k t1 j) = Step.fail k t1 j.
Proof.
  assert (forall st1 st2,
            alter (Journey.finish st2 t2) k (alter (Journey.finish st1 t1) k (Journey.steps j))
            = alter (Journey.finish st2 t2) k (Journey.steps j)) as Hlast.
  { intros st1 st2. rewrite list_alter_alter_eq. apply list_alter_ext; [|reflexivity].
    intros x _. reflexivity. }
  unfold Step.complete, Step.fail, Journey.with_steps. simpl.
  rewrite !Hlast. repeat split.
  unfold StepScope.dispose. simpl. rewrite list_lookup_alter_eq.
  destruct (Journey.steps j !! k); reflexivity.
Qed.

(** X7.  The identity of a journey is fixed and its end is final: no call
    changes its id, name or start time, and a journey that is complete
    stays complete. *)
Theorem X7_journey_completion_is_final (j : Journey.t) (cs : list JourneyCall) :
  Journey.isComplete j = true ->
  Journey.isComplete (journey_calls j cs) = true /\
  Journey.journeyId (journey_calls j cs) = Journey.journeyId j /\
  Journey.name (journey_calls j cs) = Journey.name j /\
  Journey.startedAt (journey_calls j cs) = Journey.startedAt j.
Proof.
  revert j. induction cs as [|c cs IH]; intros j Hj; [auto|].
  assert (Journey.isComplete (journey_call j c) = true /\
          Journey.id (journey_call j c) = Journey.id j /\
          Journey.name (journey_call j c) = Journey.name j /\
          Journey.startedAt (journey_call j c) = Journey.startedAt j) as (Hc & Hid & Hn & Ht).
  { unfold Journey.isComplete in *.
    destruct c; cbn -[Journey.finishCurrent]; try (split; [exact Hj|auto]).
    - destruct (finishCurrent_flags completed now_end j) as (H1 & H2 & H3 & H4 & H5).
      rewrite H1, H2, H3, H4, H5. auto.
    - unfold StepScope.dispose. destruct (Journey.steps j !! step) as [s0|]; [|auto].
      destruct (is_in_progress s0); auto.
    - destruct (finishCurrent_flags completed now j) as (H1 & H2 & H3 & H4 & H5).
      rewrite H3, H4, H5. auto.
    - destruct (finishCurrent_flags failed now j) as (H1 & H2 & H3 & H4 & H5).
      rewrite H3, H4, H5. split; [apply orb_true_r|auto]. }
  destruct (IH (journey_call j c) Hc) as (H1 & H2 & H3 & H4).
  unfold Journey.journeyId in *. simpl. repeat split; congruence.
Qed.

Lemma X7_journey_completion_is_final_witness :
  let j := Journey.fail (Journey.new "checkout" "j-1" 0) 1 in
  Journey.isComplete (journey_calls j [CallStartStep "late" None 2 3]) = true.
Proof.
  intros j.
  destruct (X7_journey_completion_is_final j [CallStartStep "late" None 2 3] eq_refl)
    as [H _].
  exact H.
Defined.

End JourneyLifecycle.

(** ** client.ts: the ambient context *)

Section ClientContext.

Lemma obj_get_define_eq key value (o : JsObject) :
  obj_get key (obj_define key value o) = value.
Proof.
  induction o as [|[k v] o IH]; simpl.
  - rewrite String.eqb_refl. reflexivity.
  - destruct (String.eqb k key) eqn:Hk; simpl; rewrite Hk; [reflexivity|exact IH].
Qed.

Lemma obj_get_define_ne key key' value (o : JsObject) :
  key' <> key -> obj_get key' (obj_define key value o) = obj_get key' o.
Proof.
  intros Hne. induction o as [|[k v] o IH]; simpl.
  - destruct (String.eqb_spec key key'); [congruence|reflexivity].
  - destruct (String.eqb_spec k key) as [->|Hk]; simpl.
    + destruct (String.eqb_spec key key'); [congruence|reflexivity].
    + destruct (String.eqb k key'); [reflexivity|exact IH].
Qed.


Lemma obj_set_proto value (o : JsObject) : obj_set "__proto__" value o = o.
Proof. reflexivity. Qed.








(** X9.  The user of an event is the user that the current journey got
    when it was started, if it got one: [setUser] and [clearUser] on the
    client do not change it while the journey is current.  A journey started
    without a user leaves the choice to the client's user of the moment, and
    so does the end of the journey. *)
Theorem X9_journey_user_takes_precedence (c : TelemetryClient.t)
    (name jid : string) (now : Z) (uid : string) (email : option string)
    (data : option JsObject) (level : SeverityLevel) (message : option string)
    (id : string) (now' now'' : Z) (platform : PlatformInfo) :
  let started := TelemetryClient.startJourney c name jid now in
  let journeyUser :=
    (fun u => {| u_id := u_id u; u_email := u_email u; u_name := None;
                 u_data := u_data u |}) <$> TelemetryClient.user c in
  let newUser := {| u_id := uid; u_email := email; u_name := None; u_data := data |} in
  let build c' := e_user (TelemetryClient.createEvent c' level message None id now' platform) in
  build (TelemetryClient.setUser started.1 uid email data)
    = Some (default newUser journeyUser) /\
  build (TelemetryClient.clearUser started.1) = journeyUser /\
  build (TelemetryClient.disposeJourneyScope
           (TelemetryClient.setUser started.1 uid email data) started.2 now'')
    = Some newUser.
Proof.
  intros started journeyUser newUser build.
  subst build journeyUser started. unfold TelemetryClient.createEvent. simpl.
  unfold js_push. rewrite !list_lookup_middle by reflexivity. simpl.
  destruct (TelemetryClient.user c); repeat split; reflexivity.
Qed.

Lemma obj_spread_snoc (a b : JsObject) kv :
  TelemetryClient.obj_spread a (b ++ [kv]) =
  obj_define kv.1 kv.2 (TelemetryClient.obj_spread a b).
Proof. unfold TelemetryClient.obj_spread. rewrite foldl_snoc. reflexivity. Qed.

Lemma obj_get_spread (a b : JsObject) key :
  obj_get key (TelemetryClient.obj_spread a b) =
  if obj_has key b then obj_get key (rev b) else obj_get key a.
Proof.
  induction b as [|[k v] b IH] using rev_ind; [reflexivity|].
  rewrite obj_spread_snoc, rev_unit. unfold obj_has in *. rewrite existsb_app. simpl.
  destruct (String.eqb_spec k key) as [->|Hne].
  - rewrite orb_true_r. apply obj_get_define_eq.
  - rewrite orb_false_r, obj_get_define_ne by congruence. exact IH.
Qed.

(** X10.  [captureException(error, extra)] sends an error event whose
    message is the message of the exception and whose extra context is the
    client's, overridden key by key by the [extra] of the call. *)
Theorem X10_capture_extra_overrides (c : TelemetryClient.t) (exception : ExceptionInfo)
    (extra' : JsObject) (id : string) (now : Z) (platform : PlatformInfo)
    (draw : Q) (net : Network) :
  exists event,
    TelemetryClient.captureException c exception (Some extra') id now platform draw net
      = TelemetryClient.sendEvent c draw event net /\
    eventId event = id /\ e_level event = Severity.error /\
    e_message event = Some (x_message exception) /\
    e_exception event = Some exception /\
    forall key,
      obj_get key (e_extra event) =
      if obj_has key extra' then obj_get key (rev extra')
      else obj_get key (TelemetryClient.extra c).
Proof.
  eexists. split; [reflexivity|]. simpl. repeat split.
  intros key. apply obj_get_spread.
Qed.

End ClientContext.

(** ** client.ts: the send path *)

Section SendPath.

Lemma send_result_not_queued (tr : Transport.t) (st : Store) (event : TelemetryEvent)
    (net net' : Network) (result : SendResult) :
  Transport.send tr st event net = (Returned result, net') -> queued result = None.
Proof.
  unfold Transport.send, Transport.send_try.
  destruct (Transport.serializeEvent event) as [payload|err];
    [|intros [= <- _]; reflexivity].
  destruct (stringify_event WireString st payload) as [body|err];
    [|intros [= <- _]; reflexivity].
  destruct (fetch (Transport.request tr body) net) as [[response|err] net1].
  - simpl. destruct (ok response); simpl.
    + destruct (json response) as [value|err]; simpl; [|intros [= <- _]; reflexivity].
      destruct (get_eventId value); simpl; intros [= <- _]; reflexivity.
    + destruct (text response); simpl; intros [= <- _]; reflexivity.
  - simpl. intros [= <- _]. reflexivity.
Qed.

(** X11.  The promise of [sendEvent] rejects in one case only: the event
    passes the sampling and the [beforeSend] hook throws.  The error is the
    one of the hook, and neither the transport nor the queue was touched. *)
Theorem X11_only_the_hook_throws (c : TelemetryClient.t) (draw : Q)
    (event : TelemetryEvent) (net : Network) (err : Thrown) :
  (outcome_of (TelemetryClient.sendEvent c draw event net) = Threw err <->
   TelemetryClient.sampled_out draw (sampleRate (TelemetryClient.options c)) = false /\
   beforeSend (TelemetryClient.options c) event = Threw err) /\
  (outcome_of (TelemetryClient.sendEvent c draw event net) = Threw err ->
   TelemetryClient.sendEvent c draw event net = (Threw err, c, net, [CalledBeforeSend event])).
Proof.
  unfold outcome_of, TelemetryClient.sendEvent.
  destruct (TelemetryClient.sampled_out draw (sampleRate (TelemetryClient.options c))).
  - simpl. split; [split; [discriminate|intros [? _]; discriminate]|discriminate].
  - destruct (beforeSend (TelemetryClient.options c) event) as [[[|]|e]|err'] eqn:Hhook.
    + destruct (send_returns (TelemetryClient.transport c) (TelemetryClient.journeys c)
                  event net) as (result & net' & ->).
      destruct (TelemetryClient.queue c); [destruct (success result)|]; simpl;
        (split; [split; [discriminate|intros [_ ?]; discriminate]|discriminate]).
    + simpl. split; [split; [discriminate|intros [_ ?]; discriminate]|discriminate].
    + destruct (send_returns (TelemetryClient.transport c) (TelemetryClient.journeys c)
                  e net) as (result & net' & ->).
      destruct (TelemetryClient.queue c); [destruct (success result)|]; simpl;
        (split; [split; [discriminate|intros [_ ?]; discriminate]|discriminate]).
    + simpl. split; [split|].
      * intros [= ->]. auto.
      * intros [_ [= ->]]. reflexivity.
      * intros [= ->]. reflexivity.
Qed.

Lemma X11_only_the_hook_throws_witness :
  let c := sample_client 1 throwing_beforeSend 500 in
  let net : Network := [fun _ => Returned (response_accepted "srv-1")] in
  TelemetryClient.sendEvent c (1 # 2) (sample_event "e-1") net =
    (Threw (ThrownError "bad hook"), c, net, [CalledBeforeSend (sample_event "e-1")]).
Proof.
  intros c net.
  destruct (X11_only_the_hook_throws c (1 # 2)%Q (sample_event "e-1") net
              (ThrownError "bad hook")) as [[_ Hthrows] Hstate].
  apply Hstate, Hthrows. split; reflexivity.
Defined.

(** X12.  The [queued] flag of a result tells what happened to the queue.
    It is set exactly when the send failed and the client has a queue; the
    event that was sent is then the last entry of the queue.  In every other
    case (success, drop by sampling or by the hook, queue disabled, hook
    error) the client is left as it was. *)
Theorem X12_queued_flag_tells_the_queue (c : TelemetryClient.t) (draw : Q)
    (event : TelemetryEvent) (net : Network) :
  let res := TelemetryClient.sendEvent c draw event net in
  match outcome_of res with
  | Returned r =>
      (queued r = Some true <-> success r = false /\ is_Some (TelemetryClient.queue c)) /\
      (queued r = Some true ->
       exists e', sent_events (log_of res) = [e'] /\
                  last (queued_events (client_of res)) = Some e') /\
      (queued r <> Some true -> client_of res = c)
  | Threw _ => client_of res = c
  end.
Proof.
  assert (forall e' : TelemetryEvent,
    let '(sent, net') := Transport.send (TelemetryClient.transport c)
                           (TelemetryClient.journeys c) e' net in
    forall log0,
    let res :=
      match sent with
      | Threw err => (Threw err, c, net', log0 ++ [CalledSend e' sent])
      | Returned result =>
          match TelemetryClient.queue c with
          | Some q =>
              if negb (success result) then
                (Returned {| success := success result; r_eventId := r_eventId result;
                             r_error := r_error result; queued := Some true |},
                 TelemetryClient.with_queue c
                   (Some (OfflineQueue.enqueue (TelemetryClient.journeys c) q e')),
                 net', log0 ++ [CalledSend e' sent; CalledEnqueue e'])
              else (Returned result, c, net', log0 ++ [CalledSend e' sent])
          | None => (Returned result, c, net', log0 ++ [CalledSend e' sent])
          end
      end in
    sent_events log0 = [] ->
    match outcome_of res with
    | Returned r =>
        (queued r = Some true <-> success r = false /\ is_Some (TelemetryClient.queue c)) /\
        (queued r = Some true ->
         exists e'', sent_events (log_of res) = [e''] /\
                     last (queued_events (client_of res)) = Some e'') /\
        (queued r <> Some true -> client_of res = c)
    | Threw _ => client_of res = c
    end) as Hsend.
  { intros e'.
    destruct (send_returns (TelemetryClient.transport c) (TelemetryClient.journeys c) e' net)
      as (result & net' & Hs).
    rewrite Hs. pose proof (send_result_not_queued _ _ _ _ _ _ Hs) as Hq.
    intros log0 res Hlog0. subst res.
    destruct (TelemetryClient.queue c) as [q|] eqn:Hqueue.
    - destruct (success result) eqn:Hok; simpl.
      + rewrite Hq. unfold outcome_of, client_of. simpl.
        split; [split; [discriminate|intros [? _]; congruence]|].
        split; [discriminate|reflexivity].
      + unfold outcome_of, client_of, log_of. simpl.
        split; [split; [eauto|reflexivity]|]. split; [|congruence].
        intros _. exists e'. unfold sent_events in *. rewrite omap_app, Hlog0.
        split; [reflexivity|]. unfold queued_events. simpl.
        rewrite enqueue_queue. apply last_snoc.
    - unfold outcome_of, client_of. simpl. rewrite Hq.
      split; [split; [discriminate|intros [_ [? ?]]; discriminate]|].
      split; [discriminate|reflexivity]. }
  intros res. subst res. unfold TelemetryClient.sendEvent.
  destruct (TelemetryClient.sampled_out draw (sampleRate (TelemetryClient.options c))).
  { unfold outcome_of, client_of. simpl.
    split; [split; [discriminate|intros [? _]; discriminate]|].
    split; [discriminate|reflexivity]. }
  destruct (beforeSend (TelemetryClient.options c) event) as [[[|]|e]|err].
  - specialize (Hsend event).
    destruct (Transport.send (TelemetryClient.transport c) (TelemetryClient.journeys c)
                event net) as [sent net'].
    exact (Hsend [CalledBeforeSend event] eq_refl).
  - unfold outcome_of, client_of. simpl.
    split; [split; [discriminate|intros [? _]; discriminate]|].
    split; [discriminate|reflexivity].
  - specialize (Hsend e).
    destruct (Transport.send (TelemetryClient.transport c) (TelemetryClient.journeys c)
                e net) as [sent net'].
    exact (Hsend [CalledBeforeSend event] eq_refl).
  - reflexivity.
Qed.

Lemma X12_queued_flag_tells_the_queue_witness :
  let c := sample_client 1 default_beforeSend 500 in
  let res := TelemetryClient.sendEvent c (1 # 2) (sample_event "e-1")
               [fun _ => Returned response_server_error] in
  (exists r, outcome_of res = Returned r /\ queued r = Some true) /\
  last (queued_events (client_of res)) = Some (sample_event "e-1").
Proof.
  intros c res.
  pose proof (X12_queued_flag_tells_the_queue c (1 # 2)%Q (sample_event "e-1")
                [fun _ => Returned response_server_error]) as H.
  split; [eexists; split; reflexivity|].
  vm_compute in H. destruct H as (_ & Hlast & _).
  destruct (Hlast eq_refl) as (e' & [= <-] & He').
  vm_compute. exact He'.
Defined.

End SendPath.

(** ** client.ts: the drain *)

Section DrainOutcome.

Lemma isOnline_returns (tr : Transport.t) (net : Network) :
  exists online, Transport.isOnline tr net = (Returned online, tail net).
Proof.
  unfold Transport.isOnline, fetch.
  destruct net as [|exchange rest]; [eexists; reflexivity|].
  destruct (exchange _); eexists; reflexivity.
Qed.

Lemma filter_sublist {A : Type} (f : A -> bool) (l : list A) :
  sublist (List.filter f l) l.
Proof.
  induction l as [|x l IH]; simpl; [constructor|].
  destruct (f x); [apply sublist_skip|apply sublist_cons]; exact IH.
Qed.

Lemma filter_all_false {A : Type} (f : A -> bool) (l : list A) :
  (forall x, In x l -> f x = false) -> List.filter f l = [].
Proof.
  induction l as [|x l IH]; intros H; simpl; [reflexivity|].
  rewrite (H x (or_introl eq_refl)). apply IH. intros y Hy. apply H. right. exact Hy.
Qed.

Lemma processQueue_queue (c : TelemetryClient.t) (q : OfflineQueue.t) (net net1 : Network) :
  TelemetryClient.queue c = Some q ->
  Transport.isOnline (TelemetryClient.transport c) net = (Returned true, net1) ->
  let ps := attempts (TelemetryClient.transport c) (TelemetryClient.journeys c)
              (OfflineQueue.queue q) net1 in
  queued_events (client_of (TelemetryClient.processQueue c net)) =
    List.filter (fun e => negb (has_id (removed_ids ps) e)) (OfflineQueue.queue q) /\
  TelemetryClient.with_queue c
    (TelemetryClient.queue (client_of (TelemetryClient.processQueue c net)))
  = client_of (TelemetryClient.processQueue c net).
Proof.
  intros Hq Honline ps.
  destruct (OfflineQueue.queue q) as [|e0 events] eqn:Hqueue.
  - unfold TelemetryClient.processQueue, client_of, queued_events.
    rewrite Hq. unfold OfflineQueue.isEmpty. rewrite Hqueue. simpl.
    rewrite Hq, Hqueue. split; [reflexivity|]. destruct c; simpl in *. subst. reflexivity.
  - split; [exact (proj2 (processQueue_online c q e0 events net net1 Hq Hqueue Honline))|].
    unfold TelemetryClient.processQueue, client_of.
    rewrite Hq. unfold OfflineQueue.isEmpty. rewrite Hqueue. cbn [length Nat.eqb].
    rewrite Honline.
    destruct (TelemetryClient.drain (TelemetryClient.transport c)
                (TelemetryClient.journeys c) (OfflineQueue.getAll q) q net1)
      as [[[o q'] net2] log]. reflexivity.
Qed.

(** X13.  A drain always runs to its end, and it is inert unless the queue
    holds something and the probe answers with a 2xx status: with no queue
    or an empty one nothing is called at all, not even the probe; when the
    probe fails or answers another status the client is left as it was and
    no event is sent. *)
Theorem X13_drain_needs_online (c : TelemetryClient.t) (net : Network) :
  let res := TelemetryClient.processQueue c net in
  let probe := (Transport.isOnline (TelemetryClient.transport c) net).1 in
  outcome_of res = Returned tt /\
  (queued_events c = [] -> res = (Returned tt, c, net, [])) /\
  (probe <> Returned true -> client_of res = c /\ sent_events (log_of res) = []) /\
  (sent_events (log_of res) <> [] -> probe = Returned true /\ queued_events c <> []).
Proof.
  intros res probe. subst res probe.
  unfold TelemetryClient.processQueue, outcome_of, client_of, log_of, queued_events.
  destruct (TelemetryClient.queue c) as [q|] eqn:Hq; [|simpl; tauto].
  unfold OfflineQueue.isEmpty.
  destruct (OfflineQueue.queue q) as [|e0 events] eqn:Hqueue; [simpl; tauto|].
  cbn [length Nat.eqb].
  destruct (isOnline_returns (TelemetryClient.transport c) net) as (online & ->).
  destruct online; simpl.
  - destruct (drain_spec (TelemetryClient.transport c) (TelemetryClient.journeys c)
                (OfflineQueue.getAll q) q (tail net)) as (q' & -> & _).
    simpl. split; [reflexivity|]. split; [discriminate|]. split; [congruence|].
    intros _. split; [reflexivity|discriminate].
  - split; [reflexivity|]. split; [discriminate|]. split; [auto|]. intros []. reflexivity.
Qed.

Lemma X13_drain_needs_online_witness :
  let c := sample_client_with_queue 5 [sample_event "E1"] in
  let res := TelemetryClient.processQueue c [fun _ => Returned response_server_error] in
  client_of res = c /\ sent_events (log_of res) = [].
Proof.
  intros c res.
  destruct (X13_drain_needs_online c [fun _ => Returned response_server_error])
    as (_ & _ & Hoffline & _).
  apply Hoffline. discriminate.
Defined.

(** X14.  A drain can only remove entries: with the probe online, what is
    left of the queue is a sublist of what it held, in the same order, and
    nothing else of the client changes.  If every send succeeds the queue is
    empty afterwards; if every send fails it is as it was. *)
Theorem X14_drain_only_removes (c : TelemetryClient.t) (q : OfflineQueue.t)
    (net net1 : Network) :
  TelemetryClient.queue c = Some q ->
  Transport.isOnline (TelemetryClient.transport c) net = (Returned true, net1) ->
  let ps := attempts (TelemetryClient.transport c) (TelemetryClient.journeys c)
              (OfflineQueue.queue q) net1 in
  let c' := client_of (TelemetryClient.processQueue c net) in
  sublist (queued_events c') (OfflineQueue.queue q) /\
  TelemetryClient.with_queue c (TelemetryClient.queue c') = c' /\
  (Forall (fun p => succeeded p.2 = true) ps -> queued_events c' = []) /\
  (Forall (fun p => succeeded p.2 = false) ps -> queued_events c' = OfflineQueue.queue q).
Proof.
  intros Hq Honline ps c'.
  destruct (processQueue_queue c q net net1 Hq Honline) as [Hleft Hsame].
  fold ps in Hleft. fold c' in Hleft, Hsame.
  split; [rewrite Hleft; apply filter_sublist|]. split; [exact Hsame|].
  assert (ps.*1 = OfflineQueue.queue q) as Hps by apply attempts_events.
  split; intros Hall; rewrite Hleft, <- Hps.
  - assert (removed_ids ps = (fun p => eventId p.1) <$> ps) as Hids.
    { clear Hleft Hps. unfold removed_ids.
      induction ps as [|[e r] ps IH]; [reflexivity|].
      apply Forall_cons in Hall as [Hr Hall]. simpl in *. rewrite Hr.
      rewrite fmap_cons. f_equal. apply IH, Hall. }
    apply filter_all_false. intros x Hx. apply negb_false_iff, has_id_true.
    rewrite Hids. apply list_elem_of_In, list_elem_of_fmap in Hx as ([x' r'] & -> & Hx').
    apply list_elem_of_In, list_elem_of_fmap. exists (x', r'). split; [reflexivity|exact Hx'].
  - assert (removed_ids ps = []) as ->.
    { clear Hleft Hps. unfold removed_ids.
      induction ps as [|[e r] ps IH]; [reflexivity|].
      apply Forall_cons in Hall as [Hr Hall]. simpl in *. rewrite Hr. apply IH, Hall. }
    clear. induction ps.*1 as [|x l IH]; [reflexivity|].
    cbn [List.filter has_id existsb negb]. f_equal. exact IH.
Qed.

Lemma X14_drain_only_removes_witness :
  let c := sample_client_with_queue 5 [sample_event "E1"; sample_event "E2"] in
  let net : Network :=
    [fun _ => Returned (response_accepted "up");
     fun _ => Returned (response_accepted "a");
     fun _ => Returned (response_accepted "b")] in
  queued_events c = [sample_event "E1"; sample_event "E2"] /\
  queued_events (client_of (TelemetryClient.processQueue c net)) = [].
Proof.
  intros c net. split; [reflexivity|].
  assert (exists q, TelemetryClient.queue c = Some q) as (q & Hq) by (eexists; reflexivity).
  destruct (X14_drain_only_removes c q net (tail net) Hq eq_refl) as (_ & _ & Hall & _).
  apply Hall.
  assert (OfflineQueue.queue q = [sample_event "E1"; sample_event "E2"]) as ->
    by (injection Hq as <-; reflexivity).
  repeat constructor.
Defined.

End DrainOutcome.

(** ** queue.ts *)

Section QueuePersistence.
Variable st : Store.

Lemma queue_call_saves q c :
  exists q0, queue_call st q c = OfflineQueue.save st q0 /\
             OfflineQueue.storage q0 = OfflineQueue.storage q.
Proof.
  destruct c; simpl.
  - unfold OfflineQueue.enqueue. eexists. split; [reflexivity|].
    destruct (num_le (OfflineQueue.maxSize q) (num_of_nat (length (OfflineQueue.queue q))));
      reflexivity.
  - unfold OfflineQueue.remove. eexists. split; reflexivity.
  - unfold OfflineQueue.clear. eexists. split; reflexivity.
Qed.

(** What [save] leaves in the storage. *)
Lemma save_storage q (maxSize : JsNumber) (debug : bool) :
  let q' := OfflineQueue.save st q in
  let next := OfflineQueue.new maxSize debug (OfflineQueue.storage q') in
  match mapO (stringify_event toJSON st) (OfflineQueue.queue q) with
  | Returned events =>
      if storage_accepts (OfflineQueue.storage q) events then
        storage_item (OfflineQueue.storage q') = Some (Items events) /\
        OfflineQueue.queue next = OfflineQueue.deserializeEvent <$> events
      else OfflineQueue.storage q' = OfflineQueue.storage q
  | Threw _ => OfflineQueue.storage q' = OfflineQueue.storage q
  end /\
  (OfflineQueue.storage q = NoLocalStorage ->
   OfflineQueue.storage q' = NoLocalStorage /\ OfflineQueue.queue next = []) /\
  (forall events,
      storage_accepts (OfflineQueue.storage q') events
      = storage_accepts (OfflineQueue.storage q) events).
Proof.
  intros q' next. subst next q'. unfold OfflineQueue.save.
  destruct (OfflineQueue.storage q) as [|item|accepts item] eqn:Hstorage.
  - rewrite Hstorage. simpl.
    destruct (mapO (stringify_event toJSON st) (OfflineQueue.queue q)); auto.
  - destruct (mapO (stringify_event toJSON st) (OfflineQueue.queue q)) as [events|err];
      simpl; [|rewrite Hstorage; simpl; split; [reflexivity|split; [discriminate|reflexivity]]].
    split; [split; reflexivity|]. split; [discriminate|reflexivity].
  - destruct (mapO (stringify_event toJSON st) (OfflineQueue.queue q)) as [events|err];
      simpl; [|rewrite Hstorage; simpl; split; [reflexivity|split; [discriminate|reflexivity]]].
    destruct (accepts events) eqn:Haccepts; simpl.
    + split; [split; reflexivity|]. split; [discriminate|reflexivity].
    + rewrite Hstorage. simpl. split; [reflexivity|]. split; [discriminate|reflexivity].
Qed.

(** X15.  The storage mirrors the queue as far as the queue can be
    written.  After an [enqueue], a [remove] or a [clear], if
    [JSON.stringify] returns on the queue and the storage takes the text,
    the stored item is the whole queue, entry by entry, and a queue
    constructed next reads back exactly those entries.  If [JSON.stringify]
    throws (a BigInt or a cycle in an entry) or the storage refuses the
    text, the stored item is what it was before the call, whatever has
    become of the queue in memory.  In a host without a storage the queue
    works in memory only, and a queue constructed next starts empty. *)
Theorem X15_storage_mirrors_queue (q : OfflineQueue.t) (c : QueueCall)
    (maxSize : JsNumber) (debug : bool) :
  let q' := queue_call st q c in
  let next := OfflineQueue.new maxSize debug (OfflineQueue.storage q') in
  match mapO (stringify_event toJSON st) (OfflineQueue.queue q') with
  | Returned events =>
      if storage_accepts (OfflineQueue.storage q) events then
        storage_item (OfflineQueue.storage q') = Some (Items events) /\
        OfflineQueue.queue next = OfflineQueue.deserializeEvent <$> events
      else OfflineQueue.storage q' = OfflineQueue.storage q
  | Threw _ => OfflineQueue.storage q' = OfflineQueue.storage q
  end /\
  (OfflineQueue.storage q = NoLocalStorage ->
   OfflineQueue.storage q' = NoLocalStorage /\ OfflineQueue.queue next = []) /\
  (forall events,
      storage_accepts (OfflineQueue.storage q') events
      = storage_accepts (OfflineQueue.storage q) events).
Proof.
  intros q' next. subst next q'.
  destruct (queue_call_saves q c) as (q0 & -> & Hq0).
  rewrite save_queue, <- Hq0. apply save_storage.
Qed.

(** X16.  [enqueue] always admits the event, as the last entry, whatever
    the capacity is; it drops at most one entry, the first, and only when
    the length of the queue has reached the capacity. *)
Theorem X16_enqueue_always_admits (q : OfflineQueue.t) (e : TelemetryEvent) :
  let q' := OfflineQueue.enqueue st q e in
  last (OfflineQueue.queue q') = Some e /\
  OfflineQueue.queue q' =
    (if num_le (OfflineQueue.maxSize q) (num_of_nat (length (OfflineQueue.queue q)))
     then tail (OfflineQueue.queue q) else OfflineQueue.queue q) ++ [e] /\
  length (OfflineQueue.queue q) <= length (OfflineQueue.queue q')
    <= S (length (OfflineQueue.queue q)) /\
  OfflineQueue.maxSize q' = OfflineQueue.maxSize q.
Proof.
  intros q'. subst q'. rewrite enqueue_length, enqueue_queue, enqueue_maxSize.
  split; [apply last_snoc|]. split; [reflexivity|]. split; [|reflexivity].
  destruct (num_le (OfflineQueue.maxSize q) (num_of_nat (length (OfflineQueue.queue q))));
    lia.
Qed.

End QueuePersistence.

Section QueuePersistenceScenario.

(** An event is enqueued and stored; a second one, which holds a BigInt,
    is enqueued in memory and the stored item stays as it was. *)
Lemma X15_storage_mirrors_queue_witness :
  let q := OfflineQueue.new (Num 5) false (HasLocalStorage NoItem) in
  let q1 := OfflineQueue.enqueue [] q (sample_event "E1") in
  let q2 := OfflineQueue.enqueue [] q1 (event_with_bigint "E2") in
  OfflineQueue.storage q1 = HasLocalStorage (Items [stored_sample_event "E1"]) /\
  OfflineQueue.queue q2 = [sample_event "E1"; event_with_bigint "E2"] /\
  OfflineQueue.storage q2 = OfflineQueue.storage q1.
Proof.
  intros q q1 q2. split; [reflexivity|]. split; [reflexivity|].
  exact (proj1 (X15_storage_mirrors_queue [] q1 (QEnqueue (event_with_bigint "E2"))
                  (Num 5) false)).
Defined.

End QueuePersistenceScenario.

Section StoredForm.

Lemma json_value_image :
  forall v v' : JsValue, json_value v = Returned (Some v') -> json_safe v' = true.
Proof.
  fix IH 1. intros [ | |b|[q| | |]|s|d|n|m|items|fields] v' H;
    try (cbn in H;
         first [discriminate
               |injection H as <-; reflexivity
               |injection H as <-; destruct (toJSON d); reflexivity]).
  - rewrite json_value_arr in H.
    destruct (json_elements items) as [out|] eqn:Hout; simpl in H; [|discriminate].
    injection H as <-. simpl.
    revert out Hout. induction items as [|x items IHitems]; intros out Hout; simpl in Hout.
    + injection Hout as <-. reflexivity.
    + destruct (json_value x) as [x'|] eqn:Hx; simpl in Hout; [|discriminate].
      destruct (json_elements items) as [rest|] eqn:Hrest; simpl in Hout; [|discriminate].
      injection Hout as <-. simpl. rewrite (IHitems rest eq_refl), andb_true_r.
      destruct x' as [x''|]; [exact (IH x x'' Hx)|reflexivity].
  - rewrite json_value_obj in H.
    destruct (json_props fields) as [out|] eqn:Hout; simpl in H; [|discriminate].
    injection H as <-. simpl.
    revert out Hout. induction fields as [|[k x] fields IHfields]; intros out Hout;
      simpl in Hout.
    + injection Hout as <-. reflexivity.
    + destruct (json_value x) as [x'|] eqn:Hx; simpl in Hout; [|discriminate].
      destruct (json_props fields) as [rest|] eqn:Hrest; simpl in Hout; [|discriminate].
      injection Hout as <-.
      destruct x' as [x''|]; [|exact (IHfields rest eq_refl)].
      simpl. rewrite (IHfields rest eq_refl), andb_true_r. exact (IH x x'' Hx).
Qed.

(** What [JSON.stringify] wrote, it writes again as it is. *)
Lemma json_object_idempotent (o o' : JsObject) :
  json_object o = Returned o' -> json_object o' = Returned o'.
Proof.
  intros H. apply json_object_safe. unfold json_object in H.
  destruct (json_value (VObj o)) as [[v|]|] eqn:Hv; simpl in H; try discriminate.
  - pose proof (json_value_image _ _ Hv) as Hsafe. rewrite json_value_obj in Hv.
    destruct (json_props o); simpl in Hv; [|discriminate].
    injection Hv as <-. injection H as <-. exact Hsafe.
  - injection H as <-. reflexivity.
Qed.

Lemma toJSON_new_Date (d : JsDate) :
  date_in_range d = true -> toJSON (new_Date (toJSON d)) = toJSON d.
Proof. intros H. rewrite new_Date_toJSON by exact H. reflexivity. Qed.

Lemma data_idempotent (data data' : option JsObject) :
  optO json_object data = Returned data' -> optO json_object data' = Returned data'.
Proof.
  destruct data as [o|]; simpl; [|intros [= <-]; reflexivity].
  destruct (json_object o) as [o'|] eqn:Ho; simpl; [|discriminate].
  intros [= <-]. simpl. rewrite (json_object_idempotent _ _ Ho). reflexivity.
Qed.

Lemma user_idempotent (user user' : option User) :
  optO stringify_user user = Returned user' -> optO stringify_user user' = Returned user'.
Proof.
  destruct user as [u|]; simpl; [|intros [= <-]; reflexivity].
  unfold stringify_user.
  destruct (optO json_object (u_data u)) as [data|] eqn:Hdata; simpl; [|discriminate].
  intros [= <-]. simpl. unfold stringify_user. simpl.
  rewrite (data_idempotent _ _ Hdata). reflexivity.
Qed.

Lemma breadcrumbs_idempotent (bs : list Breadcrumb) (out : list (Breadcrumb_ WireDate)) :
  forallb (fun b => date_in_range (b_timestamp b)) bs = true ->
  mapO (stringify_breadcrumb toJSON) bs = Returned out ->
  mapO (stringify_breadcrumb toJSON) (revive_breadcrumb <$> out) = Returned out.
Proof.
  revert out. induction bs as [|b bs IH]; intros out Hrange; simpl.
  - intros [= <-]. reflexivity.
  - simpl in Hrange. apply andb_true_iff in Hrange as [Hb Hbs].
    unfold stringify_breadcrumb at 1.
    destruct (optO json_object (b_data b)) as [data|] eqn:Hdata; simpl; [|discriminate].
    destruct (mapO (stringify_breadcrumb toJSON) bs) as [rest|] eqn:Hrest; simpl;
      [|discriminate].
    intros [= <-]. rewrite fmap_cons. simpl.
    unfold stringify_breadcrumb at 1. simpl.
    rewrite (data_idempotent _ _ Hdata). simpl.
    rewrite (IH rest Hbs eq_refl). simpl.
    rewrite toJSON_new_Date by exact Hb. reflexivity.
Qed.

Lemma journey_idempotent (st st' : Store) (journey : option JourneyContext)
    (journey' : option (JourneyContext_ WireDate JsObject)) :
  match journey with
  | Some j => date_in_range (jc_startedAt j)
  | None => true
  end = true ->
  optO (stringify_journey toJSON st) journey = Returned journey' ->
  optO (stringify_journey toJSON st') (revive_journey <$> journey') = Returned journey'.
Proof.
  destruct journey as [j|]; simpl; intros Hrange; [|intros [= <-]; reflexivity].
  unfold stringify_journey at 1.
  destruct (json_object (read_metadata st (jc_metadata j))) as [metadata|] eqn:Hmeta;
    simpl; [|discriminate].
  intros [= <-]. simpl. unfold stringify_journey. simpl.
  rewrite (json_object_idempotent _ _ Hmeta). simpl.
  rewrite toJSON_new_Date by exact Hrange. reflexivity.
Qed.

(** X17.  What is stored is stable: for an event whose dates are valid,
    writing the entry that was read back from the storage gives the stored
    entry again, whatever the journeys have become in between; and when the
    entry could not be written in the first place, for a BigInt or a cycle
    in it, both fail with the same error.  A queue that is loaded and saved
    again rewrites the storage as it was. *)
Theorem X17_stored_form_is_stable (st st' : Store) (e : TelemetryEvent) :
  event_dates_in_range e = true ->
  bindO (reload st e) (stringify_event toJSON st') = stringify_event toJSON st e.
Proof.
  unfold event_dates_in_range, reload.
  intros H. apply andb_true_iff in H as [H Hj]. apply andb_true_iff in H as [Hts Hbs].
  destruct (stringify_event toJSON st e) as [stored|err] eqn:Hstored; simpl;
    [|reflexivity].
  apply stringify_event_returned in Hstored
    as (user & extra & breadcrumbs & journey & Hu & Hx & Hb & Hjourney & ->).
  apply stringify_event_returned. exists user, extra, breadcrumbs, journey.
  rewrite deserializeEvent_revive.
  cbn [eventId e_timestamp e_level e_message e_exception e_user e_tags e_extra
       e_breadcrumbs e_journey e_environment e_appVersion e_platform].
  split; [exact (user_idempotent _ _ Hu)|].
  split; [exact (json_object_idempotent _ _ Hx)|].
  split; [exact (breadcrumbs_idempotent _ _ Hbs Hb)|].
  split; [exact (journey_idempotent st st' _ _ Hj Hjourney)|].
  rewrite toJSON_new_Date by exact Hts. reflexivity.
Qed.

Lemma X17_stored_form_is_stable_witness :
  let e := event_with_breadcrumb breadcrumb_with_date in
  event_dates_in_range e = true /\
  e_breadcrumbs <$> reload [] e <> Returned (e_breadcrumbs e) /\
  bindO (reload [] e) (stringify_event toJSON []) = stringify_event toJSON [] e.
Proof.
  intros e. split; [reflexivity|]. split; [vm_compute; discriminate|].
  apply (X17_stored_form_is_stable [] [] e). reflexivity.
Defined.

End StoredForm.

(** ** transport.ts *)

Section TransportExchanges.

Lemma serialize_breadcrumbs (bs : list Breadcrumb) :
  let serialize b :=
    bindO (toISOString (b_timestamp b)) (fun ts =>
      Returned {| b_timestamp := ts; b_category := b_category b;
                  b_message := b_message b; b_level := b_level b;
                  b_data := b_data b |}) in
  if forallb (fun b => date_valid (b_timestamp b)) bs then
    exists out, mapO serialize bs = Returned out /\
                mapO (stringify_breadcrumb WireString) out
                = mapO (stringify_breadcrumb toJSON) bs
  else mapO serialize bs = Threw (ThrownError "Invalid time value").
Proof.
  intros serialize. subst serialize. induction bs as [|b bs IH]; simpl.
  - exists []. split; reflexivity.
  - destruct (b_timestamp b) as [ms|] eqn:Hts; simpl; [|reflexivity].
    destruct (forallb (fun b0 => date_valid (b_timestamp b0)) bs).
    + destruct IH as (out & -> & Hout). simpl. eexists. split; [reflexivity|].
      simpl. rewrite Hout. unfold stringify_breadcrumb at 1 3. simpl. rewrite Hts.
      reflexivity.
    + rewrite IH. reflexivity.
Qed.

(** [serializeEvent] returns on the events whose dates are valid, and what
    [JSON.stringify] makes of its result is what it makes of the event. *)
Lemma serializeEvent_spec (st : Store) (event : TelemetryEvent) :
  if event_dates_valid event then
    exists payload, Transport.serializeEvent event = Returned payload /\
                    stringify_event WireString st payload = stringify_event toJSON st event
  else Transport.serializeEvent event = Threw (ThrownError "Invalid time value").
Proof.
  unfold event_dates_valid, Transport.serializeEvent.
  destruct (e_timestamp event) as [ms|] eqn:Hts; simpl; [|reflexivity].
  pose proof (serialize_breadcrumbs (e_breadcrumbs event)) as Hbs. simpl in Hbs.
  destruct (forallb (fun b => date_valid (b_timestamp b)) (e_breadcrumbs event)); simpl.
  - destruct Hbs as (out & -> & Hout). simpl.
    destruct (e_journey event) as [j|] eqn:Hj; simpl.
    + destruct (jc_startedAt j) as [ms'|] eqn:Hstart; simpl; [|reflexivity].
      eexists. split; [reflexivity|]. unfold stringify_event. simpl.
      rewrite Hts, Hout, Hj. simpl. unfold stringify_journey. simpl. rewrite Hstart.
      reflexivity.
    + eexists. split; [reflexivity|]. unfold stringify_event. simpl.
      rewrite Hts, Hout, Hj. reflexivity.
  - rewrite Hbs. reflexivity.
Qed.

Lemma send_sendable (tr : Transport.t) (st : Store) (event : TelemetryEvent)
    (net : Network) :
  if sendable st event then (Transport.send tr st event net).2 = tail net
  else
    exists message,
      Transport.send tr st event net =
        (Returned {| success := false; r_eventId := None;
                     r_error := Some message; queued := None |}, net) /\
      (event_dates_valid event = false -> message = "Invalid time value") /\
      (forall err,
          event_dates_valid event = true ->
          stringify_event toJSON st event = Threw err ->
          message = Transport.errorMessage err).
Proof.
  pose proof (serializeEvent_spec st event) as Hser.
  unfold sendable, Transport.send, Transport.send_try.
  destruct (event_dates_valid event); simpl.
  - destruct Hser as (payload & -> & ->).
    destruct (stringify_event toJSON st event) as [body|err]; simpl.
    + unfold fetch. destruct net as [|exchange rest]; simpl; [reflexivity|].
      destruct (exchange (Transport.request tr body)); reflexivity.
    + eexists. split; [reflexivity|]. split; [discriminate|].
      intros err' _ [= <-]. reflexivity.
  - rewrite Hser. eexists. split; [reflexivity|]. split; [reflexivity|discriminate].
Qed.

Lemma send_network (tr : Transport.t) (st : Store) (event : TelemetryEvent)
    (net : Network) :
  (Transport.send tr st event net).2 = if sendable st event then tail net else net.
Proof.
  pose proof (send_sendable tr st event net) as H.
  destruct (sendable st event); [exact H|].
  destruct H as (message & -> & _). reflexivity.
Qed.



(** X19.  The body that [send] posts is the stored form of the event: for
    an event whose dates are valid and that [JSON.stringify] can write,
    [fetch] is called once, with the method POST, the public key of the
    transport and, as the body, what the queue writes for the same event,
    the metadata of the journey being read at that moment. *)
Theorem X19_posted_body_is_stored_form (tr : Transport.t) (st : Store)
    (event : TelemetryEvent) (stored : StoredEvent)
    (exchange : Request -> Outcome Response) (rest : Network) :
  event_dates_valid event = true ->
  stringify_event toJSON st event = Returned stored ->
  Transport.send tr st event (exchange :: rest) =
  Transport.send tr st event
    ((fun _ =>
        exchange {| rq_method := "POST";
                    rq_url := Transport.apiBaseUrl tr +:+ "/api/v1/events";
                    rq_publicKey := Transport.publicKey tr;
                    rq_body := Some stored |}) :: rest).
Proof.
  intros Hvalid Hstored. pose proof (serializeEvent_spec st event) as Hser.
  rewrite Hvalid in Hser. destruct Hser as (payload & Hp & Hbody).
  unfold Transport.send, Transport.send_try. rewrite Hp, Hbody, Hstored. reflexivity.
Qed.

(** A server that answers with the stored timestamp it was sent. *)
Lemma X19_posted_body_is_stored_form_witness :
  let event := event_with_breadcrumb breadcrumb_with_date in
  let echo : Request -> Outcome Response :=
    fun rq =>
      Returned
        {| status := 200; text := Returned "";
           json :=
             Returned
               (VObj [("eventId",
                       match rq_body rq with
                       | Some {| e_timestamp := WireString sent |} => VStr sent
                       | _ => VNull
                       end)]) |} in
  exists stored,
    stringify_event toJSON [] event = Returned stored /\
    (Transport.send sample_transport [] event [echo]).1 =
      Returned {| success := true; r_eventId := Some (VStr "2023-11-14T22:13:20.000Z");
                  r_error := None; queued := None |}.
Proof.
  intros event echo. eexists. split; [reflexivity|].
  rewrite (X19_posted_body_is_stored_form sample_transport [] event _ echo [] eq_refl eq_refl).
  reflexivity.
Defined.

Lemma network_after_sendable (tr : Transport.t) (st : Store)
    (events : list TelemetryEvent) (net : Network) :
  network_after tr st events net = drop (length (List.filter (sendable st) events)) net.
Proof.
  revert net. induction events as [|e events IH]; intros net; [reflexivity|].
  simpl. rewrite send_network, IH.
  destruct (sendable st e); [|reflexivity].
  destruct net; simpl; rewrite ?drop_nil; reflexivity.
Qed.

(** X20.  A drain makes one exchange for the probe and one for each queued
    event that can be written, no more: with the transport online, the
    network has moved on by one answer plus one for every entry whose dates
    are valid and on which [JSON.stringify] returns. *)
Theorem X20_drain_one_exchange_per_entry (c : TelemetryClient.t) (q : OfflineQueue.t)
    (e0 : TelemetryEvent) (events : list TelemetryEvent) (net net1 : Network) :
  TelemetryClient.queue c = Some q ->
  OfflineQueue.queue q = e0 :: events ->
  Transport.isOnline (TelemetryClient.transport c) net = (Returned true, net1) ->
  network_of (TelemetryClient.processQueue c net) =
    drop (1 + length (List.filter (sendable (TelemetryClient.journeys c)) (e0 :: events)))
      net.
Proof.
  intros Hq Hqueue Honline.
  destruct (isOnline_returns (TelemetryClient.transport c) net) as (online & Hprobe).
  rewrite Hprobe in Honline. injection Honline as -> <-.
  unfold TelemetryClient.processQueue, network_of.
  rewrite Hq. unfold OfflineQueue.isEmpty. rewrite Hqueue. cbn [length Nat.eqb].
  rewrite Hprobe.
  destruct (drain_spec (TelemetryClient.transport c) (TelemetryClient.journeys c)
              (OfflineQueue.getAll q) q (tail net)) as (q' & -> & _).
  unfold OfflineQueue.getAll. rewrite Hqueue. cbn [fst snd].
  rewrite network_after_sendable.
  destruct net; simpl; rewrite ?drop_nil; reflexivity.
Qed.

(** Two failed events are in the queue, the second with a BigInt in it:
    the drain asks the server about the first only. *)
Lemma X20_drain_one_exchange_per_entry_witness :
  let c := sample_client_with_queue 5 [sample_event "E1"; event_with_bigint "E2"] in
  let net : Network :=
    [fun _ => Returned (response_accepted "up");
     fun _ => Returned response_server_error;
     fun _ => Returned (response_accepted "b");
     fun _ => Returned response_no_content] in
  queued_events c = [sample_event "E1"; event_with_bigint "E2"] /\
  network_of (TelemetryClient.processQueue c net) =
    [fun _ => Returned (response_accepted "b"); fun _ => Returned response_no_content].
Proof.
  intros c net. split; [reflexivity|].
  assert (exists q, TelemetryClient.queue c = Some q /\
                    OfflineQueue.queue q = [sample_event "E1"; event_with_bigint "E2"])
    as (q & Hq & Hqueue) by (eexists; split; reflexivity).
  rewrite (X20_drain_one_exchange_per_entry c q _ _ net (tail net) Hq Hqueue eq_refl).
  reflexivity.
Defined.

End TransportExchanges.

(** ** config.ts *)

Section Configuration.
Variable newURL : string -> Outcome Url.

(** X21.  [parseDsn] accepts a DSN only if [new URL] reads it and its user
    name starts with "pk_": the result then carries that user name as the
    public key and the base URL made of the protocol, without its colon, and
    the host.  Otherwise it throws an [Error] whose message either mentions
    "pk_" or is "Invalid DSN format: " followed by the DSN; a URL that reads
    well but has no such key gives the message about the key. *)
Theorem X21_parseDsn_outcomes (dsn : string) :
  match parseDsn newURL dsn with
  | Returned parsed =>
      exists url,
        newURL dsn = Returned url /\
        d_publicKey parsed = url_username url /\
        String.prefix "pk_" (d_publicKey parsed) = true /\
        d_protocol parsed = remove_first ":" (url_protocol url) /\
        d_host parsed = url_host url /\
        d_apiBaseUrl parsed = d_protocol parsed +:+ "://" +:+ d_host parsed
  | Threw err =>
      (exists message,
          err = ThrownError message /\
          (includes "pk_" message = true \/ message = "Invalid DSN format: " +:+ dsn)) /\
      (forall url,
          newURL dsn = Returned url ->
          String.prefix "pk_" (url_username url) = false /\
          err = ThrownError "DSN must contain a valid public key starting with pk_")
  end.
Proof.
  unfold parseDsn. destruct (newURL dsn) as [url|[message|]] eqn:Hurl; simpl.
  - destruct (String.eqb_spec (url_username url) "") as [Hempty|Hne]; simpl.
    + split.
      * eexists. split; [reflexivity|]. left. reflexivity.
      * intros url' [= <-]. rewrite Hempty. split; reflexivity.
    + destruct (String.prefix "pk_" (url_username url)) eqn:Hprefix; simpl.
      * exists url. repeat split; try reflexivity. exact Hprefix.
      * split.
        -- eexists. split; [reflexivity|]. left. reflexivity.
        -- intros url' [= <-]. split; [exact Hprefix|reflexivity].
  - destruct (includes "pk_" message) eqn:Hinc.
    + split; [|intros url [=]]. exists message. split; [reflexivity|]. left. exact Hinc.
    + split; [|intros url [=]]. eexists. split; [reflexivity|]. right. reflexivity.
  - split; [|intros url [=]]. eexists. split; [reflexivity|]. right. reflexivity.
Qed.

(** X22.  [resolveOptions] fails exactly when [parseDsn] does, with the
    same error.  Otherwise the sample rate it returns is the configured rate
    brought into the interval from 0 to 1: the rate itself when it lies
    between 0 and 1, 0 for a rate below 0 (or minus infinity), 1 for a rate
    above 1 (or infinity), and 1 when none is configured.  A rate that is
    NaN stays NaN, and with it no draw is sampled out. *)
Theorem X22_resolveOptions_clamps_rate (options : TelemetryOptions) :
  match parseDsn newURL (o_dsn options) with
  | Threw err => resolveOptions (parseDsn newURL) options = Threw err
  | Returned parsed =>
      exists resolved,
        resolveOptions (parseDsn newURL) options = Returned resolved /\
        parsedDsn resolved = parsed /\
        match o_sampleRate options with
        | None => sampleRate resolved = Num 1
        | Some (Num rate) =>
            exists clamped,
              sampleRate resolved = Num clamped /\
              (0 <= clamped)%Q /\ (clamped <= 1)%Q /\
              ((0 <= rate)%Q -> (rate <= 1)%Q -> (clamped == rate)%Q) /\
              ((rate <= 0)%Q -> (clamped == 0)%Q) /\
              ((1 <= rate)%Q -> (clamped == 1)%Q)
        | Some NaN =>
            sampleRate resolved = NaN /\
            forall draw, TelemetryClient.sampled_out draw (sampleRate resolved) = false
        | Some PosInfinity => sampleRate resolved = Num 1
        | Some NegInfinity => sampleRate resolved = Num 0
        end
  end.
Proof.
  unfold resolveOptions.
  destruct (parseDsn newURL (o_dsn options)) as [parsed|err]; [|reflexivity].
  simpl. eexists. split; [reflexivity|]. simpl. split; [reflexivity|].
  destruct (o_sampleRate options) as [[rate| | |]|]; simpl; try reflexivity.
  - eexists. split; [reflexivity|].
    split; [apply Q.le_max_l|].
    split; [apply Q.max_lub; [discriminate|apply Q.le_min_l]|].
    split; [|split].
    + intros H0 H1. rewrite (Q.min_r 1 rate) by exact H1. apply Q.max_r, H0.
    + intros H0. apply Q.max_l. eapply Qle_trans; [apply Q.le_min_r|exact H0].
    + intros H1. rewrite (Q.min_l 1 rate) by exact H1. reflexivity.
  - split; reflexivity.
Qed.

End Configuration.

Section ConfiguredClient.

Lemma parseDsn_key (newURL : string -> Outcome Url) (dsn : string) :
  match parseDsn newURL dsn with
  | Returned parsed => String.prefix "pk_" (d_publicKey parsed) = true
  | Threw _ => True
  end.
Proof.
  unfold parseDsn. destruct (newURL dsn) as [url|[message|]]; simpl; [| |exact I].
  - destruct (String.eqb (url_username url) ""); simpl; [exact I|].
    destruct (String.prefix "pk_" (url_username url)) eqn:Hprefix; simpl; [exact Hprefix|exact I].
  - destruct (includes "pk_" message); exact I.
Qed.

Lemma X22_resolveOptions_clamps_rate_witness :
  (exists resolved,
      resolveOptions (parseDsn sample_newURL)
        (options_with_rate "https://pk_live_xxx@irontelemetry.com" (Num (3 # 2)))
        = Returned resolved /\
      num_is (sampleRate resolved) 1) /\
  (exists resolved,
      resolveOptions (parseDsn sample_newURL)
        (options_with_rate "https://pk_live_xxx@irontelemetry.com" NaN)
        = Returned resolved /\
      sampleRate resolved = NaN).
Proof.
  split.
  - pose proof (X22_resolveOptions_clamps_rate sample_newURL
                  (options_with_rate "https://pk_live_xxx@irontelemetry.com" (Num (3 # 2))))
      as H.
    change (parseDsn sample_newURL
              (o_dsn (options_with_rate "https://pk_live_xxx@irontelemetry.com"
                        (Num (3 # 2)))))
      with (Returned sample_dsn) in H.
    destruct H as (resolved & Hr & _ & clamped & Hrate & _ & _ & _ & _ & Hone).
    exists resolved. split; [exact Hr|]. rewrite Hrate. apply Hone. discriminate.
  - eexists. split; reflexivity.
Defined.

Lemma X21_parseDsn_outcomes_witness :
  parseDsn sample_newURL "https://pk_live_xxx@irontelemetry.com" = Returned sample_dsn /\
  parseDsn sample_newURL "https://irontelemetry.com" =
    Threw (ThrownError "DSN must contain a valid public key starting with pk_") /\
  parseDsn sample_newURL "not a url" = Threw (ThrownError "Invalid DSN format: not a url").
Proof.
  split; [reflexivity|]. split; [|reflexivity].
  pose proof (X21_parseDsn_outcomes sample_newURL "https://irontelemetry.com") as H.
  destruct (parseDsn sample_newURL "https://irontelemetry.com") as [parsed|err] eqn:Hp.
  - discriminate Hp.
  - destruct H as [_ H]. destruct (H _ eq_refl) as [_ ->]. reflexivity.
Defined.

(** X23.  A client built from options that give only the DSN samples
    nothing out, keeps 100 breadcrumbs, and has an offline queue of capacity
    500 that starts with what the storage holds and a flush timer; its
    transport posts to the base URL of the DSN with the public key of the
    DSN.  [close] stops the timer and leaves the queue as it is. *)
Theorem X23_client_defaults (newURL : string -> Outcome Url) (dsn : string)
    (storage : LocalStorage) (resolved : ResolvedOptions) :
  resolveOptions (parseDsn newURL) (options_of_dsn dsn) = Returned resolved ->
  let c := TelemetryClient.new resolved storage in
  sampleRate (TelemetryClient.options c) = Num 1 /\
  BreadcrumbManager.maxBreadcrumbs (TelemetryClient.breadcrumbs c) = Num 100 /\
  TelemetryClient.queue c = Some (OfflineQueue.new (Num 500) false storage) /\
  TelemetryClient.flushInterval c = true /\
  String.prefix "pk_" (Transport.publicKey (TelemetryClient.transport c)) = true /\
  Transport.apiBaseUrl (TelemetryClient.transport c) = d_apiBaseUrl (parsedDsn resolved) /\
  TelemetryClient.flushInterval (TelemetryClient.close c) = false /\
  TelemetryClient.queue (TelemetryClient.close c) = TelemetryClient.queue c.
Proof.
  intros Hresolved c.
  pose proof (parseDsn_key newURL dsn) as Hparse.
  unfold resolveOptions in Hresolved. simpl in Hresolved.
  destruct (parseDsn newURL dsn) as [parsed|err]; [|discriminate].
  simpl in Hresolved. injection Hresolved as <-.
  subst c. unfold TelemetryClient.new. simpl.
  repeat split; try reflexivity. exact Hparse.
Qed.

Lemma X23_client_defaults_witness :
  exists resolved,
    resolveOptions (parseDsn sample_newURL)
      (options_of_dsn "https://pk_live_xxx@irontelemetry.com") = Returned resolved /\
    TelemetryClient.queue (TelemetryClient.new resolved (HasLocalStorage NoItem))
      = Some (OfflineQueue.new (Num 500) false (HasLocalStorage NoItem)).
Proof.
  eexists. split; [reflexivity|].
  destruct (X23_client_defaults sample_newURL "https://pk_live_xxx@irontelemetry.com"
              (HasLocalStorage NoItem) _ eq_refl) as (_ & _ & Hqueue & _).
  exact Hqueue.
Defined.

End ConfiguredClient.
